(** * ASP: browser-instance orchestrator and WS keep-alive helpers

    A shallow embedding of
      - [src/utils/cookie_handler.py]  (module [CookieHandler]),
      - [src/utils/common.py]          (module [Common]),
      - [src/browser/ws_helper.py]     (module [WsHelper]),
      - [src/main.py]                  (module [Main]),
    then the vocabulary in which their properties are stated, then the
    proofs.

    Effectful code runs in a state-and-exception monad.  For the WS helpers
    the state is a world: a clock in milliseconds, the number of calls made
    to the page driver, [random] and [time.sleep], and a trace of those calls
    with their answers; the page, the random generator and the scheduler are
    an oracle that answers the k-th call.  For the orchestrator the state
    holds the two module globals, the live processes and a trace; worker
    exits and stop requests happen while the orchestrator is blocked. *)

From Stdlib Require Import ZArith QArith Qround Qminmax String Ascii List Lia Lqa.
From stdpp Require Import gmap strings list pretty.

Local Open Scope string_scope.
Local Open Scope list_scope.
Local Open Scope Z_scope.

(** ** Python values and built-ins used by the sources *)

Module Py.

(** Exceptions that the modelled code can see.  [SystemExit] is what
    [sys.exit] raises; it is not an [Exception] subclass. *)
Inductive PyExn :=
| ValueError
| TypeError
| AttributeError
| RuntimeError
| DriverError            (* any playwright Error / TimeoutError *)
| SystemExit (code : Z).

Definition is_Exception (e : PyExn) : bool :=
  match e with SystemExit _ => false | _ => true end.

(** Outcome of running a piece of Python: a value, a raised exception, or
    [Fuel] when the step budget given to a [while] loop ran out. *)
Inductive Outcome (A : Type) :=
| Ret (a : A)
| Exn (e : PyExn)
| Fuel.
Arguments Ret {A} a.
Arguments Exn {A} e.
Arguments Fuel {A}.

(** Values found in a decoded JSON document.  [PyObj] stands for any other
    object (float, list, dict, ...), described by the three observations the
    code makes of a value: [str(v)], [bool(v)] and [int(v)]. *)
Inductive PyVal :=
| PyNone
| PyBool (b : bool)
| PyInt (z : Z)
| PyStr (s : string)
| PyObj (repr : string) (truth : bool) (as_int : option Z).

(** [bool(v)] *)
Definition truthy (v : PyVal) : bool :=
  match v with
  | PyNone => false
  | PyBool b => b
  | PyInt z => negb (Z.eqb z 0)
  | PyStr s => negb (String.eqb s "")
  | PyObj _ t _ => t
  end.

(** [str(v)] *)
Definition py_str (v : PyVal) : string :=
  match v with
  | PyNone => "None"
  | PyBool true => "True"
  | PyBool false => "False"
  | PyInt z => pretty z
  | PyStr s => s
  | PyObj r _ _ => r
  end.

(** [int(v)] for a value that is not [None]; [int_of_str] is Python's
    integer-literal parser on [str], [None] standing for [ValueError]. *)
Definition py_int (int_of_str : string -> option Z) (v : PyVal) : Outcome Z :=
  match v with
  | PyNone => Exn TypeError
  | PyBool b => Ret (if b then 1 else 0)
  | PyInt z => Ret z
  | PyStr s => match int_of_str s with Some z => Ret z | None => Exn ValueError end
  | PyObj _ _ (Some z) => Ret z
  | PyObj _ _ None => Exn TypeError
  end.

(** Case mapping.  Strings are byte strings; only the ASCII letters change
    case, which is all the comparisons of the sources depend on. *)
Definition ascii_lower (c : ascii) : ascii :=
  let n := N_of_ascii c in
  if ((65 <=? n) && (n <=? 90))%N then ascii_of_N (n + 32) else c.

Definition ascii_upper (c : ascii) : ascii :=
  let n := N_of_ascii c in
  if ((97 <=? n) && (n <=? 122))%N then ascii_of_N (n - 32) else c.

Fixpoint lower (s : string) : string :=
  match s with
  | EmptyString => EmptyString
  | String c s' => String (ascii_lower c) (lower s')
  end.

Fixpoint upper (s : string) : string :=
  match s with
  | EmptyString => EmptyString
  | String c s' => String (ascii_upper c) (upper s')
  end.

(** [s.capitalize()] *)
Definition capitalize (s : string) : string :=
  match s with
  | EmptyString => EmptyString
  | String c s' => String (ascii_upper c) (lower s')
  end.

(** [needle in hay] on strings *)
Fixpoint contains (needle hay : string) : bool :=
  if String.prefix needle hay then true
  else match hay with
       | EmptyString => false
       | String _ hay' => contains needle hay'
       end.

(** [s.strip()] : leading and trailing ASCII white space removed *)
Definition is_space (c : ascii) : bool :=
  let n := N_of_ascii c in
  (((9 <=? n) && (n <=? 13)) || ((28 <=? n) && (n <=? 32)))%N.

Fixpoint lstrip (s : string) : string :=
  match s with
  | EmptyString => EmptyString
  | String c s' => if is_space c then lstrip s' else s
  end.

Definition strip (s : string) : string :=
  String.rev (lstrip (String.rev (lstrip s))).

(** [s.split(sep)[-1]] for a one-character separator: what follows the last
    occurrence of [sep], or all of [s] when there is none. *)
Fixpoint last_field (sep : ascii) (s : string) : string :=
  match s with
  | EmptyString => EmptyString
  | String c s' =>
      if contains (String sep EmptyString) s' then last_field sep s'
      else if Ascii.eqb c sep then s' else s
  end.

(** [int(x)] on a float, modelled as a rational: truncation toward zero *)
Definition trunc (q : Q) : Z := Z.quot (Qnum q) (Z.pos (Qden q)).

(** [s.split(sep)] for a one-character separator: the pieces between the
    occurrences of [sep]; the empty string gives one empty piece. *)
Fixpoint split (sep : ascii) (s : string) : list string :=
  match s with
  | EmptyString => [EmptyString]
  | String c s' =>
      if Ascii.eqb c sep then EmptyString :: split sep s'
      else match split sep s' with
           | piece :: pieces => String c piece :: pieces
           | [] => [String c EmptyString]
           end
  end.

(** [s.split(sep, 1)]: cut at the first occurrence of [sep] only; one piece
    when [sep] does not occur. *)
Fixpoint split_first (sep : ascii) (s : string) : list string :=
  match s with
  | EmptyString => [EmptyString]
  | String c s' =>
      if Ascii.eqb c sep then [EmptyString; s']
      else match split_first sep s' with
           | piece :: pieces => String c piece :: pieces
           | [] => [String c EmptyString]
           end
  end.

End Py.
Export Py.

(** ** src/utils/cookie_handler.py *)

Module CookieHandler.

(** A cookie is a Python [dict] with string keys. *)
Abbreviation Cookie := (gmap string PyVal).

Definition allowed_keys : list string :=
  ["name"; "value"; "domain"; "path"; "expires"; "httpOnly"; "secure"; "sameSite"].

Definition copied_keys : list string :=
  ["name"; "value"; "domain"; "path"; "httpOnly"; "secure"].

Definition required_keys : list string :=
  ["name"; "value"; "domain"; "path"].

Section Convert.
Variable int_of_str : string -> option Z.

(** lines 10-12 *)
Definition copy_key (cookie : Cookie) (pw_cookie : Cookie) (key : string) : Cookie :=
  match cookie !! key with
  | Some v => <[key := v]> pw_cookie
  | None => pw_cookie
  end.

(** lines 13-19 *)
Definition set_expires (cookie pw_cookie : Cookie) : Outcome Cookie :=
  if truthy (default (PyBool false) (cookie !! "session")) then
    Ret (<["expires" := PyInt (-1)]> pw_cookie)
  else
    match cookie !! "expirationDate" with
    | Some PyNone => Ret (<["expires" := PyInt (-1)]> pw_cookie)
    | Some v =>
        match py_int int_of_str v with
        | Ret z => Ret (<["expires" := PyInt z]> pw_cookie)
        | Exn e => Exn e
        | Fuel => Fuel
        end
    | None => Ret pw_cookie
    end.

(** lines 21-28 *)
Definition set_same_site (cookie pw_cookie : Cookie) : Cookie :=
  match cookie !! "sameSite" with
  | Some v =>
      let same_site_value := lower (py_str v) in
      if String.eqb same_site_value "no_restriction" then
        <["sameSite" := PyStr "None"]> pw_cookie
      else if String.eqb same_site_value "lax" || String.eqb same_site_value "strict" then
        <["sameSite" := PyStr (capitalize same_site_value)]> pw_cookie
      else if String.eqb same_site_value "unspecified" then
        <["sameSite" := PyStr "Lax"]> pw_cookie
      else pw_cookie
  | None => pw_cookie
  end.

(** line 30 *)
Definition complete (pw_cookie : Cookie) : bool :=
  forallb (fun key => bool_decide (is_Some (pw_cookie !! key))) required_keys.

(** The body of the [for cookie in cookies_from_editor] loop: the
    Playwright cookie built from one input cookie. *)
Definition build (cookie : Cookie) : Outcome Cookie :=
  let pw_cookie := foldl (copy_key cookie) ∅ copied_keys in
  match set_expires cookie pw_cookie with
  | Ret pw_cookie => Ret (set_same_site cookie pw_cookie)
  | Exn e => Exn e
  | Fuel => Fuel
  end.

(** The [for] loop, lines 8-34.  The warning logged for a dropped cookie
    has no effect on the result and is left out. *)
Fixpoint convert_loop (cookies : list Cookie) (playwright_cookies : list Cookie)
  : Outcome (list Cookie) :=
  match cookies with
  | [] => Ret playwright_cookies
  | cookie :: rest =>
      match build cookie with
      | Ret pw_cookie =>
          if complete pw_cookie
          then convert_loop rest (playwright_cookies ++ [pw_cookie])
          else convert_loop rest playwright_cookies
      | Exn e => Exn e
      | Fuel => Fuel
      end
  end.

Definition convert_cookie_editor_to_playwright (cookies_from_editor : list Cookie)
  : Outcome (list Cookie) :=
  convert_loop cookies_from_editor [].

End Convert.

(** lines 81-90: the cookie made of one [name=value] pair *)
Definition kv_cookie (name value default_domain : string) : Cookie :=
  {[ "name" := PyStr name;
     "value" := PyStr value;
     "domain" := PyStr default_domain;
     "path" := PyStr "/";
     "expires" := PyInt (-1);
     "httpOnly" := PyBool false;
     "secure" := PyBool true;
     "sameSite" := PyStr "Lax" ]}.

(** The [for pair in cookie_pairs] loop, lines 58-95.  [name, value = ...]
    raises [ValueError] unless the split gives two pieces.  The records
    written to the logger have no effect on the result and are left out. *)
Fixpoint kv_loop (default_domain : string) (cookie_pairs : list string)
  (playwright_cookies : list Cookie) : Outcome (list Cookie) :=
  match cookie_pairs with
  | [] => Ret playwright_cookies
  | kv_pair :: rest =>
      let kv_pair := strip kv_pair in
      if String.eqb kv_pair "" then kv_loop default_domain rest playwright_cookies
      else if negb (contains "=" kv_pair) then kv_loop default_domain rest playwright_cookies
      else
        match split_first "=" kv_pair with
        | [name; value] =>
            let name := strip name in
            let value := strip value in
            if String.eqb name "" then kv_loop default_domain rest playwright_cookies
            else
              kv_loop default_domain rest
                (playwright_cookies ++ [kv_cookie name value default_domain])
        | _ => Exn ValueError
        end
  end.

(** [default_domain] is passed explicitly; the source defaults it to
    [".google.com"]. *)
Definition convert_kv_to_playwright (kv_string default_domain : string)
  : Outcome (list Cookie) :=
  kv_loop default_domain (split ";" kv_string) [].

End CookieHandler.

(** ** A state-and-exception monad for the effectful sources *)

Module Eff.

Definition M (S A : Type) : Type := S -> Outcome A * S.

Definition ret {S A} (a : A) : M S A := fun w => (Ret a, w).

Definition bind {S A B} (m : M S A) (k : A -> M S B) : M S B :=
  fun w =>
    match m w with
    | (Ret a, w') => k a w'
    | (Exn e, w') => (Exn e, w')
    | (Fuel, w') => (Fuel, w')
    end.

Definition raise {S A} (e : PyExn) : M S A := fun w => (Exn e, w).

Definition out_of_fuel {S A} : M S A := fun w => (Fuel, w).

(** [try: m  except Exception as e: h e] *)
Definition try_except {S A} (m : M S A) (h : PyExn -> M S A) : M S A :=
  fun w =>
    match m w with
    | (Exn e, w') => if is_Exception e then h e w' else (Exn e, w')
    | r => r
    end.

(** [try: m  except: h] (a bare [except] also catches [SystemExit]) *)
Definition try_except_all {S A} (m : M S A) (h : M S A) : M S A :=
  fun w =>
    match m w with
    | (Exn e, w') => h w'
    | r => r
    end.

End Eff.
Export Eff.

Notation "'do' x <-- m ; k" := (bind m (fun x => k))
  (at level 100, x pattern, m at next level, right associativity, only parsing).

(** ** src/browser/ws_helper.py *)

Module WsHelper.

(** The locators the helpers build. *)
Inductive Selector :=
| SelModal                      (* page.locator('div.interaction-modal') *)
| SelIframe                     (* page.locator('iframe[title="Preview"]') *)
| SelStatus                     (* frame.locator('text=/WS:\s*(CONNECTED|IDLE|CONNECTING)/i').first *)
| SelButton (label : string).   (* frame.locator('button:has-text("<label>")') *)

(** [bounding_box()]: floats, modelled as rationals. *)
Record Box := { box_x : Q; box_y : Q; box_width : Q; box_height : Q }.

(** Calls that leave the module: page driver, [random], [time.sleep]. *)
Inductive Call :=
| CFrameLocator
| CCount (sel : Selector)
| CIsVisible (sel : Selector) (timeout : Z)
| CTextContent (sel : Selector)
| CClick (sel : Selector) (timeout : Z)
| CBoundingBox (sel : Selector)
| CMouseMove (x y : Q)
| CMouseClick (x y : Q)
| CRandint (a b : Z)
| CSleep (ms : Z).

Inductive Resp :=
| RDone
| RBool (b : bool)
| RNat (n : nat)
| RText (t : option string)
| RBox (b : option Box)
| RInt (z : Z)
| RRaise.

Inductive Func :=
| FGetPreviewFrame | FGetWsStatus | FClickDisconnect | FClickConnect
| FWaitForWsConnected | FReconnectWs | FDismissInteractionModal | FClickInIframe.

Inductive Level := Debug | Info | Warning.

(** What a run leaves behind: every outgoing call with its answer, every
    entry into one of the module's functions with the value it returned,
    and the log records written. *)
Inductive Event :=
| EPrim (c : Call) (r : Resp)
| ECall (f : Func)
| EReturn (f : Func) (v : PyVal)
| ELog (l : Level) (msg : string).

(** How the world answers one outgoing call: whether the driver raises,
    the value it gives back (each call reads the field of its own type), the
    raw random number, and the time in milliseconds the call takes on top of
    what it asked for. *)
Record Answer := {
  ans_raises : bool;
  ans_bool : bool;
  ans_nat : nat;
  ans_text : option string;
  ans_box : option Box;
  ans_raw : Z;
  ans_ms : nat
}.

(** The clock in milliseconds, the number of outgoing calls made so far and
    the trace. *)
Record World := { now : Z; calls : nat; trace : list Event }.

Section Page.
(** The page, the random generator and the scheduler: the [k]-th outgoing
    call is answered by [env k]. *)
Variable env : nat -> Answer.
(** Whether a logger was passed. *)
Variable logger : bool.

Definition emit (e : Event) : M World unit :=
  fun w => (Ret tt, {| now := now w; calls := calls w; trace := trace w ++ [e] |}).

Definition log (l : Level) (msg : string) : M World unit :=
  if logger then emit (ELog l msg) else ret tt.

Definition answered (w : World) (extra : Z) (c : Call) (r : Resp) : World :=
  {| now := now w + extra + Z.of_nat (ans_ms (env (calls w)));
     calls := S (calls w);
     trace := trace w ++ [EPrim c r] |}.

(** A page-driver call. *)
Definition driver {A} (c : Call) (get : Answer -> A) (show : A -> Resp) : M World A :=
  fun w =>
    let a := env (calls w) in
    if ans_raises a then (Exn DriverError, answered w 0 c RRaise)
    else (Ret (get a), answered w 0 c (show (get a))).

Definition frame_locator : M World unit := driver CFrameLocator (fun _ => tt) (fun _ => RDone).
Definition count (sel : Selector) : M World nat := driver (CCount sel) ans_nat RNat.
Definition is_visible (sel : Selector) (timeout : Z) : M World bool :=
  driver (CIsVisible sel timeout) ans_bool RBool.
Definition text_content (sel : Selector) : M World (option string) :=
  driver (CTextContent sel) ans_text RText.
Definition click (sel : Selector) (timeout : Z) : M World unit :=
  driver (CClick sel timeout) (fun _ => tt) (fun _ => RDone).
Definition bounding_box (sel : Selector) : M World (option Box) :=
  driver (CBoundingBox sel) ans_box RBox.
Definition mouse_move (x y : Q) : M World unit :=
  driver (CMouseMove x y) (fun _ => tt) (fun _ => RDone).
Definition mouse_click (x y : Q) : M World unit :=
  driver (CMouseClick x y) (fun _ => tt) (fun _ => RDone).

(** [time.sleep(ms / 1000)]: at least [ms] milliseconds pass. *)
Definition sleep (ms : Z) : M World unit :=
  fun w => (Ret tt, answered w ms (CSleep ms) RDone).

(** [time.time()], in milliseconds *)
Definition time_time : M World Z := fun w => (Ret (now w), w).

(** [random.randint(a, b)]: [ValueError] on an empty range *)
Definition randint (a b : Z) : M World Z :=
  fun w =>
    if b <? a then (Exn ValueError, answered w 0 (CRandint a b) RRaise)
    else
      let r := a + ans_raw (env (calls w)) mod (b - a + 1) in
      (Ret r, answered w 0 (CRandint a b) (RInt r)).

(** Entry and return of a function of the module are recorded. *)
Definition traced {A} (f : Func) (inj : A -> PyVal) (body : M World A) : M World A :=
  do _ <-- emit (ECall f);
  do r <-- body;
  do _ <-- emit (EReturn f (inj r));
  ret r.

Definition frame_val (f : option unit) : PyVal :=
  match f with Some _ => PyObj "FrameLocator" true None | None => PyNone end.

Definition get_preview_frame : M World (option unit) :=
  traced FGetPreviewFrame frame_val
    (try_except
       (do frame <-- frame_locator;
        ret (Some frame))
       (fun e =>
          do _ <-- log Warning "get Preview iframe failed";
          ret None)).

Definition get_ws_status : M World string :=
  traced FGetWsStatus PyStr
    (try_except
       (do frame <-- get_preview_frame;
        match frame with
        | None => ret "UNKNOWN"
        | Some _ =>
            do visible <-- is_visible SelStatus 3000;
            if (visible : bool) then
              do text <-- text_content SelStatus;
              match text with
              | Some text =>
                  if truthy (PyStr text) then
                    if contains "CONNECTED" (upper text) then ret "CONNECTED"
                    else if contains "IDLE" (upper text) then ret "IDLE"
                    else if contains "CONNECTING" (upper text) then ret "CONNECTING"
                    else ret "UNKNOWN"
                  else ret "UNKNOWN"
              | None => ret "UNKNOWN"
              end
            else ret "UNKNOWN"
        end)
       (fun e =>
          do _ <-- log Warning "get WS status failed";
          ret "UNKNOWN")).

(** [click_disconnect] and [click_connect] differ in the button only. *)
Definition click_button (f : Func) (label : string) : M World bool :=
  traced f PyBool
    (try_except
       (do frame <-- get_preview_frame;
        match frame with
        | None => ret false
        | Some _ =>
            do n <-- count (SelButton label);
            do visible <-- (if (0 <? n)%nat then is_visible (SelButton label) 3000
                         else ret false);
            if (visible : bool) then
              do _ <-- click (SelButton label) 5000;
              do _ <-- log Info "clicked button";
              do _ <-- sleep 1000;
              ret true
            else
              do _ <-- log Warning "no visible button";
              ret false
        end)
       (fun e =>
          do _ <-- log Warning "click button failed";
          ret false)).

Definition click_disconnect : M World bool := click_button FClickDisconnect "Disconnect".
Definition click_connect : M World bool := click_button FClickConnect "Connect".

(** The [while time.time() - start_time < timeout] loop; [timeout] is in
    seconds.  [fuel] bounds the number of iterations the model follows. *)
Fixpoint wait_loop (fuel : nat) (start_time timeout : Z) : M World bool :=
  do t <-- time_time;
  if t - start_time <? timeout * 1000 then
    match fuel with
    | O => out_of_fuel
    | S fuel' =>
        do status <-- get_ws_status;
        if String.eqb status "CONNECTED" then ret true
        else
          do _ <-- sleep 1000;
          wait_loop fuel' start_time timeout
    end
  else ret false.

Definition wait_for_ws_connected (fuel : nat) (timeout : Z) : M World bool :=
  traced FWaitForWsConnected PyBool
    (do start_time <-- time_time;
     wait_loop fuel start_time timeout).

(** [modal.count() == 0 or not modal.first.is_visible(timeout=...)] *)
Definition modal_gone (timeout : Z) : M World bool :=
  do n <-- count SelModal;
  if (n =? 0)%nat then ret true
  else
    do visible <-- is_visible SelModal timeout;
    ret (negb visible).

(** The [for i in range(30)] loop; [Some b] when it returned [b]. *)
Fixpoint dismiss_walk (steps : nat) (iframe_box : Box) (curr_x curr_y : Q)
  : M World (option bool) :=
  match steps with
  | O => ret None
  | S steps' =>
      do delta_x <-- randint (-30) 30;
      do delta_y <-- randint (-20) 20;
      let curr_x :=
        Qmax (box_x iframe_box + 20)
             (Qmin (box_x iframe_box + box_width iframe_box - 20)
                   (curr_x + inject_Z delta_x)) in
      let curr_y :=
        Qmax (box_y iframe_box + 20)
             (Qmin (box_y iframe_box + box_height iframe_box - 20)
                   (curr_y + inject_Z delta_y)) in
      do _ <-- mouse_move curr_x curr_y;
      do _ <-- sleep 50;
      do gone <-- modal_gone 100;
      if (gone : bool) then
        do _ <-- log Info "interaction-modal closed";
        ret (Some true)
      else dismiss_walk steps' iframe_box curr_x curr_y
  end.

Definition dismiss_interaction_modal : M World bool :=
  traced FDismissInteractionModal PyBool
    (try_except
       (do gone <-- modal_gone 500;
        if (gone : bool) then ret false
        else
          do _ <-- log Info "interaction-modal detected";
          do n <-- count SelIframe;
          if (0 <? n)%nat then
            do iframe_box <-- bounding_box SelIframe;
            match iframe_box with
            | Some iframe_box =>
                do rx <-- randint 50 (trunc (box_width iframe_box) - 50);
                let curr_x := (box_x iframe_box + inject_Z rx)%Q in
                do ry <-- randint 50 (trunc (box_height iframe_box) - 50);
                let curr_y := (box_y iframe_box + inject_Z ry)%Q in
                do r <-- dismiss_walk 30 iframe_box curr_x curr_y;
                match r with
                | Some b => ret b
                | None => ret false
                end
            | None => ret false
            end
          else ret false)
       (fun e =>
          do _ <-- log Debug "closing interaction-modal failed";
          ret false)).

Definition reconnect_ws (fuel : nat) : M World string :=
  traced FReconnectWs PyStr
    (do _ <-- log Info "start WS reconnect: Disconnect -> Connect";
     do _ <-- dismiss_interaction_modal;
     do _ <-- click_disconnect;
     do _ <-- sleep 2000;
     do status <-- get_ws_status;
     do _ <-- log Info "WS status after disconnect";
     do _ <-- click_connect;
     do _ <-- sleep 2000;
     do connected <-- wait_for_ws_connected fuel 15;
     if (connected : bool) then
       do status <-- get_ws_status;
       do _ <-- log Info "WS status after reconnect";
       ret status
     else
       do status <-- get_ws_status;
       do _ <-- log Warning "WS reconnect timed out";
       ret status).

(** The [for _ in range(random.randint(3, 6))] loop *)
Fixpoint click_walk (steps : nat) (safe_left safe_right safe_top safe_bottom : Q)
  (curr_x curr_y : Z) : M World (Z * Z) :=
  match steps with
  | O => ret (curr_x, curr_y)
  | S steps' =>
      do delta_x <-- randint (-30) 30;
      do delta_y <-- randint (-20) 20;
      let curr_x := Z.max (trunc safe_left) (Z.min (trunc safe_right) (curr_x + delta_x)) in
      let curr_y := Z.max (trunc safe_top) (Z.min (trunc safe_bottom) (curr_y + delta_y)) in
      do _ <-- mouse_move (inject_Z curr_x) (inject_Z curr_y);
      do _ <-- sleep 50;
      click_walk steps' safe_left safe_right safe_top safe_bottom curr_x curr_y
  end.

Definition safe_left (b : Box) : Q := box_x b + 50.
Definition safe_right (b : Box) : Q := box_x b + box_width b - 200.
Definition safe_top (b : Box) : Q := box_y b + 80.
Definition safe_bottom (b : Box) : Q := box_y b + box_height b - 50.

Definition click_in_iframe : M World bool :=
  traced FClickInIframe PyBool
    (try_except
       (do n <-- count SelIframe;
        if (n =? 0)%nat then ret false
        else
          do iframe_box <-- bounding_box SelIframe;
          match iframe_box with
          | None => ret false
          | Some b =>
              if Qle_bool (safe_right b) (safe_left b)
                 || Qle_bool (safe_bottom b) (safe_top b)
              then ret false
              else
                do curr_x <-- randint (trunc (safe_left b)) (trunc (safe_right b));
                do curr_y <-- randint (trunc (safe_top b)) (trunc (safe_bottom b));
                do steps <-- randint 3 6;
                do (curr_x, curr_y) <--
                  click_walk (Z.to_nat steps) (safe_left b) (safe_right b)
                             (safe_top b) (safe_bottom b) curr_x curr_y;
                do _ <-- mouse_click (inject_Z curr_x) (inject_Z curr_y);
                ret true
          end)
       (fun e =>
          do _ <-- log Debug "click in iframe failed";
          ret false)).

End Page.

End WsHelper.

(** ** src/utils/common.py *)

Module Common.

(** [os.getenv] gives [None] for an unset variable. *)
Definition clean_env_value (value : option string) : option string :=
  match value with
  | None => None
  | Some value =>
      let stripped := strip value in
      if String.eqb stripped "" then None else Some stripped
  end.

(** The result is [True], [False] or the string ['virtual']. *)
Definition parse_headless_mode (headless_setting : PyVal) : PyVal :=
  if String.eqb (lower (py_str headless_setting)) "true" then PyBool true
  else if String.eqb (lower (py_str headless_setting)) "false" then PyBool false
  else PyStr "virtual".

End Common.

(** ** src/main.py *)

Module Main.
Import Common.

(** Modelled from the spec: the [CookieSource] objects of
    [utils.cookie_manager], a module that is not among the sources.  The
    fields are the attributes [main.py] reads: the kind of credential source,
    its identifier and its display name. *)
Record CookieSource := {
  src_type : string;
  src_identifier : string;
  src_display_name : string
}.

(** Values stored in a configuration [dict]. *)
Inductive CfgVal :=
| CNone
| CStr (s : string)
| CInt (z : Z)
| CSource (src : CookieSource).

Definition cfg_truthy (v : CfgVal) : bool :=
  match v with
  | CNone => false
  | CStr s => negb (String.eqb s "")
  | CInt z => negb (Z.eqb z 0)
  | CSource _ => true
  end.

Abbreviation Config := (gmap string CfgVal).

(** A [multiprocessing.Process] object, identified by its creation rank. *)
Definition Pid := nat.

Inductive Level := Info | Warning | Error.

Inductive Event :=
| ELog (l : Level) (msg : string)
| EStart (p : Pid) (config : Config)          (* process.start() *)
| ESleep (seconds : Z)                        (* time.sleep(seconds) *)
| EJoin (p : Pid) (timeout : Z)               (* process.join(timeout=...) *)
| ETerminate (p : Pid)
| EKill (p : Pid).

(** What lies outside the orchestrator.  Worker processes end and stop
    requests arrive while the orchestrator is blocked in [time.sleep] or
    [join]: [exits k p] says that process [p] ends during the [k]-th blocking
    call, [stop k] that [app_running] is cleared during it, [join_raises k]
    that the call, being a [join], raises. *)
Record Env := {
  getenv : string -> option string;
  detect_all_sources : list CookieSource;     (* CookieManager(logger).detect_all_sources() *)
  int_of_str : string -> option Z;            (* int() on a str *)
  exits : nat -> Pid -> bool;
  stop : nat -> bool;
  join_raises : nat -> bool
}.

(** The module globals [browser_processes] and [app_running], the live
    processes of the operating system, how many [Process] objects were
    created, how many blocking calls were made, and the trace. *)
Record State := {
  browser_processes : list Pid;
  app_running : bool;
  alive : gset Pid;
  created : nat;
  blocked : nat;
  trace : list Event
}.

(** The globals at import time (lines 15-16), nothing running. *)
Definition initial : State :=
  {| browser_processes := []; app_running := false; alive := ∅;
     created := 0; blocked := 0; trace := [] |}.

Section Orchestrator.
Variable env : Env.

Definition emit (e : Event) : M State unit :=
  fun s => (Ret tt,
            {| browser_processes := browser_processes s; app_running := app_running s;
               alive := alive s; created := created s; blocked := blocked s;
               trace := trace s ++ [e] |}).

Definition log (l : Level) (msg : string) : M State unit := emit (ELog l msg).

Definition get_app_running : M State bool := fun s => (Ret (app_running s), s).
Definition get_browser_processes : M State (list Pid) :=
  fun s => (Ret (browser_processes s), s).

Definition set_app_running (b : bool) : M State unit :=
  fun s => (Ret tt,
            {| browser_processes := browser_processes s; app_running := b;
               alive := alive s; created := created s; blocked := blocked s;
               trace := trace s |}).

Definition set_browser_processes (l : list Pid) : M State unit :=
  fun s => (Ret tt,
            {| browser_processes := l; app_running := app_running s;
               alive := alive s; created := created s; blocked := blocked s;
               trace := trace s |}).

(** The orchestrator is blocked for a while: processes may end and a stop
    request may clear the flag. *)
Definition block : M State unit :=
  fun s =>
    let k := blocked s in
    (Ret tt,
     {| browser_processes := browser_processes s;
        app_running := app_running s && negb (stop env k);
        alive := filter (fun p => exits env k p = false) (alive s);
        created := created s; blocked := S k; trace := trace s |}).

Definition sleep (seconds : Z) : M State unit :=
  do _ <-- emit (ESleep seconds);
  block.

(** [multiprocessing.Process(target=run_browser_instance, args=(config,))] *)
Definition new_process (config : Config) : M State Pid :=
  fun s => (Ret (created s),
            {| browser_processes := browser_processes s; app_running := app_running s;
               alive := alive s; created := S (created s); blocked := blocked s;
               trace := trace s |}).

Definition start (p : Pid) (config : Config) : M State unit :=
  fun s => (Ret tt,
            {| browser_processes := browser_processes s; app_running := app_running s;
               alive := {[ p ]} ∪ alive s; created := created s; blocked := blocked s;
               trace := trace s ++ [EStart p config] |}).

Definition is_alive (p : Pid) : M State bool :=
  fun s => (Ret (bool_decide (p ∈ alive s)), s).

Definition join (p : Pid) (timeout : Z) : M State unit :=
  do _ <-- emit (EJoin p timeout);
  fun s => if join_raises env (blocked s) then (Exn RuntimeError, snd (block s))
           else block s.

Definition terminate (p : Pid) : M State unit := emit (ETerminate p).
Definition kill (p : Pid) : M State unit := emit (EKill p).

(** lines 51-64: one instance per source of a known type *)
Fixpoint instances_of (sources : list CookieSource) (instances : list Config)
  : Outcome (list Config) :=
  match sources with
  | [] => Ret instances
  | source :: rest =>
      if String.eqb (src_type source) "file" then
        instances_of rest
          (instances ++ [ {[ "cookie_file" := CStr (src_identifier source);
                             "cookie_source" := CSource source ]} ])
      else if String.eqb (src_type source) "env_var" then
        let env_index := last_field "_" (src_identifier source) in
        match int_of_str env env_index with
        | Some n =>
            instances_of rest
              (instances ++ [ {[ "cookie_file" := CNone;
                                 "env_cookie_index" := CInt n;
                                 "cookie_source" := CSource source ]} ])
        | None => Exn ValueError
        end
      else instances_of rest instances
  end.

Definition load_instance_configurations
  : M State (option Config * option (list Config)) :=
  let shared_url := clean_env_value (getenv env "CAMOUFOX_INSTANCE_URL") in
  match shared_url with
  | None =>
      do _ <-- log Error "missing environment variable CAMOUFOX_INSTANCE_URL";
      ret (None, None)
  | Some shared_url =>
      let global_settings : Config :=
        {[ "headless" :=
             CStr (default "virtual" (clean_env_value (getenv env "CAMOUFOX_HEADLESS")));
           "url" := CStr shared_url ]} in
      let proxy_value := clean_env_value (getenv env "CAMOUFOX_PROXY") in
      let global_settings :=
        match proxy_value with
        | Some proxy_value => <["proxy" := CStr proxy_value]> global_settings
        | None => global_settings
        end in
      let sources := detect_all_sources env in
      match sources with
      | [] =>
          do _ <-- log Error "no cookie source found";
          ret (None, None)
      | _ =>
          match instances_of sources [] with
          | Ret instances =>
              do _ <-- log Info "number of browser instances to start";
              ret (Some global_settings, Some instances)
          | Exn e => raise e
          | Fuel => out_of_fuel
          end
      end
  end.

(** lines 83-116, the launch loop; [i] is the rank given by
    [enumerate(instance_profiles, 1)] and [total] is
    [len(instance_profiles)]. *)
Fixpoint launch_loop (global_settings : Config) (total i : nat) (profiles : list Config)
  : M State unit :=
  match profiles with
  | [] => ret tt
  | profile :: rest =>
      do running <-- get_app_running;
      if negb running then ret tt
      else
        let final_config : Config := profile ∪ global_settings in
        match final_config !! "url" with
        | None =>
            do _ <-- log Warning "skipping a configuration without url";
            launch_loop global_settings total (S i) rest
        | Some _ =>
            let cookie_source := default CNone (final_config !! "cookie_source") in
            if cfg_truthy cookie_source then
              match cookie_source with
              | CSource cookie_source =>
                  do _ <-- (if String.eqb (src_type cookie_source) "file" then
                              log Info "starting browser instance (file)"
                            else if String.eqb (src_type cookie_source) "env_var" then
                              log Info "starting browser instance (env)"
                            else ret tt);
                  do process <-- new_process final_config;
                  do procs <-- get_browser_processes;
                  do _ <-- set_browser_processes (procs ++ [process]);
                  do _ <-- start process final_config;
                  do _ <-- (if (i <? total)%nat then
                              do _ <-- log Info "waiting 30 seconds before the next instance";
                              sleep 30
                            else ret tt);
                  launch_loop global_settings total (S i) rest
              | _ => raise AttributeError
              end
            else
              do _ <-- log Error "configuration without cookie_source";
              launch_loop global_settings total (S i) rest
        end
  end.

(** [browser_processes.remove(process)] *)
Fixpoint remove_first (p : Pid) (l : list Pid) : option (list Pid) :=
  match l with
  | [] => None
  | q :: l' =>
      if Nat.eqb q p then Some l'
      else match remove_first p l' with
           | Some r => Some (q :: r)
           | None => None
           end
  end.

(** lines 121-125, over the copy [browser_processes[:]] *)
Fixpoint sweep (copy : list Pid) : M State unit :=
  match copy with
  | [] => ret tt
  | process :: rest =>
      do live <-- is_alive process;
      do _ <-- (if negb live then
                  do procs <-- get_browser_processes;
                  match remove_first process procs with
                  | Some procs' => set_browser_processes procs'
                  | None => raise ValueError
                  end
                else join process 1);
      sweep rest
  end.

(** lines 120-126, the supervision loop.  [KeyboardInterrupt] cannot reach
    it: [main] installs [signal_handler] for SIGINT. *)
Fixpoint supervise (fuel : nat) : M State unit :=
  do running <-- get_app_running;
  do procs <-- get_browser_processes;
  if running && negb (bool_decide (procs = [])) then
    match fuel with
    | O => out_of_fuel
    | S fuel' =>
        do _ <-- sweep procs;
        do _ <-- sleep 1;
        supervise fuel'
    end
  else ret tt.

Definition start_browser_instances (fuel : nat) : M State unit :=
  do _ <-- log Info "instance manager starting";
  do (global_settings, instance_profiles) <-- load_instance_configurations;
  match instance_profiles with
  | None | Some [] =>
      do _ <-- log Error "no instance configuration found";
      ret tt
  | Some instance_profiles =>
      match global_settings with
      | Some global_settings =>
          do _ <-- launch_loop global_settings (length instance_profiles) 1 instance_profiles;
          supervise fuel
      | None => raise AttributeError
      end
  end.

Definition run_standalone_mode (fuel : nat) : M State unit :=
  do _ <-- set_app_running true;
  start_browser_instances fuel.

(** lines 155-159: the flag is set and [start_browser_instances] runs in a
    thread of its own; the routes below answer while it runs and after it
    has returned.  Flask is taken to be installed. *)
Definition run_server_mode (fuel : nat) : M State unit :=
  do _ <-- set_app_running true;
  start_browser_instances fuel.

(** The body of the [/health] route: the [jsonify] payload. *)
Record Health := {
  status : string;
  browser_instances : nat;
  running_instances : nat
}.

Fixpoint count_alive (procs : list Pid) : M State nat :=
  match procs with
  | [] => ret 0%nat
  | p :: rest =>
      do live <-- is_alive p;
      do n <-- count_alive rest;
      ret (if (live : bool) then S n else n)
  end.

Definition health_check : M State Health :=
  do procs <-- get_browser_processes;
  do running_count <-- count_alive procs;
  ret {| status := "healthy";
         browser_instances := length procs;
         running_instances := running_count |}.

(** The body of the [/] route, lines 176-183: the same two counts. *)
Record Home := {
  home_status : string;
  home_browser_instances : nat;
  home_running_instances : nat;
  run_mode : string
}.

Definition index : M State Home :=
  do procs <-- get_browser_processes;
  do running_count <-- count_alive procs;
  ret {| home_status := "running";
         home_browser_instances := length procs;
         home_running_instances := running_count;
         run_mode := "server" |}.

(** lines 204-210 *)
Fixpoint terminate_all (procs : list Pid) : M State unit :=
  match procs with
  | [] => ret tt
  | process :: rest =>
      do live <-- is_alive process;
      do _ <-- (if (live : bool) then
                  do _ <-- terminate process;
                  try_except_all (join process 5) (kill process)
                else ret tt);
      terminate_all rest
  end.

Definition signal_handler (signum : Z) : M State unit :=
  do _ <-- log Info "signal received, shutting down";
  do _ <-- set_app_running false;
  do procs <-- get_browser_processes;
  do _ <-- terminate_all procs;
  do _ <-- log Info "all processes closed";
  raise (SystemExit 0).

End Orchestrator.

End Main.

(** * Vocabulary of the properties *)

(** ** Cookie conversion *)

Section CookieVocabulary.
Import CookieHandler.
Variable int_of_str : string -> option Z.

(** The cookie has [name], [value], [domain] and [path]. *)
Definition has_required (cookie : gmap string PyVal) : bool :=
  forallb (fun key => bool_decide (is_Some (cookie !! key))) required_keys.

(** [cookie.get('session', False)] is truthy. *)
Definition marked_session (cookie : gmap string PyVal) : bool :=
  truthy (default (PyBool false) (cookie !! "session")).

(** [sameSite] is left out or is one of the three Playwright values. *)
Definition same_site_ok (pw : gmap string PyVal) : Prop :=
  pw !! "sameSite" = None
  \/ pw !! "sameSite" = Some (PyStr "None")
  \/ pw !! "sameSite" = Some (PyStr "Lax")
  \/ pw !! "sameSite" = Some (PyStr "Strict").

(** The output cookie that belongs to an input cookie. *)
Definition converts (cookie pw : gmap string PyVal) : Prop :=
  build int_of_str cookie = Ret pw
  /\ (marked_session cookie = true -> pw !! "expires" = Some (PyInt (-1))).

End CookieVocabulary.

(** An export of two cookies, the second one incomplete, and what the
    conversion makes of it. *)
Definition editor_sample : list (gmap string PyVal) :=
  [ {[ "name" := PyStr "SID"; "value" := PyStr "abc"; "domain" := PyStr ".google.com";
       "path" := PyStr "/"; "session" := PyBool true; "hostOnly" := PyBool false;
       "sameSite" := PyStr "no_restriction" ]};
    {[ "name" := PyStr "partial"; "value" := PyStr "x" ]} ].

Definition playwright_sample : list (gmap string PyVal) :=
  [ {[ "name" := PyStr "SID"; "value" := PyStr "abc"; "domain" := PyStr ".google.com";
       "path" := PyStr "/"; "expires" := PyInt (-1); "sameSite" := PyStr "None" ]} ].

(** ** Vocabulary for the traces of the WS helpers *)

Section WsVocabulary.
Import WsHelper.

(** [w'] is reached from [w] by appending [t]; the clock and the call
    counter do not go back. *)
Definition Ext (w : World) (t : list Event) (w' : World) : Prop :=
  trace w' = trace w ++ t /\ now w <= now w' /\ (calls w <= calls w')%nat.

(** Running [m] from [w] ends in an outcome, a trace increment and a world
    that satisfy [Q]. *)
Definition Exec {A} (m : M World A) (w : World)
  (Q : Outcome A -> list Event -> World -> Prop) : Prop :=
  exists t, Ext w t (snd (m w)) /\ Q (fst (m w)) t (snd (m w)).

Definition push (e : Event) (w : World) : World :=
  {| now := now w; calls := calls w; trace := trace w ++ [e] |}.

(** The four status words. *)
Definition statuses : list string := ["CONNECTED"; "IDLE"; "CONNECTING"; "UNKNOWN"].

(** A text in which none of the three tokens occurs. *)
Definition no_token (text : string) : Prop :=
  contains "CONNECTED" (upper text) = false
  /\ contains "IDLE" (upper text) = false
  /\ contains "CONNECTING" (upper text) = false.

(** The status word a text stands for. *)
Definition status_of_text (text : string) : string :=
  if contains "CONNECTED" (upper text) then "CONNECTED"
  else if contains "IDLE" (upper text) then "IDLE"
  else if contains "CONNECTING" (upper text) then "CONNECTING"
  else "UNKNOWN".

(** The status read off three answers of the page: [located] to the
    lookup of the nested document, [shown] to the visibility wait on the
    indicator, [content] to the reading of its text. *)
Definition observed_status (located shown content : Answer) : string :=
  if ans_raises located then "UNKNOWN"
  else if ans_raises shown then "UNKNOWN"
  else if negb (ans_bool shown) then "UNKNOWN"
  else if ans_raises content then "UNKNOWN"
  else match ans_text content with
       | Some text => if String.eqb text "" then "UNKNOWN" else status_of_text text
       | None => "UNKNOWN"
       end.

(** Events that are neither an entry into nor a return from a function. *)
Definition plain (e : Event) : Prop :=
  match e with EPrim _ _ | ELog _ _ => True | _ => False end.

(** Milliseconds asked of [time.sleep]. *)
Fixpoint slept (t : list Event) : Z :=
  match t with
  | [] => 0
  | EPrim (CSleep ms) _ :: t' => ms + slept t'
  | _ :: t' => slept t'
  end.

(** Number of calls of [get_ws_status]. *)
Fixpoint samples (t : list Event) : nat :=
  match t with
  | [] => 0
  | ECall FGetWsStatus :: t' => S (samples t')
  | _ :: t' => samples t'
  end.

(** The value returned by the last call of [get_ws_status]. *)
Fixpoint last_status (t : list Event) : option PyVal :=
  match t with
  | [] => None
  | EReturn FGetWsStatus v :: t' =>
      match last_status t' with Some v' => Some v' | None => Some v end
  | _ :: t' => last_status t'
  end.

(** Number of pointer moves. *)
Fixpoint moves (t : list Event) : nat :=
  match t with
  | [] => 0
  | EPrim (CMouseMove _ _) _ :: t' => S (moves t')
  | _ :: t' => moves t'
  end.

(** The overlay was looked for and found absent or not visible. *)
Definition is_gone (e : Event) : bool :=
  match e with
  | EPrim (CCount SelModal) (RNat O) => true
  | EPrim (CIsVisible SelModal _) (RBool false) => true
  | _ => false
  end.

Definition is_move (e : Event) : bool :=
  match e with EPrim (CMouseMove _ _) _ => true | _ => false end.

(** The number of pointer moves made when the overlay is first found gone
    after a move; [k] is the number of moves made before [t]. *)
Fixpoint first_gone (k : nat) (t : list Event) : option nat :=
  match t with
  | [] => None
  | e :: t' =>
      if (0 <? k)%nat && is_gone e then Some k
      else first_gone (if is_move e then S k else k) t'
  end.

(** The region of the nested document could not be measured. *)
Definition unmeasured (e : Event) : bool :=
  match e with
  | EPrim (CCount SelIframe) (RNat O) => true
  | EPrim (CCount SelIframe) RRaise => true
  | EPrim (CBoundingBox SelIframe) (RBox None) => true
  | EPrim (CBoundingBox SelIframe) RRaise => true
  | _ => false
  end.

(** Where the pointer was sent: the coordinates of the moves and clicks. *)
Definition pointer_at (e : Event) : option (Q * Q) :=
  match e with
  | EPrim (CMouseMove x y) _ | EPrim (CMouseClick x y) _ => Some (x, y)
  | _ => None
  end.

Definition pointers (t : list Event) : list (Q * Q) := omap pointer_at t.

(** The safe region of [click_in_iframe], lines 213-216. *)
Definition in_safe_region (b : Box) (p : Q * Q) : Prop :=
  (safe_left b <= fst p <= safe_right b)%Q
  /\ (safe_top b <= snd p <= safe_bottom b)%Q.

(** The safe region with each bound cut to an integer by [int()]. *)
Definition in_cut_region (b : Box) (p : Q * Q) : Prop :=
  (inject_Z (trunc (safe_left b)) <= fst p <= inject_Z (trunc (safe_right b)))%Q
  /\ (inject_Z (trunc (safe_top b)) <= snd p <= inject_Z (trunc (safe_bottom b)))%Q.

(** [safe_right <= safe_left or safe_bottom <= safe_top], line 219 *)
Definition degenerate (b : Box) : Prop :=
  (safe_right b <= safe_left b)%Q \/ (safe_bottom b <= safe_top b)%Q.

(** What a function does itself: the events of [t] that are not inside a
    call it makes, each such call reduced to its entry and its return.
    [depth] counts the calls entered and not yet returned from. *)
Fixpoint shallow (depth : nat) (t : list Event) : list Event :=
  match t with
  | [] => []
  | ECall f :: t' =>
      match depth with
      | O => ECall f :: shallow 1 t'
      | S _ => shallow (S depth) t'
      end
  | EReturn f v :: t' =>
      match depth with
      | O => EReturn f v :: shallow 0 t'
      | 1%nat => EReturn f v :: shallow 0 t'
      | S d => shallow d t'
      end
  | e :: t' =>
      match depth with
      | O => e :: shallow 0 t'
      | S _ => shallow depth t'
      end
  end.

Definition is_log (e : Event) : bool :=
  match e with ELog _ _ => true | _ => false end.

(** The steps of a function: what it does itself, log records left out. *)
Definition own_steps (t : list Event) : list Event :=
  List.filter (fun e => negb (is_log e)) (shallow 0 t).

(** A trace in which every call returns. *)
Definition closed (t : list Event) : Prop :=
  forall d rest, shallow (S d) (t ++ rest) = shallow (S d) rest.

(** Plain events and complete calls of [get_preview_frame]. *)
Inductive tidy : list Event -> Prop :=
| tidy_nil : tidy []
| tidy_plain e t : plain e -> tidy t -> tidy (e :: t)
| tidy_frame inner v t :
    Forall plain inner -> tidy t ->
    tidy (ECall FGetPreviewFrame :: inner ++ EReturn FGetPreviewFrame v :: t).

(** The trace of a call of [f] that returned [v]. *)
Definition framed (f : Func) (v : PyVal) (inner t : list Event) : Prop :=
  t = ECall f :: inner ++ [EReturn f v].

(** The exceptions a [try ... except Exception] catches. *)
Definition caught {A} (o : Outcome A) : Prop :=
  exists e, o = Exn e /\ is_Exception e = true.

(** The integer cell the walk is clamped to. *)
Definition in_cut (b : Box) (x y : Z) : Prop :=
  trunc (safe_left b) <= x <= trunc (safe_right b)
  /\ trunc (safe_top b) <= y <= trunc (safe_bottom b).

End WsVocabulary.

Section WsLoopVocabulary.
Import WsHelper.
Variable env : nat -> Answer.
Variable logger : bool.

(** The page shows CONNECTED whenever it is asked. *)
Definition always_connected : Prop :=
  forall w, fst (get_ws_status env logger w) = Ret "CONNECTED".

(** What the polling loop leaves: every call returned, at most [n] samples
    when at most [n] seconds remain, one second of sleep after every sample
    that was not CONNECTED. *)
Definition polled (n : nat) (pending : bool) (ok : bool) (t : list Event) : Prop :=
  closed t
  /\ (samples t <= n)%nat
  /\ slept t = 1000 * (Z.of_nat (samples t) - (if ok then 1 else 0))
  /\ (pending = true -> (1 <= samples t)%nat)
  /\ (always_connected -> pending = true -> ok = true /\ samples t = 1%nat).

(** What a call of [reconnect_ws] that returned [s] did. *)
Definition reconnected (s : string) (inner : list Event) : Prop :=
  exists (b1 b2 b3 ok : bool) (s0 : string) (before polling after : list Event),
    own_steps inner =
      [ ECall FDismissInteractionModal; EReturn FDismissInteractionModal (PyBool b1);
        ECall FClickDisconnect; EReturn FClickDisconnect (PyBool b2);
        EPrim (CSleep 2000) RDone;
        ECall FGetWsStatus; EReturn FGetWsStatus (PyStr s0);
        ECall FClickConnect; EReturn FClickConnect (PyBool b3);
        EPrim (CSleep 2000) RDone;
        ECall FWaitForWsConnected; EReturn FWaitForWsConnected (PyBool ok);
        ECall FGetWsStatus; EReturn FGetWsStatus (PyStr s) ]
    /\ inner = before ++ ECall FWaitForWsConnected :: polling
                 ++ EReturn FWaitForWsConnected (PyBool ok) :: after
    /\ polled 15 true ok polling
    /\ samples before = 1%nat /\ samples after = 1%nat
    /\ 0 <= slept inner <= 22500
    /\ last_status inner = Some (PyStr s)
    /\ (exists w, fst (get_ws_status env logger w) = Ret s).

End WsLoopVocabulary.

(** A page that answers nothing: no element is found, nothing is visible. *)
Definition quiet_page : nat -> WsHelper.Answer :=
  fun _ => {| WsHelper.ans_raises := false; WsHelper.ans_bool := false;
              WsHelper.ans_nat := 0; WsHelper.ans_text := None;
              WsHelper.ans_box := None; WsHelper.ans_raw := 0;
              WsHelper.ans_ms := 0 |}.

(** A page on which the indicator always reads CONNECTED. *)
Definition connected_page : nat -> WsHelper.Answer :=
  fun _ => {| WsHelper.ans_raises := false; WsHelper.ans_bool := true;
              WsHelper.ans_nat := 1; WsHelper.ans_text := Some "WS: CONNECTED";
              WsHelper.ans_box := None; WsHelper.ans_raw := 0;
              WsHelper.ans_ms := 0 |}.

Definition start_world : WsHelper.World :=
  {| WsHelper.now := 0; WsHelper.calls := 0; WsHelper.trace := [] |}.

(** A nested document whose top edge lies half a pixel below the origin. *)
Definition half_pixel_box : WsHelper.Box :=
  {| WsHelper.box_x := 0; WsHelper.box_y := 1 # 2;
     WsHelper.box_width := 1000; WsHelper.box_height := 1000 |}.

(** A page with that document, and a random generator that always draws the
    least value. *)
Definition half_pixel_page : nat -> WsHelper.Answer :=
  fun _ => {| WsHelper.ans_raises := false; WsHelper.ans_bool := true;
              WsHelper.ans_nat := 1; WsHelper.ans_text := None;
              WsHelper.ans_box := Some half_pixel_box; WsHelper.ans_raw := 0;
              WsHelper.ans_ms := 0 |}.

(** ** Vocabulary for the orchestrator *)

Section MainVocabulary.
Import Main.

(** The processes started, in order. *)
Fixpoint launched (t : list Event) : list Pid :=
  match t with
  | [] => []
  | EStart p _ :: t' => p :: launched t'
  | _ :: t' => launched t'
  end.

(** Launches and sleeps, in order. *)
Inductive Tick := Launch (p : Pid) | Wait (seconds : Z).

Fixpoint schedule (t : list Event) : list Tick :=
  match t with
  | [] => []
  | EStart p _ :: t' => Launch p :: schedule t'
  | ESleep seconds :: t' => Wait seconds :: schedule t'
  | _ :: t' => schedule t'
  end.

(** [n] launches, 30 seconds between one and the next. *)
Fixpoint staggered (first : Pid) (n : nat) : list Tick :=
  match n with
  | O => []
  | S n' =>
      Launch first ::
        match n' with
        | O => []
        | S _ => Wait 30 :: staggered (S first) n'
        end
  end.

(** A configuration as [load_instance_configurations] makes them: merged
    with the global settings it has a [url] and a cookie source object. *)
Definition resolved (global_settings profile : gmap string CfgVal) : Prop :=
  is_Some ((profile ∪ global_settings) !! "url")
  /\ exists source, (profile ∪ global_settings) !! "cookie_source" = Some (CSource source).

(** Every [terminate] is followed at once by a [join] of 5 seconds on the
    same process; [pending] is the process just terminated, if any. *)
Fixpoint bounded_from (pending : option Pid) (t : list Event) : bool :=
  match t with
  | [] => match pending with None => true | Some _ => false end
  | e :: t' =>
      match pending with
      | Some p =>
          match e with
          | EJoin q timeout => Nat.eqb p q && Z.eqb timeout 5 && bounded_from None t'
          | _ => false
          end
      | None =>
          match e with
          | ETerminate p => bounded_from (Some p) t'
          | _ => bounded_from None t'
          end
      end
  end.

Definition bounded_waits (t : list Event) : bool := bounded_from None t.

Fixpoint terminated (t : list Event) : list Pid :=
  match t with
  | [] => []
  | ETerminate p :: t' => p :: terminated t'
  | _ :: t' => terminated t'
  end.

Definition sourced (profile : gmap string CfgVal) : Prop :=
  profile !! "url" = None
  /\ exists source, profile !! "cookie_source" = Some (CSource source).

End MainVocabulary.

Definition file_source : Main.CookieSource :=
  {| Main.src_type := "file"; Main.src_identifier := "account.json";
     Main.src_display_name := "account.json" |}.

(** An environment with a shared URL and the cookie sources [sources];
    [dying] says whether the workers end as soon as the orchestrator blocks. *)
Definition deployment (sources : list Main.CookieSource) (dying : bool) : Main.Env :=
  {| Main.getenv := fun name =>
       if String.eqb name "CAMOUFOX_INSTANCE_URL" then Some "https://example.test/app"
       else None;
     Main.detect_all_sources := sources;
     Main.int_of_str := fun _ => None;
     Main.exits := fun _ _ => dying;
     Main.stop := fun _ => false;
     Main.join_raises := fun _ => false |}.

(** An environment with nothing set. *)
Definition bare_env : Main.Env :=
  {| Main.getenv := fun _ => None;
     Main.detect_all_sources := [];
     Main.int_of_str := fun _ => None;
     Main.exits := fun _ _ => false;
     Main.stop := fun _ => false;
     Main.join_raises := fun _ => false |}.

Definition sample_settings : gmap string Main.CfgVal :=
  {[ "headless" := Main.CStr "virtual"; "url" := Main.CStr "https://example.test/app" ]}.

Definition sample_profile : gmap string Main.CfgVal :=
  {[ "cookie_file" := Main.CStr "account.json"; "cookie_source" := Main.CSource file_source ]}.

(** The initial state with the running flag set, as the two run modes do
    before they launch. *)
Definition ready : Main.State :=
  {| Main.browser_processes := []; Main.app_running := true; Main.alive := ∅;
     Main.created := 0; Main.blocked := 0; Main.trace := [] |}.

(** The state after one worker was launched. *)
Definition one_worker : Main.State :=
  snd (Main.launch_loop (deployment [file_source] false) sample_settings 1 1
         [sample_profile] ready).

(** ** Key-value cookie strings *)

(** [s.rstrip()], by recursion on the text. *)
Fixpoint rstrip (s : string) : string :=
  match s with
  | EmptyString => EmptyString
  | String c s' =>
      match rstrip s' with
      | EmptyString => if is_space c then EmptyString else String c EmptyString
      | r => String c r
      end
  end.

(** The character [c] occurs in [s]: [c in s]. *)
Definition occurs (c : ascii) (s : string) : bool := contains (String c EmptyString) s.

(** A cookie name as it comes out of the conversion: not empty, no white
    space around it, no [;] and no [=] inside. *)
Definition cookie_name (name : string) : Prop :=
  name <> "" /\ strip name = name /\ occurs ";" name = false /\ occurs "=" name = false.

(** A cookie value: no white space around it, no [;] inside. *)
Definition cookie_value (value : string) : Prop :=
  strip value = value /\ occurs ";" value = false.

(** [name=value] *)
Definition pair_text (p : string * string) : string := fst p +:+ "=" +:+ snd p.

(** The text of a [Cookie] request header: [name1=value1; name2=value2; ...] *)
Definition header_text (pairs : list (string * string)) : string :=
  String.concat "; " (map pair_text pairs).

(** [int()] accepts the [expirationDate] of the cookie, or the entry is not
    read at all: the cookie is marked as a session cookie, has no such entry,
    or the entry is [None]. *)
Definition expiry_readable (int_of_str : string -> option Z)
  (cookie : gmap string PyVal) : Prop :=
  marked_session cookie = true
  \/ match cookie !! "expirationDate" with
     | None | Some PyNone => True
     | Some v => exists z, py_int int_of_str v = Ret z
     end.

(** ** What the helpers do to the page *)

Section WsActions.
Import WsHelper.

(** Calls that act on the page or wait: clicks on an element, pointer
    moves, pointer clicks and sleeps.  The other calls only look at the page
    or draw a number. *)
Definition is_action (e : Event) : bool :=
  match e with
  | EPrim (CClick _ _) _ | EPrim (CMouseMove _ _) _
  | EPrim (CMouseClick _ _) _ | EPrim (CSleep _) _ => true
  | _ => false
  end.

Definition actions (t : list Event) : list Event := List.filter is_action t.

(** What a call of [click_disconnect] or [click_connect] that returned [b]
    did to the page: one click on its button that went through and a sleep
    of one second when [b] is [True]; nothing, or one click that raised,
    when it is [False]. *)
Definition pressed (label : string) (b : bool) (acts : list Event) : Prop :=
  if b then
    acts = [EPrim (CClick (SelButton label) 5000) RDone; EPrim (CSleep 1000) RDone]
  else
    acts = [] \/ acts = [EPrim (CClick (SelButton label) 5000) RRaise].

(** The indicator is there, visible, and its text holds CONNECTED in some
    letter case. *)
Definition shows_connected (located shown content : Answer) : Prop :=
  ans_raises located = false
  /\ ans_raises shown = false /\ ans_bool shown = true
  /\ ans_raises content = false
  /\ exists text, ans_text content = Some text
                  /\ contains "CONNECTED" (upper text) = true.

(** The statuses [get_ws_status] returned, in order. *)
Fixpoint seen (t : list Event) : list PyVal :=
  match t with
  | [] => []
  | EReturn FGetWsStatus v :: t' => v :: seen t'
  | _ :: t' => seen t'
  end.

(** The only action is the sleep of one second between two polls. *)
Definition only_naps (t : list Event) : Prop :=
  Forall (fun e => e = EPrim (CSleep 1000) RDone) (actions t).

(** The nested document has the bounding box [b] whenever it is measured. *)
Definition reports_box (env : nat -> Answer) (b : Box) : Prop :=
  forall k, ans_box (env k) = Some b.

(** The box of the nested document with a margin of 20 pixels taken off on
    every side: the clamp of lines 177-178. *)
Definition in_band (b : Box) (p : Q * Q) : Prop :=
  (box_x b + 20 <= fst p <= box_x b + box_width b - 20)%Q
  /\ (box_y b + 20 <= snd p <= box_y b + box_height b - 20)%Q.

(** Pointer moves and the sleeps of 50 ms after them. *)
Definition walk_action (e : Event) : Prop :=
  match e with
  | EPrim (CMouseMove _ _) _ | EPrim (CSleep 50) _ => True
  | _ => False
  end.

(** The four bounds of the safe region are whole numbers of pixels. *)
Definition whole_bounds (b : Box) : Prop :=
  (inject_Z (trunc (safe_left b)) == safe_left b)%Q
  /\ (inject_Z (trunc (safe_right b)) == safe_right b)%Q
  /\ (inject_Z (trunc (safe_top b)) == safe_top b)%Q
  /\ (inject_Z (trunc (safe_bottom b)) == safe_bottom b)%Q.

(** Where pointer clicks that went through landed. *)
Definition clicked_at (e : Event) : option (Q * Q) :=
  match e with
  | EPrim (CMouseClick x y) RDone => Some (x, y)
  | _ => None
  end.

Definition clicks (t : list Event) : list (Q * Q) := omap clicked_at t.

End WsActions.

(** A page whose nested document is a square of 1000 pixels at the origin;
    every element is there and visible, the random generator draws the least
    value. *)
Definition square_box : WsHelper.Box :=
  {| WsHelper.box_x := 0; WsHelper.box_y := 0;
     WsHelper.box_width := 1000; WsHelper.box_height := 1000 |}.

Definition square_page : nat -> WsHelper.Answer :=
  fun _ => {| WsHelper.ans_raises := false; WsHelper.ans_bool := true;
              WsHelper.ans_nat := 1; WsHelper.ans_text := None;
              WsHelper.ans_box := Some square_box; WsHelper.ans_raw := 0;
              WsHelper.ans_ms := 0 |}.

(** A page whose nested document is 80 pixels wide. *)
Definition narrow_box : WsHelper.Box :=
  {| WsHelper.box_x := 0; WsHelper.box_y := 0;
     WsHelper.box_width := 80; WsHelper.box_height := 1000 |}.

Definition narrow_page : nat -> WsHelper.Answer :=
  fun _ => {| WsHelper.ans_raises := false; WsHelper.ans_bool := true;
              WsHelper.ans_nat := 1; WsHelper.ans_text := None;
              WsHelper.ans_box := Some narrow_box; WsHelper.ans_raw := 0;
              WsHelper.ans_ms := 0 |}.

(** ** More vocabulary for the orchestrator *)

Section MainVocabularyMore.
Import Main.

(** The processes killed, in order. *)
Fixpoint killed (t : list Event) : list Pid :=
  match t with
  | [] => []
  | EKill p :: t' => p :: killed t'
  | _ :: t' => killed t'
  end.

(** The configurations the workers were started with, in order. *)
Fixpoint configs (t : list Event) : list Config :=
  match t with
  | [] => []
  | EStart _ config :: t' => config :: configs t'
  | _ :: t' => configs t'
  end.

(** Waiting and logging: no process is started, terminated or killed. *)
Definition waiting (e : Event) : Prop :=
  match e with
  | ESleep _ | EJoin _ _ | ELog _ _ => True
  | _ => False
  end.

(** A source of one of the two kinds the loader knows. *)
Definition known (source : CookieSource) : bool :=
  String.eqb (src_type source) "file" || String.eqb (src_type source) "env_var".

(** The name of an environment-variable source ends in [_<integer>]. *)
Definition numbered (env : Env) (source : CookieSource) : Prop :=
  src_type source = "env_var" ->
  is_Some (int_of_str env (last_field "_" (src_identifier source))).

(** The keys of an instance configuration; none is a key of the global
    settings. *)
Definition instance_keys : list string :=
  ["cookie_file"; "env_cookie_index"; "cookie_source"].

(** The instance configuration made for a source. *)
Definition made_from (env : Env) (source : CookieSource) (profile : Config) : Prop :=
  profile !! "cookie_source" = Some (CSource source)
  /\ (forall k, is_Some (profile !! k) -> k ∈ instance_keys)
  /\ (src_type source = "file" ->
      profile !! "cookie_file" = Some (CStr (src_identifier source))
      /\ profile !! "env_cookie_index" = None)
  /\ (src_type source = "env_var" ->
      profile !! "cookie_file" = Some CNone
      /\ exists n, int_of_str env (last_field "_" (src_identifier source)) = Some n
                   /\ profile !! "env_cookie_index" = Some (CInt n)).

(** From [s] to [s'] the orchestrator only waited: the trace grew by waits
    and log records, no process was created or came to life, and if the
    running flag is still set then it was set before and no stop request
    arrived during the blocking calls in between. *)
Definition drifts (env : Env) (s s' : State) : Prop :=
  (exists t, trace s' = trace s ++ t /\ Forall waiting t)
  /\ created s' = created s
  /\ alive s' ⊆ alive s
  /\ (blocked s <= blocked s')%nat
  /\ (app_running s' = true ->
      app_running s = true
      /\ forall k, (blocked s <= k < blocked s')%nat -> stop env k = false).

End MainVocabularyMore.

(** A source named after an environment variable that does not end in a
    number. *)
Definition unnumbered_source : Main.CookieSource :=
  {| Main.src_type := "env_var"; Main.src_identifier := "USER_COOKIE_MAIN";
     Main.src_display_name := "USER_COOKIE_MAIN" |}.

(** A deployment whose workers never end by themselves and in which no
    [join] raises. *)
Definition stubborn_env : Main.Env := deployment [file_source] false.

(** A deployment in which a stop request arrives during the second
    blocking call. *)
Definition stopping_env : Main.Env :=
  {| Main.getenv := fun _ => None;
     Main.detect_all_sources := [];
     Main.int_of_str := fun _ => None;
     Main.exits := fun _ _ => false;
     Main.stop := fun k => Nat.eqb k 1;
     Main.join_raises := fun _ => false |}.

(** A source of a kind the loader does not know. *)
Definition vault_source : Main.CookieSource :=
  {| Main.src_type := "vault"; Main.src_identifier := "vault/main";
     Main.src_display_name := "vault" |}.

(** ** Cookies that are already converted *)

(** A cookie in Playwright's own format has neither a [session] nor an
    [expirationDate] entry. *)
Definition playwright_format (cookie : gmap string PyVal) : Prop :=
  cookie !! "session" = None /\ cookie !! "expirationDate" = None.

(** What the conversion makes of such a cookie: the six copied entries are
    kept, [expires] is lost, and of the three Playwright values of
    [sameSite] only [Lax] and [Strict] are kept. *)
Definition reconverted (cookie pw : gmap string PyVal) : Prop :=
  (forall k, k ∈ CookieHandler.copied_keys -> pw !! k = cookie !! k)
  /\ pw !! "expires" = None
  /\ (cookie !! "sameSite" = Some (PyStr "None") -> pw !! "sameSite" = None)
  /\ (cookie !! "sameSite" = Some (PyStr "Lax") -> pw !! "sameSite" = Some (PyStr "Lax"))
  /\ (cookie !! "sameSite" = Some (PyStr "Strict")
      -> pw !! "sameSite" = Some (PyStr "Strict")).

(** A cookie as Playwright stores it. *)
Definition stored_cookie : gmap string PyVal :=
  {[ "name" := PyStr "SID"; "value" := PyStr "abc"; "domain" := PyStr ".example.test";
     "path" := PyStr "/"; "expires" := PyInt 1900000000; "httpOnly" := PyBool true;
     "secure" := PyBool true; "sameSite" := PyStr "None" ]}.

(** ** Complaints of the launch loop *)

(** The warnings and errors in the log. *)
Definition complaints (t : list Main.Event) : list Main.Event :=
  List.filter (fun e => match e with
                        | Main.ELog Main.Warning _ | Main.ELog Main.Error _ => true
                        | _ => false
                        end) t.

(** * Proofs *)

(** ** Cookie conversion *)

Section CookieFacts.
Import CookieHandler.
Variable int_of_str : string -> option Z.
Implicit Types cookie pw acc : gmap string PyVal.

Lemma copy_keys_lookup cookie keys acc k :
  foldl (copy_key cookie) acc keys !! k =
    if decide (k ∈ keys)
    then match cookie !! k with Some v => Some v | None => acc !! k end
    else acc !! k.
Proof.
  revert acc. induction keys as [|key keys IH]; intros acc; cbn [foldl].
  - destruct (decide (k ∈ [])) as [H|]; [by apply elem_of_nil in H | done].
  - rewrite IH.
    assert (copy_key cookie acc key !! k =
              if decide (k = key)
              then match cookie !! k with Some v => Some v | None => acc !! k end
              else acc !! k) as ->.
    { unfold copy_key.
      destruct (decide (k = key)) as [->|]; destruct (cookie !! key) eqn:E;
        by simplify_map_eq. }
    destruct (decide (k ∈ keys)), (decide (k = key));
      (rewrite decide_True by set_solver) || (rewrite decide_False by set_solver);
      by destruct (cookie !! k).
Qed.

Lemma set_expires_lookup cookie pw pw' k :
  set_expires int_of_str cookie pw = Ret pw' -> k <> "expires" -> pw' !! k = pw !! k.
Proof.
  unfold set_expires. intros H Hk.
  repeat (match type of H with
          | context [if ?b then _ else _] => destruct b
          | context [match ?x with _ => _ end] => destruct x
          end; try discriminate);
    inversion H; subst; by simplify_map_eq.
Qed.

Lemma set_expires_session cookie pw pw' :
  set_expires int_of_str cookie pw = Ret pw' -> marked_session cookie = true ->
  pw' !! "expires" = Some (PyInt (-1)).
Proof.
  unfold set_expires, marked_session. intros H Hs. rewrite Hs in H.
  inversion H. by simplify_map_eq.
Qed.

Lemma set_same_site_lookup cookie pw k :
  k <> "sameSite" -> set_same_site cookie pw !! k = pw !! k.
Proof.
  intros Hk. unfold set_same_site.
  repeat (match goal with
          | |- context [if ?b then _ else _] => destruct b
          | |- context [match ?x with _ => _ end] => destruct x
          end); by simplify_map_eq.
Qed.

Lemma set_same_site_value cookie pw :
  pw !! "sameSite" = None -> same_site_ok (set_same_site cookie pw).
Proof.
  intros Hpw. unfold set_same_site, same_site_ok.
  destruct (cookie !! "sameSite") as [v|]; [|by left].
  cbv zeta.
  destruct (String.eqb (lower (py_str v)) "no_restriction");
    [right; left; by simplify_map_eq|].
  destruct (String.eqb (lower (py_str v)) "lax") eqn:Elax.
  { apply String.eqb_eq in Elax. rewrite Elax. simpl.
    right; right; left. by simplify_map_eq. }
  destruct (String.eqb (lower (py_str v)) "strict") eqn:Estrict.
  { apply String.eqb_eq in Estrict. rewrite Estrict. simpl.
    right; right; right. by simplify_map_eq. }
  simpl.
  destruct (String.eqb (lower (py_str v)) "unspecified");
    [right; right; left; by simplify_map_eq | by left].
Qed.

(** What [build] leaves under each key. *)
Lemma build_lookup cookie pw k :
  build int_of_str cookie = Ret pw -> k <> "expires" -> k <> "sameSite" ->
  pw !! k = if decide (k ∈ copied_keys) then cookie !! k else None.
Proof.
  unfold build. intros H Hk1 Hk2.
  destruct (set_expires _ _ _) as [pw1| |] eqn:E; try discriminate.
  inversion H; subst.
  rewrite set_same_site_lookup by done.
  rewrite (set_expires_lookup _ _ _ _ E) by done.
  rewrite copy_keys_lookup, lookup_empty.
  case_decide; [by destruct (cookie !! k) | done].
Qed.

Lemma build_keys cookie pw k :
  build int_of_str cookie = Ret pw -> is_Some (pw !! k) -> k ∈ allowed_keys.
Proof.
  intros H Hs.
  destruct (decide (k = "expires")) as [->|H1]; [set_solver|].
  destruct (decide (k = "sameSite")) as [->|H2]; [set_solver|].
  rewrite (build_lookup _ _ _ H) in Hs by done.
  case_decide as Hin; [|by destruct Hs].
  unfold copied_keys, allowed_keys in *. set_solver.
Qed.

Lemma build_required cookie pw k :
  build int_of_str cookie = Ret pw -> k ∈ required_keys -> pw !! k = cookie !! k.
Proof.
  intros H Hin.
  assert (k <> "expires" /\ k <> "sameSite" /\ k ∈ copied_keys) as (H1 & H2 & H3).
  { unfold required_keys, copied_keys in *. set_solver. }
  rewrite (build_lookup _ _ _ H) by done. by rewrite decide_True.
Qed.

Lemma build_complete cookie pw :
  build int_of_str cookie = Ret pw -> complete pw = has_required cookie.
Proof.
  intros H. unfold complete, has_required, required_keys. simpl.
  rewrite !(build_required _ _ _ H) by (unfold required_keys; set_solver).
  done.
Qed.

Lemma build_same_site cookie pw :
  build int_of_str cookie = Ret pw -> same_site_ok pw.
Proof.
  unfold build. intros H.
  destruct (set_expires _ _ _) as [pw1| |] eqn:E; try discriminate.
  inversion H; subst. apply set_same_site_value.
  rewrite (set_expires_lookup _ _ _ _ E) by done.
  rewrite copy_keys_lookup, lookup_empty.
  case_decide as Hin; [|done].
  unfold copied_keys in Hin. set_solver.
Qed.

Lemma build_session cookie pw :
  build int_of_str cookie = Ret pw -> marked_session cookie = true ->
  pw !! "expires" = Some (PyInt (-1)).
Proof.
  unfold build. intros H Hs.
  destruct (set_expires _ _ _) as [pw1| |] eqn:E; try discriminate.
  inversion H; subst. rewrite set_same_site_lookup by done.
  by apply (set_expires_session _ _ _ E).
Qed.

Lemma convert_loop_spec cookies (acc out : list (gmap string PyVal)) :
  convert_loop int_of_str cookies acc = Ret out ->
  exists out', out = acc ++ out'
    /\ Forall2 (converts int_of_str) (List.filter has_required cookies) out'.
Proof.
  revert acc. induction cookies as [|c cookies IH]; intros acc H; simpl in H.
  - inversion H; subst. exists []. split; [by rewrite app_nil_r | constructor].
  - destruct (build int_of_str c) as [pw| |] eqn:Eb; try discriminate.
    simpl. rewrite <- (build_complete _ _ Eb).
    destruct (complete pw) eqn:Ec.
    + apply IH in H as (out' & -> & HF).
      exists (pw :: out'). split; [by rewrite <- app_assoc|].
      constructor; [|done]. split; [done|]. by apply build_session.
    + by apply IH in H.
Qed.

Lemma convert_loop_returns cookies (acc : list (gmap string PyVal)) :
  (forall c, c ∈ cookies -> exists pw, build int_of_str c = Ret pw) ->
  exists out, convert_loop int_of_str cookies acc = Ret out.
Proof.
  revert acc. induction cookies as [|c cookies IH]; intros acc H; simpl.
  - by eexists.
  - destruct (H c) as [pw Hpw]; [by left|]. rewrite Hpw.
    destruct (complete pw); apply IH; intros; apply H; by right.
Qed.

End CookieFacts.

Lemma converts_well_formed (int_of_str : string -> option Z)
  (kept out : list (gmap string PyVal)) :
  Forall (fun c => has_required c = true) kept ->
  Forall2 (converts int_of_str) kept out ->
  Forall (fun pw =>
            (forall k, k ∈ CookieHandler.required_keys -> is_Some (pw !! k))
            /\ (forall k, is_Some (pw !! k) -> k ∈ CookieHandler.allowed_keys)
            /\ same_site_ok pw) out.
Proof.
  intros Hreq HF. induction HF as [|c pw cs pws [Hb _] _ IH]; constructor.
  - inversion Hreq as [|? ? Hc _]; subst. split; [|split].
    + intros k Hk. rewrite (build_required int_of_str c pw k Hb Hk).
      unfold has_required in Hc. rewrite forallb_forall in Hc.
      eapply bool_decide_eq_true_1, Hc. by apply list_elem_of_In.
    + intros k. exact (build_keys int_of_str c pw k Hb).
    + exact (build_same_site int_of_str c pw Hb).
  - apply IH. by inversion Hreq.
Qed.

(** C10. Whatever list is given, when the conversion returns: the output
    cookies are, in order, the cookies built from exactly those input
    cookies that carry all of [name], [value], [domain] and [path] (the
    others are dropped); a cookie whose [session] entry is truthy comes out
    with [expires = -1]; every output cookie has the four required keys,
    has keys among the eight Playwright keys only, and its [sameSite], when
    present, is one of [None], [Lax], [Strict]. *)
Theorem convert_cookie_editor_to_playwright_output
  (int_of_str : string -> option Z) (cookies out : list (gmap string PyVal)) :
  CookieHandler.convert_cookie_editor_to_playwright int_of_str cookies = Ret out ->
  Forall2 (converts int_of_str) (List.filter has_required cookies) out
  /\ Forall (fun pw =>
               (forall k, k ∈ CookieHandler.required_keys -> is_Some (pw !! k))
               /\ (forall k, is_Some (pw !! k) -> k ∈ CookieHandler.allowed_keys)
               /\ same_site_ok pw) out.
Proof.
  unfold CookieHandler.convert_cookie_editor_to_playwright. intros H.
  apply convert_loop_spec in H as (out' & -> & HF). simpl.
  split; [done|].
  apply converts_well_formed with (int_of_str := int_of_str) (2 := HF).
  apply List.Forall_forall. intros c Hc. by apply List.filter_In in Hc as [_ Hc].
Qed.

Lemma convert_cookie_editor_to_playwright_output_witness :
  CookieHandler.convert_cookie_editor_to_playwright (fun _ => None) editor_sample
    = Ret playwright_sample
  /\ Forall2 (converts (fun _ => None)) (List.filter has_required editor_sample)
       playwright_sample.
Proof.
  assert (CookieHandler.convert_cookie_editor_to_playwright (fun _ => None) editor_sample
          = Ret playwright_sample) as H by (vm_compute; reflexivity).
  split; [exact H|].
  exact (proj1 (convert_cookie_editor_to_playwright_output _ _ _ H)).
Defined.

(** ** Rules for running the helpers *)

Section WsRules.
Import WsHelper.
Variable env : nat -> Answer.
Variable logger : bool.

Lemma Ext_refl w : Ext w [] w.
Proof. unfold Ext. rewrite app_nil_r. repeat split; lia. Qed.

Lemma Ext_trans w1 t1 w2 t2 w3 : Ext w1 t1 w2 -> Ext w2 t2 w3 -> Ext w1 (t1 ++ t2) w3.
Proof.
  unfold Ext. intros (H1 & H2 & H3) (H4 & H5 & H6).
  rewrite H4, H1, app_assoc. repeat split; lia.
Qed.

Lemma Ext_push e w : Ext w [e] (push e w).
Proof. unfold Ext, push. simpl. repeat split; lia. Qed.

Lemma Ext_answered w extra c r :
  0 <= extra -> Ext w [EPrim c r] (answered env w extra c r).
Proof. unfold Ext, answered. simpl. repeat split; lia. Qed.

Section Rules.
Context {A : Type}.
Implicit Types Q : Outcome A -> list Event -> World -> Prop.

Lemma Exec_ret (a : A) w Q : Q (Ret a) [] w -> Exec (ret a) w Q.
Proof. intros H. exists []. split; [apply Ext_refl | exact H]. Qed.

Lemma Exec_raise e w Q : Q (Exn e) [] w -> Exec (raise e) w Q.
Proof. intros H. exists []. split; [apply Ext_refl | exact H]. Qed.

Lemma Exec_out_of_fuel w Q : Q Fuel [] w -> Exec out_of_fuel w Q.
Proof. intros H. exists []. split; [apply Ext_refl | exact H]. Qed.

Lemma Exec_mono (m : M World A) w Q Q' :
  Exec m w Q ->
  (forall o t w', m w = (o, w') -> Ext w t w' -> Q o t w' -> Q' o t w') ->
  Exec m w Q'.
Proof.
  intros (t & HE & HQ) H. exists t. split; [done|].
  apply H; [apply surjective_pairing | done | done].
Qed.

Lemma Exec_bind {B} (m : M World B) (k : B -> M World A) w Q :
  Exec m w (fun o t1 w1 =>
              match o with
              | Ret b => Exec (k b) w1 (fun o' t2 w2 => Q o' (t1 ++ t2) w2)
              | Exn e => Q (Exn e) t1 w1
              | Fuel => Q Fuel t1 w1
              end) ->
  Exec (bind m k) w Q.
Proof.
  unfold Exec, bind. destruct (m w) as [[b|e|] w1]; simpl; intros (t1 & HE & H).
  - destruct H as (t2 & HE2 & H). exists (t1 ++ t2).
    split; [by eapply Ext_trans | done].
  - by exists t1.
  - by exists t1.
Qed.

Lemma Exec_try (m : M World A) (h : PyExn -> M World A) w Q :
  Exec m w (fun o t1 w1 =>
              match o with
              | Exn e =>
                  if is_Exception e
                  then Exec (h e) w1 (fun o' t2 w2 => Q o' (t1 ++ t2) w2)
                  else Q (Exn e) t1 w1
              | _ => Q o t1 w1
              end) ->
  Exec (try_except m h) w Q.
Proof.
  unfold Exec, try_except. destruct (m w) as [[b|e|] w1]; simpl; intros (t1 & HE & H).
  - by exists t1.
  - destruct (is_Exception e).
    + destruct H as (t2 & HE2 & H). exists (t1 ++ t2).
      split; [by eapply Ext_trans | done].
    + by exists t1.
  - by exists t1.
Qed.

Lemma Exec_driver (c : Call) (get : Answer -> A) (show : A -> Resp) w Q :
  (ans_raises (env (calls w)) = true ->
   Q (Exn DriverError) [EPrim c RRaise] (answered env w 0 c RRaise)) ->
  (ans_raises (env (calls w)) = false ->
   Q (Ret (get (env (calls w)))) [EPrim c (show (get (env (calls w))))]
     (answered env w 0 c (show (get (env (calls w)))))) ->
  Exec (driver env c get show) w Q.
Proof.
  intros H1 H2. unfold Exec, driver.
  destruct (ans_raises (env (calls w))); simpl; eexists;
    (split; [apply Ext_answered; lia | auto]).
Qed.

(** A call of a function of the module: the body ran in between. *)
Lemma Exec_traced (f : Func) (inj : A -> PyVal) (body : M World A) w
  (P : A -> list Event -> World -> Prop) :
  Exec body (push (ECall f) w)
    (fun o t w' => exists a, o = Ret a /\ P a t (push (EReturn f (inj a)) w')) ->
  Exec (traced f inj body) w
    (fun o t w' => exists a inner, o = Ret a /\ framed f (inj a) inner t /\ P a inner w').
Proof.
  unfold Exec, traced, bind, emit, ret. simpl. fold (push (ECall f) w).
  destruct (body (push (ECall f) w)) as [o w1]. simpl.
  intros (t & HE & a & -> & HP). simpl.
  exists (ECall f :: t ++ [EReturn f (inj a)]). split.
  - change (ECall f :: t ++ [EReturn f (inj a)])
      with ([ECall f] ++ (t ++ [EReturn f (inj a)])).
    eapply Ext_trans; [apply Ext_push|].
    eapply Ext_trans; [exact HE | apply Ext_push].
  - by exists a, t.
Qed.
End Rules.

Lemma Exec_emit e w (Q : Outcome unit -> list Event -> World -> Prop) :
  Q (Ret tt) [e] (push e w) -> Exec (emit e) w Q.
Proof. intros H. exists [e]. split; [apply Ext_push | exact H]. Qed.

Lemma Exec_log l msg w (Q : Outcome unit -> list Event -> World -> Prop) :
  Q (Ret tt) [ELog l msg] (push (ELog l msg) w) -> Q (Ret tt) [] w ->
  Exec (log logger l msg) w Q.
Proof.
  intros H1 H2. unfold log. destruct logger; [by apply Exec_emit | by apply Exec_ret].
Qed.

(** Whether a logger was passed or not, [log] leaves log records only. *)
Lemma Exec_log_any l msg w (Q : Outcome unit -> list Event -> World -> Prop) :
  (forall records w', forallb is_log records = true -> Q (Ret tt) records w') ->
  Exec (log logger l msg) w Q.
Proof. intros H. apply Exec_log; by apply H. Qed.

Lemma Exec_sleep ms w (Q : Outcome unit -> list Event -> World -> Prop) :
  0 <= ms ->
  Q (Ret tt) [EPrim (CSleep ms) RDone] (answered env w ms (CSleep ms) RDone) ->
  Exec (sleep env ms) w Q.
Proof. intros Hms H. eexists. split; [by apply Ext_answered | exact H]. Qed.

Lemma Exec_time_time w (Q : Outcome Z -> list Event -> World -> Prop) :
  Q (Ret (now w)) [] w -> Exec time_time w Q.
Proof. intros H. exists []. split; [apply Ext_refl | exact H]. Qed.

Lemma Exec_randint a b w (Q : Outcome Z -> list Event -> World -> Prop) :
  (b < a -> Q (Exn ValueError) [EPrim (CRandint a b) RRaise]
              (answered env w 0 (CRandint a b) RRaise)) ->
  (forall r, a <= r <= b ->
             Q (Ret r) [EPrim (CRandint a b) (RInt r)]
               (answered env w 0 (CRandint a b) (RInt r))) ->
  Exec (randint env a b) w Q.
Proof.
  intros H1 H2. unfold Exec, randint. destruct (b <? a) eqn:E; simpl.
  - eexists. split; [apply Ext_answered; lia | apply H1; lia].
  - eexists. split; [apply Ext_answered; lia |].
    apply H2. apply Z.ltb_ge in E.
    pose proof (Z.mod_pos_bound (ans_raw (env (calls w))) (b - a + 1)). lia.
Qed.

End WsRules.

(** ** Facts about traces *)

Section TraceFacts.
Import WsHelper.

Lemma slept_app t1 t2 : slept (t1 ++ t2) = slept t1 + slept t2.
Proof.
  induction t1 as [|e t1 IH]; [done|]. simpl.
  destruct e as [[] ?| | |]; simpl; lia.
Qed.

Lemma samples_app t1 t2 : (samples (t1 ++ t2) = samples t1 + samples t2)%nat.
Proof.
  induction t1 as [|e t1 IH]; [done|]. simpl.
  destruct e as [| [] | |]; simpl; lia.
Qed.

Lemma moves_app t1 t2 : (moves (t1 ++ t2) = moves t1 + moves t2)%nat.
Proof.
  induction t1 as [|e t1 IH]; [done|]. simpl.
  destruct e as [[] ?| | |]; simpl; lia.
Qed.

Lemma last_status_app t1 t2 :
  last_status (t1 ++ t2) =
    match last_status t2 with Some v => Some v | None => last_status t1 end.
Proof.
  induction t1 as [|e t1 IH]; simpl; [by destruct (last_status t2)|].
  destruct e as [| |[] v|]; simpl; rewrite ?IH; try done.
  by destruct (last_status t2), (last_status t1).
Qed.

Lemma first_gone_app_none k t t' :
  first_gone k t = None -> first_gone k (t ++ t') = first_gone (k + moves t) t'.
Proof.
  revert k. induction t as [|e t IH]; intros k H; simpl in *.
  - by rewrite Nat.add_0_r.
  - destruct ((0 <? k)%nat && is_gone e); [done|].
    rewrite (IH _ H). f_equal.
    destruct e as [[] ?| | |]; simpl; lia.
Qed.

Lemma first_gone_pos k t j : first_gone k t = Some j -> (1 <= j)%nat.
Proof.
  revert k. induction t as [|e t IH]; intros k; simpl; [done|].
  destruct (0 <? k)%nat eqn:E; simpl.
  - destruct (is_gone e); [|by apply IH].
    intros [= <-]. by apply Nat.ltb_lt in E.
  - by apply IH.
Qed.

Lemma pointers_app t1 t2 : pointers (t1 ++ t2) = pointers t1 ++ pointers t2.
Proof. apply omap_app. Qed.

Lemma plain_samples t : Forall plain t -> samples t = 0%nat.
Proof. induction 1 as [|[] t H _ IH]; simpl; try done. Qed.

Lemma plain_last_status t : Forall plain t -> last_status t = None.
Proof. induction 1 as [|[] t H _ IH]; simpl; try done. Qed.

Lemma plain_closed t : Forall plain t -> closed t.
Proof.
  intros H d rest. revert d.
  induction H as [|[] t H _ IH]; intros d; simpl; try done.
Qed.

Lemma plain_shallow t rest : Forall plain t -> shallow 0 (t ++ rest) = t ++ shallow 0 rest.
Proof. induction 1 as [|[] t H _ IH]; simpl; try done; by rewrite IH. Qed.

Lemma closed_nil : closed [].
Proof. by intros d rest. Qed.

Lemma closed_app t1 t2 : closed t1 -> closed t2 -> closed (t1 ++ t2).
Proof. intros H1 H2 d rest. by rewrite <- app_assoc, H1, H2. Qed.

Lemma closed_cons e t : plain e -> closed t -> closed (e :: t).
Proof.
  intros He H. change (e :: t) with ([e] ++ t).
  apply closed_app; [|done]. apply plain_closed. by constructor.
Qed.

Lemma closed_frame f v inner t :
  framed f v inner t -> closed inner -> closed t.
Proof.
  intros -> H d rest. simpl. rewrite <- app_assoc.
  specialize (H (S d) ([EReturn f v] ++ rest)). rewrite H. simpl. done.
Qed.

Lemma shallow_frame f v inner t rest :
  framed f v inner t -> closed inner ->
  shallow 0 (t ++ rest) = ECall f :: EReturn f v :: shallow 0 rest.
Proof.
  intros -> H. simpl. rewrite <- app_assoc.
  specialize (H 0%nat ([EReturn f v] ++ rest)). by rewrite H.
Qed.

Lemma own_steps_frame f v inner t rest :
  framed f v inner t -> closed inner ->
  own_steps (t ++ rest) = ECall f :: EReturn f v :: own_steps rest.
Proof.
  intros Hf Hc. unfold own_steps. by rewrite (shallow_frame _ _ _ _ _ Hf Hc).
Qed.

Lemma own_steps_prim c r rest :
  own_steps (EPrim c r :: rest) = EPrim c r :: own_steps rest.
Proof. done. Qed.

Lemma own_steps_logs records rest :
  forallb is_log records = true -> own_steps (records ++ rest) = own_steps rest.
Proof.
  induction records as [|[] records IH]; simpl; try done; intros H; by apply IH.
Qed.

Lemma logs_plain records : forallb is_log records = true -> Forall plain records.
Proof.
  induction records as [|[] records IH]; simpl; try done; intros H;
    constructor; auto; exact I.
Qed.

Lemma logs_slept records : forallb is_log records = true -> slept records = 0.
Proof. induction records as [|[] records IH]; simpl; try done. Qed.

Lemma tidy_cons_plain e t : plain e -> tidy t -> tidy (e :: t).
Proof. by constructor. Qed.

Lemma tidy_of_plain t : Forall plain t -> tidy t.
Proof. induction 1; by constructor. Qed.

Lemma tidy_app t1 t2 : tidy t1 -> tidy t2 -> tidy (t1 ++ t2).
Proof.
  induction 1 as [|e t He _ IH|inner v t Hin _ IH]; intros H2; simpl; [done| |].
  - constructor; [done | by apply IH].
  - rewrite <- app_assoc. simpl. constructor; [done | by apply IH].
Qed.

Lemma tidy_framed v inner t :
  framed FGetPreviewFrame v inner t -> Forall plain inner -> tidy t.
Proof. intros -> H. by apply tidy_frame; [|constructor]. Qed.

Lemma tidy_samples t : tidy t -> samples t = 0%nat.
Proof.
  induction 1 as [|[] t He _ IH|inner v t Hin _ IH]; simpl; try done.
  rewrite samples_app, (plain_samples _ Hin). simpl. done.
Qed.

Lemma tidy_last_status t : tidy t -> last_status t = None.
Proof.
  induction 1 as [|[] t He _ IH|inner v t Hin _ IH]; simpl; try done.
  rewrite last_status_app. simpl. rewrite IH. by apply plain_last_status.
Qed.

Lemma tidy_closed t : tidy t -> closed t.
Proof.
  induction 1 as [|e t He _ IH|inner v t Hin _ IH].
  - apply closed_nil.
  - by apply closed_cons.
  - replace (ECall FGetPreviewFrame :: inner ++ EReturn FGetPreviewFrame v :: t)
      with ((ECall FGetPreviewFrame :: inner ++ [EReturn FGetPreviewFrame v]) ++ t)
      by (simpl; by rewrite <- app_assoc).
    apply closed_app; [|done].
    eapply closed_frame; [reflexivity | by apply plain_closed].
Qed.

End TraceFacts.

Create HintDb trace discriminated.
#[local] Hint Resolve tidy_nil tidy_app tidy_cons_plain tidy_of_plain : trace.
#[local] Hint Extern 1 (plain _) => exact I : trace.
#[local] Hint Rewrite slept_app samples_app moves_app app_nil_r existsb_app pointers_app
  : trace.

(** Symbolic execution of a helper, one construct at a time. *)
Ltac step :=
  match goal with
  | |- Exec (bind _ _) _ _ => apply Exec_bind
  | |- Exec (ret _) _ _ => apply Exec_ret
  | |- Exec (raise _) _ _ => apply Exec_raise
  | |- Exec (try_except _ _) _ _ => apply Exec_try
  | |- Exec (WsHelper.log _ _ _) _ _ => apply Exec_log
  | |- Exec (WsHelper.emit _) _ _ => apply Exec_emit
  | |- Exec (WsHelper.sleep _ _) _ _ => apply Exec_sleep; [lia|]
  | |- Exec WsHelper.time_time _ _ => apply Exec_time_time
  | |- Exec (WsHelper.driver _ _ _ _) _ _ => apply Exec_driver; intros ?
  | |- Exec (WsHelper.randint _ _ _) _ _ =>
      apply Exec_randint; [intros ?; try lia | intros ? ?]
  | |- Exec (if ?b then _ else _) _ _ => destruct b eqn:?
  | |- Exec (match ?x with _ => _ end) _ _ => destruct x eqn:?
  end; simpl.

(** Use the specification [lem] of a helper that is called. *)
Ltac use lem :=
  eapply Exec_mono; [apply lem|]; simpl;
  let HE := fresh "HE" in
  intros ? ? ? _ HE (? & ? & -> & ? & ?); simpl.

(** Case analysis on what the page answered. *)
Ltac answers :=
  repeat (match goal with
          | H : negb (WsHelper.ans_bool ?a) = _ |- _ =>
              destruct (WsHelper.ans_bool a) eqn:?
          | H : (WsHelper.ans_nat ?a =? 0)%nat = _ |- _ =>
              destruct (WsHelper.ans_nat a) eqn:?
          | H : (0 <? WsHelper.ans_nat ?a)%nat = _ |- _ =>
              destruct (WsHelper.ans_nat a) eqn:?
          end; simpl in *; try discriminate).

(** ** The helpers, one by one *)

Section WsRuns.
Import WsHelper.
Variable env : nat -> Answer.
Variable logger : bool.

Lemma slept_framed f v inner t : framed f v inner t -> slept t = slept inner.
Proof. intros ->. simpl. rewrite slept_app. simpl. lia. Qed.

Lemma samples_framed f v inner t :
  framed f v inner t ->
  samples t = ((if f is FGetWsStatus then 1 else 0) + samples inner)%nat.
Proof. intros ->. simpl. rewrite samples_app. destruct f; simpl; lia. Qed.

Lemma get_preview_frame_spec w :
  Exec (get_preview_frame env logger) w
    (fun o t w' =>
       exists r inner, o = Ret r /\ framed FGetPreviewFrame (frame_val r) inner t
         /\ (Forall plain inner /\ slept inner = 0
             /\ calls w' = S (calls w)
             /\ (r = None <-> ans_raises (env (calls w)) = true))).
Proof.
  unfold get_preview_frame. apply Exec_traced.
  unfold frame_locator. repeat step; simpl.
  all: eexists; split; [reflexivity|]; simpl in *.
  all: repeat split; repeat constructor; try done; try congruence.
Qed.

Lemma get_ws_status_spec w :
  Exec (get_ws_status env logger) w
    (fun o t w' =>
       exists s inner, o = Ret s /\ framed FGetWsStatus (PyStr s) inner t
         /\ (tidy inner /\ slept inner = 0
             /\ s = observed_status (env (calls w)) (env (S (calls w)))
                                    (env (S (S (calls w)))))).
Proof.
  unfold get_ws_status. apply Exec_traced.
  unfold is_visible, text_content. step. step.
  use get_preview_frame_spec.
  destruct H0 as (Hplain & Hslept & Hcalls & Hnone).
  pose proof (tidy_framed _ _ _ H Hplain) as Htidy.
  pose proof (slept_framed _ _ _ _ H) as Hs. rewrite Hslept in Hs.
  repeat step.
  all: eexists; split; [reflexivity|]; simpl in *.
  all: rewrite ?Hcalls in *.
  all: autorewrite with trace; simpl; rewrite ?Hs.
  all: split; [auto 10 with trace|]; split; [done|].
  all: unfold observed_status, status_of_text.
  all: destruct (ans_raises (env (calls w))) eqn:E0;
    [ try done; by (destruct Hnone as [_ Hn]; specialize (Hn eq_refl)) |];
    try (by destruct Hnone as [Hn _]; specialize (Hn eq_refl)).
  all: repeat match goal with
         | H : ans_raises _ = _ |- _ => rewrite H; clear H
         | H : ans_bool _ = _ |- _ => rewrite H; clear H
         | H : ans_text _ = _ |- _ => rewrite H; clear H
         | H : contains _ _ = _ |- _ => rewrite H; clear H
         | H : negb (String.eqb ?x ?y) = _ |- _ =>
             destruct (String.eqb x y); simpl in H; try discriminate; clear H
         end; simpl; try done.
Qed.

Lemma click_button_spec f label w :
  Exec (click_button env logger f label) w
    (fun o t w' =>
       exists b inner, o = Ret b /\ framed f (PyBool b) inner t
         /\ (tidy inner /\ 0 <= slept inner <= 1000)).
Proof.
  unfold click_button. apply Exec_traced.
  unfold count, is_visible, click. step. step.
  use get_preview_frame_spec.
  destruct H0 as (Hplain & Hslept & Hcalls & Hnone).
  pose proof (tidy_framed _ _ _ H Hplain) as Htidy.
  pose proof (slept_framed _ _ _ _ H) as Hs. rewrite Hslept in Hs.
  repeat step.
  all: eexists; split; [reflexivity|]; simpl in *.
  all: autorewrite with trace; simpl; rewrite ?Hs.
  all: split; [auto 10 with trace | lia].
Qed.

End WsRuns.

Lemma observed_status_in (located shown content : WsHelper.Answer) :
  In (observed_status located shown content) statuses.
Proof.
  unfold observed_status, status_of_text, statuses.
  repeat match goal with
         | |- context [if ?b then _ else _] => destruct b
         | |- context [match ?x with _ => _ end] => destruct x
         end; simpl; tauto.
Qed.

Lemma observed_status_unknown (located shown content : WsHelper.Answer) :
  WsHelper.ans_raises located = true
  \/ WsHelper.ans_raises shown = true \/ WsHelper.ans_bool shown = false
  \/ WsHelper.ans_raises content = true \/ WsHelper.ans_text content = None
  \/ (exists text, WsHelper.ans_text content = Some text /\ no_token text) ->
  observed_status located shown content = "UNKNOWN".
Proof.
  unfold observed_status, status_of_text, no_token.
  intros [H|[H|[H|[H|[H|(text & H & H1 & H2 & H3)]]]]]; rewrite ?H, ?H1, ?H2, ?H3;
    repeat (simpl;
            match goal with
            | |- context [if ?b then _ else _] => destruct b
            | |- context [match ?x with _ => _ end] => destruct x
            end); simpl; try done.
Qed.


(** ** The polling loop and the reconnect sequence *)

Section WsLoops.
Import WsHelper.
Variable env : nat -> Answer.
Variable logger : bool.

Lemma wait_loop_unfold fuel start_time timeout :
  wait_loop env logger fuel start_time timeout =
    (do t <-- time_time;
     if t - start_time <? timeout * 1000 then
       match fuel with
       | O => out_of_fuel
       | S fuel' =>
           do status <-- get_ws_status env logger;
           if String.eqb status "CONNECTED" then ret true
           else
             do _ <-- sleep env 1000;
             wait_loop env logger fuel' start_time timeout
       end
     else ret false).
Proof. by destruct fuel. Qed.

Lemma status_frame s inner t :
  framed FGetWsStatus (PyStr s) inner t -> tidy inner ->
  closed t /\ samples t = 1%nat /\ last_status t = Some (PyStr s).
Proof.
  intros Hf Ht. split; [|split].
  - eapply closed_frame; [exact Hf | by apply tidy_closed].
  - rewrite (samples_framed _ _ _ _ Hf), (tidy_samples _ Ht). done.
  - rewrite Hf. simpl. rewrite last_status_app, (tidy_last_status _ Ht). done.
Qed.

Lemma wait_loop_spec fuel :
  forall (n : nat) start_time timeout w,
    (n <= fuel)%nat ->
    timeout * 1000 - (now w - start_time) <= 1000 * Z.of_nat n ->
    Exec (wait_loop env logger fuel start_time timeout) w
      (fun o t w' =>
         exists ok, o = Ret ok
           /\ polled env logger n (now w - start_time <? timeout * 1000) ok t).
Proof.
  induction fuel as [|fuel IH]; intros n start_time timeout w Hn Hrem;
    rewrite wait_loop_unfold; apply Exec_bind, Exec_time_time; simpl;
    destruct (now w - start_time <? timeout * 1000) eqn:E.
  - apply Z.ltb_lt in E. lia.
  - apply Exec_ret. exists false. unfold polled. simpl.
    repeat split; try done; try lia; try apply closed_nil.
  - apply Z.ltb_lt in E. apply Exec_bind.
    eapply Exec_mono; [apply get_ws_status_spec|].
    intros o t1 w1 Hrun HE1 (s & inner & -> & Hf & Htidy & Hsl1 & _). simpl.
    destruct (status_frame _ _ _ Hf Htidy) as (Hc1 & Hs1 & _).
    rewrite <- (slept_framed _ _ _ _ Hf) in Hsl1.
    destruct (String.eqb s "CONNECTED") eqn:Es.
    + apply Exec_ret. exists true. unfold polled.
      rewrite app_nil_r, Hs1, Hsl1. repeat split; try done; try lia.
    + apply Exec_bind, Exec_sleep; [lia|]. simpl.
      assert (now w <= now w1) as Hnow by apply HE1.
      eapply Exec_mono; [apply (IH (pred n) start_time timeout)|].
      * lia.
      * unfold answered. simpl. lia.
      * intros o t2 w2 _ _ (ok & -> & Hc2 & Hs2 & Hsl2 & _ & _).
        exists ok. unfold polled.
        rewrite samples_app, slept_app. simpl. rewrite Hs1, Hsl2, Hsl1.
        split; [done|]. split; [|split; [|split; [|split]]].
        -- apply closed_app; [done|]. apply closed_cons; [exact I | done].
        -- lia.
        -- destruct ok; lia.
        -- intros _. lia.
        -- intros Hall _. specialize (Hall w). rewrite Hrun in Hall. simpl in Hall.
           inversion Hall; subst. by rewrite String.eqb_refl in Es.
  - apply Exec_ret. exists false. unfold polled. simpl.
    repeat split; try done; try lia; try apply closed_nil.
Qed.

End WsLoops.

(** ** Dismissing the overlay *)

Section WsDismiss.
Import WsHelper.
Variable env : nat -> Answer.
Variable logger : bool.

Lemma dismiss_walk_spec steps :
  forall k iframe_box curr_x curr_y w,
    Exec (dismiss_walk env logger steps iframe_box curr_x curr_y) w
      (fun o t w' =>
         Forall plain t
         /\ (moves t <= steps)%nat
         /\ 0 <= slept t <= 50 * Z.of_nat steps
         /\ existsb unmeasured t = false
         /\ match first_gone k t with
            | Some j => o = Ret (Some true) /\ j = (k + moves t)%nat
            | None => o = Ret None \/ caught o
            end).
Proof.
  induction steps as [|steps IH]; intros k iframe_box curr_x curr_y w; simpl.
  - apply Exec_ret. simpl. repeat split; try done; try lia. by left.
  - unfold modal_gone, mouse_move, count, is_visible.
    repeat step.
    all: try (eapply Exec_mono; [apply (IH (S k))|]; simpl;
              intros o t w' _ _ (Hp & Hm & Hs & Hu & Hg)).
    all: autorewrite with trace; simpl.
    all: answers.
    all: rewrite ?andb_false_r; simpl.
    all: try (revert Hg; destruct (first_gone (S k) t) as [j|];
              [intros [-> ->] | intros Hg]).
    all: repeat split; try done; try lia.
    all: repeat (apply List.Forall_cons; [exact I|]); try done.
    all: try (by left); try (right; by eexists).
    all: try (destruct Hg as [->|(e & -> & He)]; [by left | right; by eexists]).
Qed.

Local Arguments dismiss_walk : simpl never.

Lemma dismiss_interaction_modal_spec w :
  Exec (dismiss_interaction_modal env logger) w
    (fun o t w' =>
       exists b inner, o = Ret b /\ framed FDismissInteractionModal (PyBool b) inner t
         /\ (Forall plain inner
             /\ 0 <= slept inner <= 1500
             /\ (moves inner <= 30)%nat
             /\ match first_gone 0 inner with
                | Some j => b = true /\ j = moves inner
                | None => b = false
                end
             /\ (existsb unmeasured inner = true -> b = false /\ moves inner = 0%nat))).
Proof.
  unfold dismiss_interaction_modal. apply Exec_traced.
  unfold modal_gone, count, is_visible, bounding_box.
  repeat step.
  all: try (eapply Exec_mono; [apply (dismiss_walk_spec 30 0%nat)|]; simpl;
            intros o t w' _ _ (Hp & Hm & Hs & Hu & Hg);
            assert (o = Ret (Some true) /\ first_gone 0 t = Some (moves t)
                    \/ (o = Ret None \/ caught o) /\ first_gone 0 t = None) as Ho
              by (destruct (first_gone 0 t); [left; by destruct Hg as [-> ->] | by right]);
            clear Hg;
            destruct Ho as [[-> Hg] | [[-> | (e & -> & He)] Hg]]; [| |rewrite He];
            repeat step).
  all: eexists; (split; [reflexivity|]).
  all: autorewrite with trace; simpl.
  all: answers.
  all: rewrite ?Hu, ?(first_gone_app_none _ _ _ Hg), ?Hg; simpl.
  all: rewrite ?andb_false_r.
  all: repeat split; try done; try lia.
  all: repeat (apply List.Forall_cons; [exact I|]); try done.
  all: apply List.Forall_app; split; [done|].
  all: repeat (apply List.Forall_cons; [exact I|]); done.
Qed.

End WsDismiss.

(** ** Reconnecting *)

Section WsReconnect.
Import WsHelper.
Variable env : nat -> Answer.
Variable logger : bool.

Local Arguments wait_loop : simpl never.

Lemma wait_for_ws_connected_spec fuel timeout w :
  (Z.to_nat timeout <= fuel)%nat ->
  Exec (wait_for_ws_connected env logger fuel timeout) w
    (fun o t w' =>
       exists ok inner, o = Ret ok /\ framed FWaitForWsConnected (PyBool ok) inner t
         /\ polled env logger (Z.to_nat timeout) (0 <? timeout * 1000) ok inner).
Proof.
  intros Hfuel. unfold wait_for_ws_connected. apply Exec_traced.
  apply Exec_bind, Exec_time_time. simpl.
  eapply Exec_mono; [apply (wait_loop_spec env logger fuel (Z.to_nat timeout))|].
  - done.
  - simpl. lia.
  - simpl. intros o t w' _ _ (ok & -> & Hp). exists ok. split; [done|].
    by rewrite Z.sub_diag in Hp.
Qed.

Lemma wait_loop_fuel fuel :
  forall fuel' start_time timeout w,
    (fuel <= fuel')%nat ->
    fst (wait_loop env logger fuel start_time timeout w) <> Fuel ->
    wait_loop env logger fuel' start_time timeout w
    = wait_loop env logger fuel start_time timeout w.
Proof.
  induction fuel as [|fuel IH]; intros fuel' start_time timeout w Hle Hne;
    rewrite (wait_loop_unfold env logger fuel');
    rewrite wait_loop_unfold in Hne |- *;
    cbv beta iota delta [bind time_time fst] in Hne |- *;
    destruct (now w - start_time <? timeout * 1000); try done.
  destruct fuel' as [|fuel']; [exfalso; lia|].
  destruct (get_ws_status env logger w) as [[s|e|] w1]; try done.
  destruct (String.eqb s "CONNECTED"); [done|].
  cbv beta iota delta [sleep] in Hne |- *. apply IH; [lia | exact Hne].
Qed.

Lemma wait_for_ws_connected_fuel fuel fuel' timeout w :
  (Z.to_nat timeout <= fuel)%nat -> (Z.to_nat timeout <= fuel')%nat ->
  wait_for_ws_connected env logger fuel' timeout w
  = wait_for_ws_connected env logger fuel timeout w.
Proof.
  intros H H'.
  assert (forall f, (Z.to_nat timeout <= f)%nat ->
                    wait_for_ws_connected env logger f timeout w
                    = wait_for_ws_connected env logger (Z.to_nat timeout) timeout w) as Heq.
  { intros f Hf. unfold wait_for_ws_connected, traced, bind, emit, time_time. simpl.
    rewrite (wait_loop_fuel (Z.to_nat timeout) f); [done | done |].
    match goal with |- fst (?m ?w0) <> _ => 
      destruct (wait_loop_spec env logger (Z.to_nat timeout) (Z.to_nat timeout)
                  (now w0) timeout w0) as (t & _ & ok & Hok & _)
    end; [done | simpl; lia |].
    simpl in Hok. by rewrite Hok. }
  by rewrite (Heq fuel), (Heq fuel').
Qed.

Lemma bind_ext {S A B} (m : M S A) (k1 k2 : A -> M S B) w :
  (forall a w', k1 a w' = k2 a w') -> bind m k1 w = bind m k2 w.
Proof. intros H. unfold bind. destruct (m w) as [[a|e|] w']; auto. Qed.

Lemma bind_cong_l {S A B} (m1 m2 : M S A) (k : A -> M S B) w :
  m1 w = m2 w -> bind m1 k w = bind m2 k w.
Proof. intros H. unfold bind. by rewrite H. Qed.

Lemma reconnect_ws_fuel fuel fuel' w :
  (15 <= fuel)%nat -> (15 <= fuel')%nat ->
  reconnect_ws env logger fuel' w = reconnect_ws env logger fuel w.
Proof.
  intros H H'. unfold reconnect_ws, traced.
  apply bind_ext; intros. apply bind_cong_l.
  repeat (apply bind_ext; intros). apply bind_cong_l.
  by apply wait_for_ws_connected_fuel.
Qed.

Lemma reconnect_ws_spec fuel w :
  (15 <= fuel)%nat ->
  Exec (reconnect_ws env logger fuel) w
    (fun o t w' =>
       exists s inner, o = Ret s /\ framed FReconnectWs (PyStr s) inner t
         /\ reconnected env logger s inner).
Proof.
  intros Hfuel. unfold reconnect_ws, click_disconnect, click_connect.
  apply Exec_traced.
  apply Exec_bind, Exec_log_any. intros l0 w0 Hl0.
  apply Exec_bind. eapply Exec_mono; [apply dismiss_interaction_modal_spec|].
  intros ? t1 w1 _ _ (b1 & in1 & -> & Hf1 & Hp1 & Hs1 & _).
  apply Exec_bind. eapply Exec_mono; [apply click_button_spec|].
  intros ? t2 w2 _ _ (b2 & in2 & -> & Hf2 & Ht2 & Hs2).
  apply Exec_bind, Exec_sleep; [lia|].
  apply Exec_bind. eapply Exec_mono; [apply get_ws_status_spec|].
  intros ? t3 w3 _ _ (s0 & in3 & -> & Hf3 & Ht3 & Hs3 & _).
  apply Exec_bind, Exec_log_any. intros l1 w4 Hl1.
  apply Exec_bind. eapply Exec_mono; [apply click_button_spec|].
  intros ? t4 w5 _ _ (b3 & in4 & -> & Hf4 & Ht4 & Hs4).
  apply Exec_bind, Exec_sleep; [lia|].
  apply Exec_bind. eapply Exec_mono; [by apply wait_for_ws_connected_spec|].
  intros ? t5 w6 _ _ (ok & polling & -> & Hf5 & Hpoll).
  assert (Exec (do status <-- get_ws_status env logger;
                do _ <-- log logger (if ok then Info else Warning)
                           (if ok then "WS status after reconnect"
                            else "WS reconnect timed out");
                ret status) w6
            (fun o' t2 w7 => exists s t6 in6 l2,
                 o' = Ret s /\ t2 = t6 ++ l2 ++ []
                 /\ framed FGetWsStatus (PyStr s) in6 t6 /\ tidy in6 /\ slept in6 = 0
                 /\ forallb is_log l2 = true
                 /\ fst (get_ws_status env logger w6) = Ret s)) as Hlast.
  { apply Exec_bind. eapply Exec_mono; [apply get_ws_status_spec|].
    intros ? t6 w7 Hrun _ (s & in6 & -> & Hf6 & Ht6 & Hs6 & _).
    apply Exec_bind, Exec_log_any. intros l2 w8 Hl2.
    apply Exec_ret. exists s, t6, in6, l2. rewrite Hrun. by repeat split. }
  match type of Hlast with
  | Exec _ _ ?Q => eapply (Exec_mono _ _ Q); [destruct ok; exact Hlast|]
  end.
  clear Hlast. simpl.
  intros ? ? w7 _ _ (s & t6 & in6 & l2 & -> & -> & Hf6 & Ht6 & Hs6 & Hl2 & Hrun).
  exists s. split; [done|].
  assert (closed in1) as Hc1 by by apply plain_closed.
  assert (closed in2) as Hc2 by by apply tidy_closed.
  assert (closed in3) as Hc3 by by apply tidy_closed.
  assert (closed in4) as Hc4 by by apply tidy_closed.
  assert (closed polling) as Hc5 by apply Hpoll.
  assert (closed in6) as Hc6 by by apply tidy_closed.
  exists b1, b2, b3, ok, s0.
  exists (l0 ++ t1 ++ t2 ++ [EPrim (CSleep 2000) RDone] ++ t3 ++ l1 ++ t4
            ++ [EPrim (CSleep 2000) RDone]), polling, (t6 ++ l2 ++ []).
  split; [|split; [|split; [|split; [|split; [|split; [|split]]]]]].
  - rewrite (own_steps_logs _ _ Hl0).
    rewrite (own_steps_frame _ _ _ _ _ Hf1 Hc1).
    rewrite (own_steps_frame _ _ _ _ _ Hf2 Hc2).
    simpl app. rewrite own_steps_prim.
    rewrite (own_steps_frame _ _ _ _ _ Hf3 Hc3).
    rewrite (own_steps_logs _ _ Hl1).
    rewrite (own_steps_frame _ _ _ _ _ Hf4 Hc4).
    rewrite own_steps_prim.
    rewrite (own_steps_frame _ _ _ _ _ Hf5 Hc5).
    rewrite (own_steps_frame _ _ _ _ _ Hf6 Hc6).
    by rewrite (own_steps_logs _ _ Hl2).
  - rewrite Hf5. rewrite <- !app_assoc. simpl. by rewrite <- !app_assoc.
  - exact Hpoll.
  - repeat (autorewrite with trace; simpl).
    rewrite (samples_framed _ _ _ _ Hf1), (samples_framed _ _ _ _ Hf2),
      (samples_framed _ _ _ _ Hf3), (samples_framed _ _ _ _ Hf4).
    rewrite (plain_samples _ Hp1), (tidy_samples _ Ht2), (tidy_samples _ Ht3),
      (tidy_samples _ Ht4), (plain_samples _ (logs_plain _ Hl0)),
      (plain_samples _ (logs_plain _ Hl1)).
    done.
  - autorewrite with trace.
    rewrite (samples_framed _ _ _ _ Hf6), (tidy_samples _ Ht6),
      (plain_samples _ (logs_plain _ Hl2)). done.
  - repeat (autorewrite with trace; simpl).
    rewrite (slept_framed _ _ _ _ Hf1), (slept_framed _ _ _ _ Hf2),
      (slept_framed _ _ _ _ Hf3), (slept_framed _ _ _ _ Hf4),
      (slept_framed _ _ _ _ Hf5), (slept_framed _ _ _ _ Hf6).
    rewrite (logs_slept _ Hl0), (logs_slept _ Hl1), (logs_slept _ Hl2), Hs3, Hs6.
    destruct Hpoll as (_ & Hn & Hsl & _). rewrite Hsl.
    change (Z.to_nat 15) with 15%nat in Hn. destruct ok; lia.
  - rewrite app_nil_r. repeat (rewrite ?last_status_app; simpl).
    rewrite (plain_last_status _ (logs_plain _ Hl2)).
    by destruct (status_frame _ _ _ Hf6 Ht6) as (_ & _ & ->).
  - by exists w6.
Qed.

End WsReconnect.

(** ** Idle interaction *)

Section WsClick.
Import WsHelper.
Variable env : nat -> Answer.
Variable logger : bool.

Lemma in_cut_inject b x y : in_cut b x y -> in_cut_region b (inject_Z x, inject_Z y).
Proof. intros [Hx Hy]. unfold in_cut_region. simpl. rewrite <- !Zle_Qle. lia. Qed.

Lemma click_walk_spec steps :
  forall b curr_x curr_y w,
    in_cut b curr_x curr_y ->
    Exec (click_walk env steps (safe_left b) (safe_right b) (safe_top b) (safe_bottom b)
            curr_x curr_y) w
      (fun o t w' =>
         Forall plain t
         /\ Forall (in_cut_region b) (pointers t)
         /\ match o with
            | Ret (x, y) => in_cut b x y
            | Exn e => is_Exception e = true
            | Fuel => False
            end).
Proof.
  induction steps as [|steps IH]; intros b curr_x curr_y w Hin; simpl.
  - apply Exec_ret. split; [constructor|]. split; [constructor | exact Hin].
  - unfold mouse_move. repeat step.
    + split; [by repeat constructor|]. split; [|done].
      constructor; [|constructor]. apply in_cut_inject. destruct Hin; split; lia.
    + eapply Exec_mono; [apply IH; destruct Hin; split; lia|]. simpl.
      intros o t w' _ _ (Hp & Hq & Ho).
      split; [by repeat constructor|]. split; [|done].
      constructor; [|done]. apply in_cut_inject. destruct Hin; split; lia.
Qed.

Local Arguments click_walk : simpl never.

Lemma not_degenerate b :
  Qle_bool (safe_right b) (safe_left b) || Qle_bool (safe_bottom b) (safe_top b) = false ->
  ~ degenerate b.
Proof.
  intros H [Hd|Hd]; apply Qle_bool_iff in Hd; rewrite Hd in H;
    [done | by rewrite orb_true_r in H].
Qed.

Lemma plain_list_app (t1 t2 : list Event) :
  Forall plain t1 -> Forall plain t2 -> Forall plain (t1 ++ t2).
Proof. intros. by apply List.Forall_app. Qed.

Lemma click_in_iframe_spec w :
  Exec (click_in_iframe env logger) w
    (fun o t w' =>
       exists r inner, o = Ret r /\ framed FClickInIframe (PyBool r) inner t
         /\ (Forall plain inner
             /\ (forall b, ans_box (env (S (calls w))) = Some b ->
                           Forall (in_cut_region b) (pointers inner)
                           /\ (degenerate b -> r = false /\ pointers inner = []))
             /\ (ans_box (env (S (calls w))) = None -> pointers inner = []))).
Proof.
  unfold click_in_iframe. apply Exec_traced.
  unfold count, bounding_box, mouse_click.
  repeat step.
  all: try (eapply Exec_mono; [apply click_walk_spec; split; lia|]; simpl;
            intros [[x y]|e|] t w' _ _ (Hp & Hq & Ho); try done; try rewrite Ho;
            repeat step).
  all: eexists; (split; [reflexivity|]).
  all: autorewrite with trace; simpl.
  all: split;
    [ repeat (apply List.Forall_cons; [exact I|]);
      repeat (apply plain_list_app); try done;
      repeat (apply List.Forall_cons; [exact I|]); by constructor |].
  all: split; [|by intros].
  all: intros b0 Hb0; try (injection Hb0 as <-).
  all: try (split; [by constructor | by intros]).
  all: split; [|by intros Hd; destruct (not_degenerate _ Heqb0 Hd)].
  all: try done.
  all: apply List.Forall_app; split; [done|].
  all: constructor; [|constructor]; by apply in_cut_inject.
Qed.

End WsClick.

(** ** The claims about the WS helpers *)

Lemma Exec_outcome {A} (m : M WsHelper.World A) w Q :
  Exec m w Q ->
  exists o t w', m w = (o, w') /\ WsHelper.trace w' = WsHelper.trace w ++ t /\ Q o t w'.
Proof.
  intros (t & (Ht & _) & HQ). exists (fst (m w)), t, (snd (m w)).
  split; [apply surjective_pairing | done].
Qed.

Lemma connected_page_always logger : always_connected connected_page logger.
Proof.
  intros w.
  destruct (Exec_outcome _ _ _ (get_ws_status_spec connected_page logger w))
    as (o & t & w' & Hrun & _ & s & inner & -> & _ & _ & _ & ->).
  by rewrite Hrun.
Qed.

(** C1. Whatever the page answers, [reconnect_ws] returns once the polling
    loop is given fuel for 15 iterations, and more fuel changes nothing.
    The polling loop samples the status at most 15 times and sleeps one
    second after each sample that was not CONNECTED; all the sleeps of the
    call add up to at most 22.5 s (15 s of polling, the two settles of 2 s,
    the settles of the two clicks and of the overlay walk).  The status
    returned is the one returned by the last call of [get_ws_status]. *)
Theorem reconnect_ws_bounded
  (env : nat -> WsHelper.Answer) (logger : bool) (fuel : nat) (w : WsHelper.World) :
  (15 <= fuel)%nat ->
  exists s w' inner,
    WsHelper.reconnect_ws env logger fuel w = (Ret s, w')
    /\ WsHelper.trace w' =
         WsHelper.trace w
           ++ WsHelper.ECall WsHelper.FReconnectWs :: inner
           ++ [WsHelper.EReturn WsHelper.FReconnectWs (PyStr s)]
    /\ (exists before polling after ok,
          inner = before ++ WsHelper.ECall WsHelper.FWaitForWsConnected :: polling
                    ++ WsHelper.EReturn WsHelper.FWaitForWsConnected (PyBool ok) :: after
          /\ (samples polling <= 15)%nat
          /\ slept polling = 1000 * (Z.of_nat (samples polling) - (if ok then 1 else 0))
          /\ samples before = 1%nat /\ samples after = 1%nat)
    /\ 0 <= slept inner <= 22500
    /\ last_status inner = Some (PyStr s)
    /\ (forall fuel', (15 <= fuel')%nat ->
          WsHelper.reconnect_ws env logger fuel' w = WsHelper.reconnect_ws env logger fuel w).
Proof.
  intros Hfuel.
  destruct (Exec_outcome _ _ _ (reconnect_ws_spec env logger fuel w Hfuel))
    as (o & t & w' & Hrun & Ht & s & inner & -> & -> & Hrec).
  destruct Hrec as (b1 & b2 & b3 & ok & s0 & before & polling & after
                    & _ & Hsplit & Hpoll & Hb & Ha & Hslept & Hlast & _).
  exists s, w', inner. split; [done|]. split; [done|].
  split; [|split; [done|split; [done|]]].
  - exists before, polling, after, ok. destruct Hpoll as (_ & Hn & Hs & _). done.
  - intros fuel' Hfuel'. by apply reconnect_ws_fuel.
Qed.

Lemma reconnect_ws_bounded_witness :
  (15 <= 15)%nat
  /\ exists s w',
       WsHelper.reconnect_ws quiet_page false 15 start_world = (Ret s, w')
       /\ last_status (WsHelper.trace w') = Some (PyStr s).
Proof.
  split; [lia|].
  destruct (reconnect_ws_bounded quiet_page false 15 start_world ltac:(lia))
    as (s & w' & inner & Hrun & Ht & _ & _ & Hlast & _).
  exists s, w'. split; [exact Hrun|].
  rewrite Ht. simpl. rewrite last_status_app, Hlast. done.
Defined.

(** C2. [reconnect_ws] never takes a shortcut.  Whatever the page answers,
    its own steps are, in this order: dismiss the overlay (result unused),
    click Disconnect, sleep 2 s, sample the status, click Connect, sleep 2 s,
    wait for CONNECTED (at least one poll), sample the status and return it.
    On a page that reads CONNECTED whenever asked, the wait ends at its first
    poll and the call returns CONNECTED. *)
Theorem reconnect_ws_full_sequence
  (env : nat -> WsHelper.Answer) (logger : bool) (fuel : nat) (w : WsHelper.World) :
  (15 <= fuel)%nat ->
  exists s w' inner (b1 b2 b3 ok : bool) (s0 : string),
    WsHelper.reconnect_ws env logger fuel w = (Ret s, w')
    /\ WsHelper.trace w' =
         WsHelper.trace w
           ++ WsHelper.ECall WsHelper.FReconnectWs :: inner
           ++ [WsHelper.EReturn WsHelper.FReconnectWs (PyStr s)]
    /\ own_steps inner =
         [ WsHelper.ECall WsHelper.FDismissInteractionModal;
           WsHelper.EReturn WsHelper.FDismissInteractionModal (PyBool b1);
           WsHelper.ECall WsHelper.FClickDisconnect;
           WsHelper.EReturn WsHelper.FClickDisconnect (PyBool b2);
           WsHelper.EPrim (WsHelper.CSleep 2000) WsHelper.RDone;
           WsHelper.ECall WsHelper.FGetWsStatus;
           WsHelper.EReturn WsHelper.FGetWsStatus (PyStr s0);
           WsHelper.ECall WsHelper.FClickConnect;
           WsHelper.EReturn WsHelper.FClickConnect (PyBool b3);
           WsHelper.EPrim (WsHelper.CSleep 2000) WsHelper.RDone;
           WsHelper.ECall WsHelper.FWaitForWsConnected;
           WsHelper.EReturn WsHelper.FWaitForWsConnected (PyBool ok);
           WsHelper.ECall WsHelper.FGetWsStatus;
           WsHelper.EReturn WsHelper.FGetWsStatus (PyStr s) ]
    /\ (exists before polling after,
          inner = before ++ WsHelper.ECall WsHelper.FWaitForWsConnected :: polling
                    ++ WsHelper.EReturn WsHelper.FWaitForWsConnected (PyBool ok) :: after
          /\ (1 <= samples polling)%nat
          /\ (always_connected env logger -> ok = true /\ samples polling = 1%nat))
    /\ (always_connected env logger -> s = "CONNECTED").
Proof.
  intros Hfuel.
  destruct (Exec_outcome _ _ _ (reconnect_ws_spec env logger fuel w Hfuel))
    as (o & t & w' & Hrun & Ht & s & inner & -> & -> & Hrec).
  destruct Hrec as (b1 & b2 & b3 & ok & s0 & before & polling & after
                    & Hsteps & Hsplit & Hpoll & _ & _ & _ & _ & (wl & Hwl)).
  exists s, w', inner, b1, b2, b3, ok, s0.
  split; [done|]. split; [done|]. split; [done|]. split.
  - exists before, polling, after. destruct Hpoll as (_ & _ & _ & Hone & Hall).
    split; [done|]. split; [by apply Hone|]. intros Hc. by apply Hall.
  - intros Hc. specialize (Hc wl). rewrite Hwl in Hc. by inversion Hc.
Qed.

Lemma reconnect_ws_full_sequence_witness :
  (15 <= 15)%nat
  /\ exists w', WsHelper.reconnect_ws connected_page false 15 start_world
                = (Ret "CONNECTED", w').
Proof.
  split; [lia|].
  destruct (reconnect_ws_full_sequence connected_page false 15 start_world ltac:(lia))
    as (s & w' & inner & b1 & b2 & b3 & ok & s0 & Hrun & _ & _ & _ & Hc).
  exists w'. rewrite Hrun. by rewrite (Hc (connected_page_always false)).
Defined.


(** ** The claim about the idle interaction *)

(** Whatever the page and the random draws, the pointer stays in the safe
    region with its bounds cut to integers, and a degenerate safe region
    makes [click_in_iframe] return [False] without a pointer event. *)
Lemma click_in_iframe_cut_region
  (env : nat -> WsHelper.Answer) (logger : bool) (w : WsHelper.World) :
  exists r w' inner,
    WsHelper.click_in_iframe env logger w = (Ret r, w')
    /\ WsHelper.trace w' =
         WsHelper.trace w
           ++ WsHelper.ECall WsHelper.FClickInIframe :: inner
           ++ [WsHelper.EReturn WsHelper.FClickInIframe (PyBool r)]
    /\ (forall b, WsHelper.ans_box (env (S (WsHelper.calls w))) = Some b ->
                  Forall (in_cut_region b) (pointers inner)
                  /\ (degenerate b -> r = false /\ pointers inner = [])).
Proof.
  destruct (Exec_outcome _ _ _ (click_in_iframe_spec env logger w))
    as (o & t & w' & Hrun & Ht & r & inner & -> & -> & _ & Hb & _).
  by exists r, w', inner.
Qed.

(** C4 fails on the code.  On [half_pixel_page] the safe region starts at
    y = 80.5; [int()] cuts the bound to 80, and the pointer is moved to and
    clicked at y = 80, above the safe region. *)
Theorem click_in_iframe_leaves_safe_region :
  let run := WsHelper.click_in_iframe half_pixel_page false start_world in
  fst run = Ret true
  /\ pointers (WsHelper.trace (snd run))
     = [ (inject_Z 50, inject_Z 80); (inject_Z 50, inject_Z 80);
         (inject_Z 50, inject_Z 80); (inject_Z 50, inject_Z 80) ]
  /\ ~ degenerate half_pixel_box
  /\ ~ in_safe_region half_pixel_box (inject_Z 50, inject_Z 80).
Proof.
  split; [by vm_compute|]. split; [by vm_compute|]. split.
  - intros [H|H]; apply Qle_bool_iff in H; by vm_compute in H.
  - intros [_ [H _]]. apply Qle_bool_iff in H. by vm_compute in H.
Qed.

Section MainFacts.
Import Main.
Variable env : Env.

Lemma launched_app t1 t2 : launched (t1 ++ t2) = launched t1 ++ launched t2.
Proof. induction t1 as [|[] t1 IH]; simpl; by rewrite ?IH. Qed.

Lemma schedule_app t1 t2 : schedule (t1 ++ t2) = schedule t1 ++ schedule t2.
Proof. induction t1 as [|[] t1 IH]; simpl; by rewrite ?IH. Qed.

(** One turn of the launch loop on a resolved configuration. *)
Lemma launch_loop_step global_settings total i profile rest s :
  resolved global_settings profile ->
  app_running s = true ->
  exists t s1,
    trace s1 = trace s ++ t
    /\ launched t = [created s]
    /\ schedule t = Launch (created s) :: (if (i <? total)%nat then [Wait 30] else [])
    /\ browser_processes s1 = browser_processes s ++ [created s]
    /\ created s1 = S (created s)
    /\ blocked s1 = (if (i <? total)%nat then S (blocked s) else blocked s)
    /\ app_running s1 = (if (i <? total)%nat then negb (stop env (blocked s)) else true)
    /\ launch_loop env global_settings total i (profile :: rest) s
       = launch_loop env global_settings total (S i) rest s1.
Proof.
  intros [[u Hu] [source Hsrc]] Hrun.
  cbn [launch_loop]. unfold bind at 1, get_app_running. rewrite Hrun. simpl negb. cbv iota.
  rewrite Hu, Hsrc. simpl.
  destruct (String.eqb (src_type source) "file"),
    (String.eqb (src_type source) "env_var"), (i <? total)%nat;
    unfold bind, log, emit, new_process, get_browser_processes, set_browser_processes,
      start, sleep, block, ret; simpl;
    eexists _, _; (do 7 (split; [shelve|])); reflexivity.
  Unshelve.
  all: simpl; rewrite ?Hrun; try done.
  all: repeat rewrite <- (app_assoc (trace s)); try reflexivity.
Qed.

Lemma launch_loop_not_running global_settings total i profiles s :
  app_running s = false ->
  launch_loop env global_settings total i profiles s = (Ret tt, s).
Proof.
  intros H. destruct profiles; [done|].
  cbn [launch_loop]. unfold bind, get_app_running. by rewrite H.
Qed.

Lemma launch_loop_all profiles :
  forall global_settings total i s,
    Forall (resolved global_settings) profiles ->
    app_running s = true ->
    (i + length profiles = S total)%nat ->
    (forall j, (j + 1 < length profiles)%nat -> stop env (blocked s + j) = false) ->
    exists t s',
      launch_loop env global_settings total i profiles s = (Ret tt, s')
      /\ trace s' = trace s ++ t
      /\ schedule t = staggered (created s) (length profiles)
      /\ launched t = seq (created s) (length profiles)
      /\ browser_processes s' = browser_processes s ++ seq (created s) (length profiles)
      /\ app_running s' = true.
Proof.
  induction profiles as [|profile rest IH]; intros gs total i s Hres Hrun Hi Hstop.
  - exists [], s. simpl. rewrite !app_nil_r. done.
  - inversion Hres as [|? ? Hp Hrest]; subst.
    destruct (launch_loop_step gs total i profile rest s Hp Hrun)
      as (t1 & s1 & Ht1 & Hl1 & Hsch1 & Hbp1 & Hc1 & Hb1 & Hr1 & ->).
    simpl in Hi.
    destruct rest as [|profile' rest'].
    + assert ((i <? total)%nat = false) as E by (apply Nat.ltb_ge; simpl in Hi; lia).
      rewrite E in *. exists t1, s1. simpl. done.
    + assert ((i <? total)%nat = true) as E by (apply Nat.ltb_lt; simpl in Hi; lia).
      rewrite E in *.
      destruct (IH gs total (S i) s1 Hrest) as (t2 & s2 & Hrun2 & Ht2 & Hsch2 & Hl2 & Hbp2 & Hr2).
      * rewrite Hr1. pose proof (Hstop 0%nat) as H0. rewrite Nat.add_0_r in H0.
        rewrite H0; [done | simpl; lia].
      * simpl in *. lia.
      * intros j Hj. rewrite Hb1. replace (S (blocked s) + j)%nat with (blocked s + S j)%nat by lia.
        apply Hstop. simpl in *. lia.
      * exists (t1 ++ t2), s2. rewrite Hrun2, Ht2, Ht1, app_assoc.
        rewrite schedule_app, launched_app, Hsch1, Hl1, Hsch2, Hl2, Hbp2, Hbp1, Hc1.
        repeat split; simpl; rewrite <- ?app_assoc; done.
Qed.

Lemma launch_loop_stopped profiles :
  forall j global_settings total i s,
    Forall (resolved global_settings) profiles ->
    app_running s = true ->
    (i + length profiles = S total)%nat ->
    (j + 1 < length profiles)%nat ->
    (forall k, (k < j)%nat -> stop env (blocked s + k) = false) ->
    stop env (blocked s + j) = true ->
    exists t s',
      launch_loop env global_settings total i profiles s = (Ret tt, s')
      /\ trace s' = trace s ++ t
      /\ schedule t = staggered (created s) (S j) ++ [Wait 30]
      /\ launched t = seq (created s) (S j)
      /\ browser_processes s' = browser_processes s ++ seq (created s) (S j)
      /\ app_running s' = false.
Proof.
  induction profiles as [|profile rest IH];
    intros j gs total i s Hres Hrun Hi Hj Hbefore Hstop; [simpl in Hj; lia|].
  inversion Hres as [|? ? Hp Hrest]; subst.
  destruct (launch_loop_step gs total i profile rest s Hp Hrun)
    as (t1 & s1 & Ht1 & Hl1 & Hsch1 & Hbp1 & Hc1 & Hb1 & Hr1 & ->).
  simpl in Hi, Hj.
  assert ((i <? total)%nat = true) as E by (apply Nat.ltb_lt; lia).
  rewrite E in *.
  destruct j as [|j].
  - rewrite Nat.add_0_r in Hstop. rewrite Hstop in Hr1. simpl in Hr1.
    rewrite (launch_loop_not_running _ _ _ _ _ Hr1).
    exists t1, s1. simpl. done.
  - destruct (IH j gs total (S i) s1 Hrest) as (t2 & s2 & Hrun2 & Ht2 & Hsch2 & Hl2 & Hbp2 & Hr2).
    + rewrite Hr1. pose proof (Hbefore 0%nat) as H0. rewrite Nat.add_0_r in H0.
      rewrite H0; [done | lia].
    + lia.
    + lia.
    + intros k Hk. rewrite Hb1.
      replace (S (blocked s) + k)%nat with (blocked s + S k)%nat by lia.
      apply Hbefore. lia.
    + rewrite Hb1. by replace (S (blocked s) + j)%nat with (blocked s + S j)%nat by lia.
    + exists (t1 ++ t2), s2. rewrite Hrun2, Ht2, Ht1, app_assoc.
      rewrite schedule_app, launched_app, Hsch1, Hl1, Hsch2, Hl2, Hbp2, Hbp1, Hc1.
      repeat split; simpl; rewrite <- ?app_assoc; done.
Qed.

End MainFacts.

Section MainLoading.
Import Main Common.
Variable env : Env.

Lemma instances_of_sourced sources :
  forall acc instances,
    instances_of env sources acc = Ret instances ->
    Forall sourced acc -> Forall sourced instances.
Proof.
  induction sources as [|source rest IH]; intros acc instances H Hacc; simpl in H.
  - by inversion H; subst.
  - destruct (String.eqb (src_type source) "file").
    { apply IH in H; [done|]. apply Forall_app. split; [done|].
      constructor; [|constructor]. split; [by simplify_map_eq|].
      exists source. by simplify_map_eq. }
    destruct (String.eqb (src_type source) "env_var"); [|by apply IH in H].
    destruct (int_of_str env _) as [n|]; [|done].
    apply IH in H; [done|]. apply Forall_app. split; [done|].
    constructor; [|constructor]. split; [by simplify_map_eq|].
    exists source. by simplify_map_eq.
Qed.

Lemma sourced_resolved (global_settings profile : gmap string CfgVal) :
  is_Some (global_settings !! "url") -> sourced profile ->
  resolved global_settings profile.
Proof.
  intros Hu [Hnone [source Hsrc]]. split.
  - by rewrite lookup_union_r.
  - exists source. by apply lookup_union_Some_l.
Qed.

(** The configurations the loader returns are resolved. *)
Lemma load_instance_configurations_resolved s global_settings profiles s' :
  load_instance_configurations env s = (Ret (Some global_settings, Some profiles), s') ->
  Forall (resolved global_settings) profiles.
Proof.
  unfold load_instance_configurations.
  destruct (clean_env_value (getenv env "CAMOUFOX_INSTANCE_URL")) as [url|]; [|done].
  destruct (detect_all_sources env) as [|source sources] eqn:Es; [done|].
  destruct (instances_of env (source :: sources) []) as [instances| |] eqn:Ei; [|done|done].
  unfold bind, log, emit, ret. simpl. intros [= <- <- _].
  apply instances_of_sourced in Ei; [|constructor].
  eapply Forall_impl; [exact Ei|]. intros p. apply sourced_resolved.
  destruct (clean_env_value (getenv env "CAMOUFOX_PROXY")); by simplify_map_eq.
Qed.

(** With no shared URL or no cookie source the loader returns nothing. *)
Lemma load_instance_configurations_nothing s :
  clean_env_value (getenv env "CAMOUFOX_INSTANCE_URL") = None
  \/ detect_all_sources env = [] ->
  exists msg,
    load_instance_configurations env s
    = (Ret (None, None),
       {| browser_processes := browser_processes s; app_running := app_running s;
          alive := alive s; created := created s; blocked := blocked s;
          trace := trace s ++ [ELog Error msg] |}).
Proof.
  unfold load_instance_configurations. intros [H|H].
  - rewrite H. by eexists.
  - destruct (clean_env_value (getenv env "CAMOUFOX_INSTANCE_URL")); rewrite ?H; by eexists.
Qed.

End MainLoading.

(** C7. With no shared target URL or no cookie source, start-up fails:
    [start_browser_instances] logs the errors and returns, no worker process
    is started and the process list and the live processes are untouched (so
    empty, when started from the initial state). *)
Theorem start_browser_instances_nothing_resolved
  (env : Main.Env) (fuel : nat) (s : Main.State) :
  Common.clean_env_value (Main.getenv env "CAMOUFOX_INSTANCE_URL") = None
  \/ Main.detect_all_sources env = [] ->
  exists s' reason,
    Main.start_browser_instances env fuel s = (Ret tt, s')
    /\ Main.trace s' =
         Main.trace s
           ++ [ Main.ELog Main.Info "instance manager starting";
                Main.ELog Main.Error reason;
                Main.ELog Main.Error "no instance configuration found" ]
    /\ launched (Main.trace s') = launched (Main.trace s)
    /\ Main.browser_processes s' = Main.browser_processes s
    /\ Main.alive s' = Main.alive s
    /\ Main.created s' = Main.created s.
Proof.
  intros H. unfold Main.start_browser_instances, bind at 1, Main.log at 1, Main.emit.
  unfold bind at 1.
  destruct (load_instance_configurations_nothing env
              {| Main.browser_processes := Main.browser_processes s;
                 Main.app_running := Main.app_running s; Main.alive := Main.alive s;
                 Main.created := Main.created s; Main.blocked := Main.blocked s;
                 Main.trace := Main.trace s ++ [Main.ELog Main.Info "instance manager starting"] |}
              H) as [reason ->].
  simpl. unfold bind, Main.log, Main.emit, ret. simpl.
  eexists _, reason. split; [reflexivity|]. simpl.
  rewrite <- !app_assoc. simpl. repeat split.
  rewrite launched_app. simpl. by rewrite app_nil_r.
Qed.

Section MainRuntime.
Import Main.
Variable env : Env.

Lemma terminated_app t1 t2 : terminated (t1 ++ t2) = terminated t1 ++ terminated t2.
Proof. induction t1 as [|[] t1 IH]; simpl; by rewrite ?IH. Qed.

Lemma bounded_from_app pending t1 t2 :
  bounded_from pending t1 = true -> bounded_from None t2 = true ->
  bounded_from pending (t1 ++ t2) = true.
Proof.
  revert pending. induction t1 as [|e t1 IH]; intros pending H1 H2; simpl in *.
  - by destruct pending.
  - destruct pending as [p|], e; try done; auto.
    apply andb_true_iff in H1 as [H1 H3]. rewrite H1. simpl. auto.
Qed.

Lemma count_alive_reads procs s :
  count_alive procs s
  = (Ret (length (List.filter (fun p => bool_decide (p ∈ alive s)) procs)), s).
Proof.
  induction procs as [|p procs IH]; [done|].
  cbn [count_alive]. unfold bind, is_alive. rewrite IH. simpl.
  by destruct (bool_decide (p ∈ alive s)).
Qed.

(** What [terminate_all] does to the handles [procs]. *)
Lemma terminate_all_spec procs :
  forall s,
    app_running s = false ->
    exists t s',
      terminate_all env procs s = (Ret tt, s')
      /\ trace s' = trace s ++ t
      /\ browser_processes s' = browser_processes s
      /\ app_running s' = false
      /\ created s' = created s
      /\ alive s' ⊆ alive s
      /\ bounded_waits t = true
      /\ launched t = []
      /\ (forall p, In p procs -> In p (terminated t) \/ p ∉ alive s')
      /\ (forall p, In p (terminated t) -> In p procs /\ p ∈ alive s).
Proof.
  induction procs as [|p procs IH]; intros s Hrun.
  - exists [], s. simpl. rewrite app_nil_r. repeat split; try done.
  - cbn [terminate_all]. unfold bind at 1, is_alive.
    destruct (bool_decide (p ∈ alive s)) eqn:Ealive.
    + apply bool_decide_eq_true in Ealive.
      cbv beta iota delta [bind terminate join try_except_all kill emit block ret]. simpl.
      destruct (join_raises env (blocked s)); simpl;
        match goal with |- context [terminate_all env procs ?s1] =>
          destruct (IH s1) as (t & s' & -> & Ht & Hbp & Hr & Hc & Hal & Hb & Hl & Hin & Hout);
            [simpl; by rewrite Hrun|]
        end; simpl in *.
      all: eexists _, s'; split; [reflexivity|].
      all: rewrite Ht; repeat rewrite <- (app_assoc (trace s)); simpl.
      all: split; [reflexivity|]; simpl.
      all: unfold bounded_waits in *; simpl; rewrite Nat.eqb_refl; simpl.
      all: split; [done|]; split; [done|]; split; [done|].
      all: split; [etrans; [exact Hal|]; simpl; set_solver|].
      all: split; [done|]; split; [done|].
      all: split;
        [ intros q [<-|Hq];
          [ left; by left | destruct (Hin q Hq); [left; by right | by right] ]
        | intros q [<-|Hq];
          [ split; [by left | done]
          | destruct (Hout q Hq) as [? Hq']; split;
            [by right | by apply elem_of_filter in Hq' as [_ ?]] ] ].
    + apply bool_decide_eq_false in Ealive.
      cbv beta iota delta [bind ret].
      destruct (IH s Hrun) as (t & s' & -> & Ht & Hbp & Hr & Hc & Hal & Hb & Hl & Hin & Hout).
      exists t, s'. repeat split; try done.
      * intros q [<-|Hq]; [right; set_solver | by apply Hin].
      * right. by apply Hout.
      * by apply Hout.
Qed.

End MainRuntime.

(** ** The claims about the orchestrator *)

Lemma sample_profile_resolved : resolved sample_settings sample_profile.
Proof.
  split.
  - exists (Main.CStr "https://example.test/app"). reflexivity.
  - exists file_source. reflexivity.
Defined.

(** C5. For [N] resolved configurations and the flag set on entry, the launch
    loop: when no stop request arrives during its sleeps, starts [N]
    processes, 30 seconds apart, with no sleep after the last; when the first
    stop request arrives during the sleep that follows launch [j + 1], starts
    [j + 1 < N] processes and leaves the loop before the next launch. *)
Theorem launch_loop_stagger
  (env : Main.Env) (global_settings : gmap string Main.CfgVal)
  (profiles : list (gmap string Main.CfgVal)) (s : Main.State) :
  Forall (resolved global_settings) profiles ->
  Main.app_running s = true ->
  ((forall j, (j + 1 < length profiles)%nat ->
              Main.stop env (Main.blocked s + j) = false) ->
   exists t s',
     Main.launch_loop env global_settings (length profiles) 1 profiles s = (Ret tt, s')
     /\ Main.trace s' = Main.trace s ++ t
     /\ schedule t = staggered (Main.created s) (length profiles)
     /\ length (launched t) = length profiles
     /\ Main.browser_processes s' = Main.browser_processes s ++ launched t)
  /\ (forall j,
        (j + 1 < length profiles)%nat ->
        (forall k, (k < j)%nat -> Main.stop env (Main.blocked s + k) = false) ->
        Main.stop env (Main.blocked s + j) = true ->
        exists t s',
          Main.launch_loop env global_settings (length profiles) 1 profiles s = (Ret tt, s')
          /\ Main.trace s' = Main.trace s ++ t
          /\ schedule t = staggered (Main.created s) (S j) ++ [Wait 30]
          /\ length (launched t) = S j
          /\ (S j < length profiles)%nat
          /\ Main.browser_processes s' = Main.browser_processes s ++ launched t).
Proof.
  intros Hres Hrun. split.
  - intros Hstop.
    destruct (launch_loop_all env profiles global_settings (length profiles) 1 s
                Hres Hrun eq_refl Hstop)
      as (t & s' & Hl & Ht & Hsch & Hla & Hbp & _).
    exists t, s'. rewrite Hla, length_seq. done.
  - intros j Hj Hbefore Hstop.
    destruct (launch_loop_stopped env profiles j global_settings (length profiles) 1 s
                Hres Hrun eq_refl Hj Hbefore Hstop)
      as (t & s' & Hl & Ht & Hsch & Hla & Hbp & _).
    exists t, s'. rewrite Hla, length_seq. repeat split; try done. lia.
Qed.

Lemma launch_loop_stagger_witness :
  Forall (resolved sample_settings) [sample_profile; sample_profile; sample_profile]
  /\ Main.app_running ready = true
  /\ exists t s',
       Main.launch_loop (deployment [] false) sample_settings 3 1
         [sample_profile; sample_profile; sample_profile] ready = (Ret tt, s')
       /\ Main.trace s' = t
       /\ schedule t = [Launch 0%nat; Wait 30; Launch 1%nat; Wait 30; Launch 2%nat].
Proof.
  assert (Forall (resolved sample_settings)
            [sample_profile; sample_profile; sample_profile]) as Hres
    by (repeat constructor; apply sample_profile_resolved).
  split; [exact Hres|]. split; [reflexivity|].
  destruct (proj1 (launch_loop_stagger (deployment [] false) sample_settings
                     [sample_profile; sample_profile; sample_profile] ready
                     Hres eq_refl))
    as (t & s' & Hl & Ht & Hsch & _); [reflexivity|].
  exists t, s'. split; [exact Hl|]. split; [exact Ht | exact Hsch].
Defined.



Lemma start_browser_instances_nothing_resolved_witness :
  (Common.clean_env_value (Main.getenv bare_env "CAMOUFOX_INSTANCE_URL") = None
   \/ Main.detect_all_sources bare_env = [])
  /\ exists s',
       Main.start_browser_instances bare_env 0 Main.initial = (Ret tt, s')
       /\ Main.browser_processes s' = [] /\ launched (Main.trace s') = [].
Proof.
  split; [by left|].
  destruct (start_browser_instances_nothing_resolved bare_env 0 Main.initial)
    as (s' & reason & Hrun & _ & Hl & Hbp & _); [by left|].
  exists s'. split; [exact Hrun|]. split; [exact Hbp | exact Hl].
Defined.

(** C9, as the code has it.  The health query is read-only: the state is
    left as it was.  It reports the number of handles now in
    [browser_processes] and the number of those that are alive. *)
Theorem health_check_reads (s : Main.State) :
  Main.health_check s
  = (Ret {| Main.status := "healthy";
            Main.browser_instances := length (Main.browser_processes s);
            Main.running_instances :=
              length (List.filter (fun p => bool_decide (p ∈ Main.alive s))
                        (Main.browser_processes s)) |},
     s).
Proof.
  unfold Main.health_check. cbv beta iota delta [bind Main.get_browser_processes].
  by rewrite count_alive_reads.
Qed.

(** C9 as it is stated fails: a worker that was launched, ended and was
    removed by the supervision loop is no longer counted. *)
Lemma health_check_forgets_swept_workers :
  let s := snd (Main.run_server_mode (deployment [file_source] true) 4 Main.initial) in
  fst (Main.run_server_mode (deployment [file_source] true) 4 Main.initial) = Ret tt
  /\ length (launched (Main.trace s)) = 1%nat
  /\ match fst (Main.health_check s) with
     | Ret h => Main.browser_instances h = 0%nat
     | _ => False
     end.
Proof. vm_compute. done. Qed.

(** * Further properties of the sources *)

(** ** Strings *)

Section StringFacts.

Lemma append_cons c a b : String c a +:+ b = String c (a +:+ b).
Proof. reflexivity. Qed.

Lemma append_nil_l a : "" +:+ a = a.
Proof. reflexivity. Qed.

Lemma append_nil_r a : a +:+ "" = a.
Proof. induction a as [|c a IH]; [done|]. by rewrite append_cons, IH. Qed.

Lemma append_assoc a b c : (a +:+ b) +:+ c = a +:+ b +:+ c.
Proof. induction a as [|x a IH]; [done|]. by rewrite !append_cons, IH. Qed.

Lemma occurs_nil c : occurs c "" = false.
Proof. reflexivity. Qed.

Lemma occurs_cons c d s : occurs c (String d s) = Ascii.eqb d c || occurs c s.
Proof.
  unfold occurs. cbn [contains String.prefix].
  destruct (ascii_dec c d) as [->|Hne].
  - rewrite Ascii.eqb_refl. by destruct s.
  - destruct (Ascii.eqb d c) eqn:E; [|done].
    apply Ascii.eqb_eq in E. congruence.
Qed.

Lemma occurs_app c a b : occurs c (a +:+ b) = occurs c a || occurs c b.
Proof.
  induction a as [|d a IH]; [done|].
  rewrite append_cons, !occurs_cons, IH. by rewrite orb_assoc.
Qed.

Lemma lstrip_occurs c s : occurs c (lstrip s) = true -> occurs c s = true.
Proof.
  induction s as [|d s IH]; [done|]. cbn [lstrip].
  destruct (is_space d); [|done].
  intros H. rewrite occurs_cons, (IH H). apply orb_true_r.
Qed.

Lemma rstrip_occurs c s : occurs c (rstrip s) = true -> occurs c s = true.
Proof.
  induction s as [|d s IH]; [done|]. cbn [rstrip].
  destruct (rstrip s) as [|e r] eqn:E.
  - destruct (is_space d); [done|].
    rewrite !occurs_cons, occurs_nil. intros H.
    apply orb_true_iff in H as [->|?]; done.
  - rewrite !(occurs_cons c d). intros H.
    apply orb_true_iff in H as [->|H]; [done|].
    rewrite (IH H). apply orb_true_r.
Qed.

Lemma lstrip_app a b :
  lstrip (a +:+ b) = if String.eqb (lstrip a) "" then lstrip b else lstrip a +:+ b.
Proof.
  induction a as [|c a IH]; [done|].
  rewrite append_cons. cbn [lstrip]. destruct (is_space c); [done|].
  by rewrite append_cons.
Qed.

Lemma lstrip_idem s : lstrip (lstrip s) = lstrip s.
Proof.
  induction s as [|c s IH]; [done|]. cbn [lstrip].
  destruct (is_space c) eqn:E; [done|]. cbn [lstrip]. by rewrite E.
Qed.

Lemma rev_app_spec a b : String.rev_app a b = String.rev a +:+ b.
Proof.
  revert b. induction a as [|c a IH]; intros b; [done|].
  unfold String.rev. cbn [String.rev_app].
  rewrite (IH (String c b)), (IH (String c "")).
  by rewrite append_assoc.
Qed.

Lemma rev_cons c a : String.rev (String c a) = String.rev a +:+ String c "".
Proof. unfold String.rev at 1. cbn [String.rev_app]. apply rev_app_spec. Qed.

Lemma rev_append a b : String.rev (a +:+ b) = String.rev b +:+ String.rev a.
Proof.
  induction a as [|c a IH]; [by rewrite append_nil_r|].
  by rewrite append_cons, !rev_cons, IH, append_assoc.
Qed.

Lemma rev_involutive a : String.rev (String.rev a) = a.
Proof.
  induction a as [|c a IH]; [done|].
  by rewrite rev_cons, rev_append, IH.
Qed.

(** [rstrip] is [lstrip] read from the right. *)
Lemma rstrip_rev s : rstrip s = String.rev (lstrip (String.rev s)).
Proof.
  induction s as [|c s IH]; [done|].
  cbn [rstrip]. rewrite rev_cons, lstrip_app, IH.
  destruct (lstrip (String.rev s)) as [|d r] eqn:E.
  - cbn. destruct (is_space c); reflexivity.
  - cbn [String.eqb]. rewrite rev_append.
    change (String.rev (String c "")) with (String c "").
    destruct (String.rev (String d r)) eqn:E'; [exfalso|reflexivity].
    apply (f_equal String.rev) in E'. rewrite rev_involutive in E'. done.
Qed.

Lemma strip_alt s : strip s = rstrip (lstrip s).
Proof. by rewrite rstrip_rev. Qed.

Lemma rstrip_head c s :
  is_space c = false -> exists r, rstrip (String c s) = String c r.
Proof.
  intros Hc. cbn [rstrip]. destruct (rstrip s); rewrite ?Hc; eauto.
Qed.

Lemma lstrip_rstrip s : lstrip (rstrip s) = rstrip (lstrip s).
Proof.
  induction s as [|c s IH]; [done|].
  cbn [lstrip]. destruct (is_space c) eqn:Hc.
  - rewrite <- IH. cbn [rstrip]. destruct (rstrip s) as [|d r]; rewrite ?Hc; [done|].
    cbn [lstrip]. by rewrite Hc.
  - destruct (rstrip_head c s Hc) as [r ->]. cbn [lstrip]. by rewrite Hc.
Qed.

Lemma rstrip_idem s : rstrip (rstrip s) = rstrip s.
Proof. by rewrite !rstrip_rev, rev_involutive, lstrip_idem. Qed.

Lemma strip_idem s : strip (strip s) = strip s.
Proof.
  rewrite !strip_alt, lstrip_rstrip, lstrip_idem, rstrip_idem. done.
Qed.

Lemma strip_lstrip s : strip (lstrip s) = strip s.
Proof. by rewrite !strip_alt, lstrip_idem. Qed.

Lemma strip_rstrip s : strip (rstrip s) = strip s.
Proof. by rewrite !strip_alt, lstrip_rstrip, rstrip_idem. Qed.

Lemma strip_occurs c s : occurs c (strip s) = true -> occurs c s = true.
Proof. rewrite strip_alt. intros H. by apply lstrip_occurs, rstrip_occurs. Qed.

Lemma strip_no c s : occurs c s = false -> occurs c (strip s) = false.
Proof.
  intros H. destruct (occurs c (strip s)) eqn:E; [|done].
  apply strip_occurs in E. congruence.
Qed.

Lemma lstrip_app_mark a c b :
  is_space c = false -> lstrip (a +:+ String c b) = lstrip a +:+ String c b.
Proof.
  intros Hc. rewrite lstrip_app. destruct (lstrip a) eqn:E; [|done].
  cbn. by rewrite Hc.
Qed.

Lemma rstrip_app_keep a x :
  rstrip x <> "" -> rstrip (a +:+ x) = a +:+ rstrip x.
Proof.
  intros Hx. induction a as [|c a IH]; [done|].
  rewrite !append_cons. cbn [rstrip]. rewrite IH.
  destruct (a +:+ rstrip x) eqn:E; [|done].
  destruct a; [|done]. cbn in E. done.
Qed.

Lemma rstrip_mark c b : is_space c = false -> rstrip (String c b) = String c (rstrip b).
Proof. intros Hc. cbn [rstrip]. destruct (rstrip b); by rewrite ?Hc. Qed.

(** White space around a text that holds a mark is removed on each side of
    the mark. *)
Lemma strip_app_mark a c b :
  is_space c = false ->
  strip (a +:+ String c b) = lstrip a +:+ String c (rstrip b).
Proof.
  intros Hc. rewrite strip_alt, lstrip_app_mark by done.
  rewrite rstrip_app_keep; rewrite rstrip_mark by done; done.
Qed.

Lemma strip_space_cons c s : is_space c = true -> strip (String c s) = strip s.
Proof. intros Hc. rewrite !strip_alt. cbn [lstrip]. by rewrite Hc. Qed.

(** *** Splitting *)

Lemma split_cons sep s : exists piece pieces, split sep s = piece :: pieces.
Proof.
  induction s as [|c s (p & ps & IH)]; cbn [split]; [eauto|].
  destruct (Ascii.eqb c sep); [eauto|]. rewrite IH. eauto.
Qed.

Lemma split_app sep a b :
  split sep (a +:+ String sep b) = split sep a ++ split sep b.
Proof.
  induction a as [|c a IH].
  - rewrite append_nil_l. cbn [split app]. by rewrite Ascii.eqb_refl.
  - rewrite append_cons. cbn [split]. rewrite IH.
    destruct (Ascii.eqb c sep); [done|].
    destruct (split_cons sep a) as (p & ps & ->). done.
Qed.

Lemma split_none sep s : occurs sep s = false -> split sep s = [s].
Proof.
  induction s as [|c s IH]; [done|].
  rewrite occurs_cons. intros [Hc Hs]%orb_false_iff.
  cbn [split]. by rewrite Hc, (IH Hs).
Qed.

Lemma split_pieces sep s : Forall (fun p => occurs sep p = false) (split sep s).
Proof.
  induction s as [|c s IH]; cbn [split].
  - by constructor.
  - destruct (Ascii.eqb c sep) eqn:Hc; [by constructor|].
    destruct (split sep s) as [|p ps]; [repeat constructor; by rewrite occurs_cons, Hc|].
    inversion IH; subst. constructor; [|done].
    by rewrite occurs_cons, Hc.
Qed.

Lemma split_first_found sep s :
  occurs sep s = true ->
  exists a b, split_first sep s = [a; b] /\ s = a +:+ String sep b /\ occurs sep a = false.
Proof.
  induction s as [|c s IH]; [done|].
  rewrite occurs_cons. cbn [split_first].
  destruct (Ascii.eqb c sep) eqn:Hc.
  - apply Ascii.eqb_eq in Hc as ->. intros _. by exists "", s.
  - cbn [orb]. intros (a & b & -> & -> & Ha)%IH.
    exists (String c a), b. by rewrite occurs_cons, Hc.
Qed.

Lemma split_first_app sep a b :
  occurs sep a = false -> split_first sep (a +:+ String sep b) = [a; b].
Proof.
  induction a as [|c a IH].
  - intros _. rewrite append_nil_l. cbn [split_first]. by rewrite Ascii.eqb_refl.
  - rewrite occurs_cons. intros [Hc Ha]%orb_false_iff.
    rewrite append_cons. cbn [split_first]. by rewrite Hc, (IH Ha).
Qed.

End StringFacts.

(** ** Key-value cookie strings *)

Section KvFacts.
Import CookieHandler.
Variable d : string.

(** What one piece of the text adds to the result. *)
Lemma kv_loop_piece p :
  exists one,
    (forall rest acc, kv_loop d (p :: rest) acc = kv_loop d rest (acc ++ one))
    /\ (one = []
        \/ exists a b, strip p = a +:+ String "=" b /\ occurs "=" a = false
             /\ strip a <> "" /\ one = [kv_cookie (strip a) (strip b) d]).
Proof.
  cbn [kv_loop]. destruct (String.eqb (strip p) "") eqn:Hp.
  { exists []. split; [|by left]. intros. by rewrite app_nil_r. }
  change (contains "=" (strip p)) with (occurs "=" (strip p)).
  destruct (occurs "=" (strip p)) eqn:Heq; cbn [negb].
  2:{ exists []. split; [|by left]. intros. by rewrite app_nil_r. }
  destruct (split_first_found _ _ Heq) as (a & b & -> & Hs & Ha).
  destruct (String.eqb (strip a) "") eqn:Hn.
  { exists []. split; [|by left]. intros. by rewrite app_nil_r. }
  exists [kv_cookie (strip a) (strip b) d]. split; [done|].
  right. exists a, b. repeat split; try done.
  intros E. rewrite E in Hn. done.
Qed.

Lemma kv_loop_total l : exists out, forall acc, kv_loop d l acc = Ret (acc ++ out).
Proof.
  induction l as [|p l (out & IH)].
  - exists []. intros. by rewrite app_nil_r.
  - destruct (kv_loop_piece p) as (one & Hone & _).
    exists (one ++ out). intros acc. by rewrite Hone, IH, app_assoc.
Qed.

Lemma kv_loop_app l1 l2 out1 out2 :
  (forall acc, kv_loop d l1 acc = Ret (acc ++ out1)) ->
  (forall acc, kv_loop d l2 acc = Ret (acc ++ out2)) ->
  forall acc, kv_loop d (l1 ++ l2) acc = Ret (acc ++ out1 ++ out2).
Proof.
  revert out1. induction l1 as [|p l1 IH]; intros out1 H1 H2 acc.
  - specialize (H1 []). cbn in H1. injection H1 as <-. apply H2.
  - destruct (kv_loop_piece p) as (one & Hone & _).
    destruct (kv_loop_total l1) as (out1' & Hl1).
    assert (out1 = one ++ out1') as ->.
    { specialize (H1 []). rewrite Hone, Hl1 in H1. by injection H1. }
    cbn [app]. rewrite Hone.
    rewrite (IH out1' Hl1 H2). by rewrite !app_assoc.
Qed.

Lemma kv_cookie_keys name value k :
  is_Some (kv_cookie name value d !! k) <-> k ∈ allowed_keys.
Proof.
  split.
  - intros [v H]. unfold kv_cookie in H.
    repeat (apply lookup_insert_Some in H as [[<- _]|[_ H]]; [set_solver|]).
    apply lookup_singleton_Some in H as [<- _]. set_solver.
  - unfold allowed_keys. rewrite !elem_of_cons, elem_of_nil.
    intros H. repeat (destruct H as [->|H]; [by eexists|]). done.
Qed.

Lemma kv_cookie_well_formed name value :
  complete (kv_cookie name value d) = true /\ same_site_ok (kv_cookie name value d).
Proof. split; [done|]. right; right; left. done. Qed.

Lemma kv_loop_shape l :
  Forall (fun p => occurs ";" p = false) l ->
  exists out,
    (forall acc, kv_loop d l acc = Ret (acc ++ out))
    /\ (length out <= length l)%nat
    /\ Forall (fun pw => exists name value,
                 pw = kv_cookie name value d /\ cookie_name name /\ cookie_value value) out.
Proof.
  induction 1 as [|p l Hp _ (out & IH & Hlen & Hout)].
  - exists []. split; [|split; [done|constructor]]. intros. by rewrite app_nil_r.
  - destruct (kv_loop_piece p) as (one & Hone & Hshape).
    exists (one ++ out). split; [|split].
    + intros acc. by rewrite Hone, IH, app_assoc.
    + rewrite length_app. cbn [length].
      destruct Hshape as [->|(a & b & _ & _ & _ & ->)]; cbn [length]; lia.
    + apply Forall_app. split; [|done].
      destruct Hshape as [->|(a & b & Hs & Ha & Hn & ->)]; [constructor|].
      repeat constructor. exists (strip a), (strip b). split; [done|].
      apply strip_no in Hp. rewrite Hs, occurs_app, occurs_cons in Hp.
      apply orb_false_iff in Hp as [Hpa Hpb]. cbn in Hpb.
      split; [|split].
      * split; [done|]. split; [apply strip_idem|]. split; by apply strip_no.
      * apply strip_idem.
      * by apply strip_no.
Qed.

Lemma split_keeps_absent c sep s :
  occurs c s = false -> Forall (fun p => occurs c p = false) (split sep s).
Proof.
  induction s as [|x s IH]; [by repeat constructor|].
  rewrite occurs_cons. intros [Hx Hs]%orb_false_iff.
  specialize (IH Hs). cbn [split].
  destruct (Ascii.eqb x sep); [by constructor|].
  destruct (split sep s) as [|p ps]; [repeat constructor; by rewrite occurs_cons, Hx|].
  inversion IH; subst. constructor; [|done]. by rewrite occurs_cons, Hx.
Qed.

Lemma kv_loop_no_equals l :
  Forall (fun p => occurs "=" p = false) l -> forall acc, kv_loop d l acc = Ret acc.
Proof.
  induction 1 as [|p l Hp _ IH]; intros acc; [done|].
  cbn [kv_loop]. destruct (String.eqb (strip p) ""); [apply IH|].
  change (contains "=" (strip p)) with (occurs "=" (strip p)).
  rewrite (strip_no _ _ Hp). apply IH.
Qed.

Lemma kv_pair_alone name value :
  occurs ";" name = false -> occurs "=" name = false -> occurs ";" value = false ->
  forall acc,
    kv_loop d (split ";" (name +:+ "=" +:+ value)) acc
    = Ret (acc ++ (if String.eqb (strip name) "" then []
                   else [kv_cookie (strip name) (strip value) d])).
Proof.
  intros Hn1 Hn2 Hv acc.
  change ("=" +:+ value) with (String "=" value).
  rewrite split_none by (by rewrite occurs_app, occurs_cons, Hn1, Hv).
  cbn [kv_loop].
  rewrite (strip_app_mark name "=" value) by done.
  assert (String.eqb (lstrip name +:+ String "=" (rstrip value)) "" = false) as ->.
  { destruct (lstrip name); done. }
  change (contains "=" (lstrip name +:+ String "=" (rstrip value)))
    with (occurs "=" (lstrip name +:+ String "=" (rstrip value))).
  rewrite occurs_app, occurs_cons, Ascii.eqb_refl, orb_true_r. cbn [negb].
  rewrite split_first_app.
  2:{ destruct (occurs "=" (lstrip name)) eqn:E'; [|done].
      apply lstrip_occurs in E'. congruence. }
  rewrite strip_lstrip, strip_rstrip.
  destruct (String.eqb (strip name) ""); cbn [kv_loop]; [by rewrite app_nil_r|done].
Qed.

Lemma kv_loop_leading_space s acc :
  kv_loop d (split ";" (String " " s)) acc = kv_loop d (split ";" s) acc.
Proof.
  cbn [split]. change (Ascii.eqb " " ";") with false. cbn iota.
  destruct (split_cons ";" s) as (p & ps & ->).
  cbn [kv_loop]. by rewrite (strip_space_cons " " p).
Qed.

Lemma kv_header pairs :
  Forall (fun p => cookie_name (fst p) /\ cookie_value (snd p)) pairs ->
  forall acc,
    kv_loop d (split ";" (header_text pairs)) acc
    = Ret (acc ++ map (fun p => kv_cookie (fst p) (snd p) d) pairs).
Proof.
  assert (Hone : forall p, cookie_name (fst p) -> cookie_value (snd p) ->
            forall acc, kv_loop d (split ";" (pair_text p)) acc
                        = Ret (acc ++ [kv_cookie (fst p) (snd p) d])).
  { intros [n v] (Hne & Hn & Hn1 & Hn2) (Hv & Hv1) acc. cbn [fst snd] in *.
    unfold pair_text. cbn [fst snd]. rewrite kv_pair_alone by done.
    rewrite Hn, Hv. destruct (String.eqb n "") eqn:E; [|done].
    apply String.eqb_eq in E. done. }
  induction 1 as [|p pairs [Hp1 Hp2] Hrest IH]; intros acc.
  - cbn. by rewrite app_nil_r.
  - unfold header_text in *. cbn [map String.concat].
    destruct pairs as [|q pairs].
    + cbn [map]. by apply Hone.
    + cbn [map] in *.
      change ("; " +:+ ?x) with (String ";" (String " " x)).
      rewrite split_app.
      pose proof (kv_loop_app (split ";" (pair_text p))
                    (split ";" (String " " (String.concat "; " (pair_text q :: map pair_text pairs))))
                    [kv_cookie (fst p) (snd p) d]
                    (kv_cookie (fst q) (snd q) d
                       :: map (fun p => kv_cookie (fst p) (snd p) d) pairs)) as Happ.
      rewrite Happ; [done|by apply Hone|].
      intros acc'. rewrite kv_loop_leading_space. apply IH.
Qed.

End KvFacts.

Section EditorFailure.
Import CookieHandler.
Variable int_of_str : string -> option Z.

Lemma py_int_outcome v :
  (exists z, py_int int_of_str v = Ret z)
  \/ py_int int_of_str v = Exn TypeError \/ py_int int_of_str v = Exn ValueError.
Proof.
  destruct v as [|b|z|s|r t [z|]]; cbn; eauto.
  destruct (int_of_str s); eauto.
Qed.

Lemma build_outcome cookie :
  (expiry_readable int_of_str cookie /\ exists pw, build int_of_str cookie = Ret pw)
  \/ (~ expiry_readable int_of_str cookie
      /\ (build int_of_str cookie = Exn TypeError
          \/ build int_of_str cookie = Exn ValueError)).
Proof.
  unfold build, set_expires, expiry_readable, marked_session.
  destruct (truthy (default (PyBool false) (cookie !! "session"))).
  { left. split; [by left|eauto]. }
  destruct (cookie !! "expirationDate") as [v|]; [|left; split; [by right|eauto]].
  destruct v as [|b|n|s|r t o]; [left; split; [by right|eauto]|..]; cbv iota;
    match goal with
    | |- context [py_int int_of_str ?v] =>
        destruct (py_int_outcome v) as [[z Hz]|Hv];
        [ left; split; [right; eauto|rewrite Hz; eauto]
        | right; split;
          [ intros [?|[z Hz]]; [done|destruct Hv as [Hv|Hv]; congruence]
          | destruct Hv as [-> | ->]; eauto ] ]
    end.
Qed.

Lemma convert_loop_outcome cookies :
  forall acc,
    (Forall (expiry_readable int_of_str) cookies
     /\ exists out, convert_loop int_of_str cookies acc = Ret out)
    \/ (~ Forall (expiry_readable int_of_str) cookies
        /\ (convert_loop int_of_str cookies acc = Exn TypeError
            \/ convert_loop int_of_str cookies acc = Exn ValueError)).
Proof.
  induction cookies as [|c cookies IH]; intros acc.
  - left. split; [constructor|]. cbn. eauto.
  - cbn [convert_loop].
    destruct (build_outcome c) as [[Hc [pw ->]]|[Hc Hb]].
    + destruct (complete pw).
      * destruct (IH (acc ++ [pw])) as [[HF Hout]|[HF Hout]].
        -- left. split; [by constructor|done].
        -- right. split; [|done]. intros H. apply HF. by inversion H.
      * destruct (IH acc) as [[HF Hout]|[HF Hout]].
        -- left. split; [by constructor|done].
        -- right. split; [|done]. intros H. apply HF. by inversion H.
    + right. split.
      * intros H. apply Hc. by inversion H.
      * destruct Hb as [-> | ->]; eauto.
Qed.

End EditorFailure.

(** X1. [convert_kv_to_playwright] never raises.  It gives at most one
    cookie for each piece between semicolons, and every cookie it gives is
    the fixed eight-key cookie of a name and a value: the name is not empty,
    has no white space around it and holds neither [;] nor [=]; the value
    has no white space around it and holds no [;]; the keys are exactly the
    eight Playwright keys and [sameSite] is one of the Playwright values. *)
Theorem convert_kv_to_playwright_cookies (kv_string default_domain : string) :
  exists out,
    CookieHandler.convert_kv_to_playwright kv_string default_domain = Ret out
    /\ (length out <= length (split ";" kv_string))%nat
    /\ Forall (fun pw =>
                 exists name value,
                   pw = CookieHandler.kv_cookie name value default_domain
                   /\ cookie_name name /\ cookie_value value
                   /\ (forall k, is_Some (pw !! k) <-> k ∈ CookieHandler.allowed_keys)
                   /\ same_site_ok pw) out.
Proof.
  destruct (kv_loop_shape default_domain (split ";" kv_string) (split_pieces ";" kv_string))
    as (out & Hrun & Hlen & Hout).
  exists out. split; [apply (Hrun [])|]. split; [done|].
  eapply Forall_impl; [exact Hout|].
  intros pw (name & value & -> & Hn & Hv). exists name, value.
  split; [done|]. split; [done|]. split; [done|]. split.
  - intros k. apply kv_cookie_keys.
  - apply kv_cookie_well_formed.
Qed.

(** X2. A semicolon joins two cookie strings: the cookies of [a;b] are the
    cookies of [a] followed by the cookies of [b]. *)
Theorem convert_kv_to_playwright_app (a b default_domain : string) :
  exists cookies_a cookies_b,
    CookieHandler.convert_kv_to_playwright a default_domain = Ret cookies_a
    /\ CookieHandler.convert_kv_to_playwright b default_domain = Ret cookies_b
    /\ CookieHandler.convert_kv_to_playwright (a +:+ ";" +:+ b) default_domain
       = Ret (cookies_a ++ cookies_b).
Proof.
  destruct (kv_loop_total default_domain (split ";" a)) as (la & Ha).
  destruct (kv_loop_total default_domain (split ";" b)) as (lb & Hb).
  exists la, lb. unfold CookieHandler.convert_kv_to_playwright.
  split; [apply (Ha [])|]. split; [apply (Hb [])|].
  change (";" +:+ b) with (String ";" b). rewrite split_app.
  apply (kv_loop_app default_domain _ _ la lb Ha Hb []).
Qed.





(** X5. A text without any [=] gives no cookie and no error: the empty
    text, white space, or words separated by semicolons. *)
Theorem convert_kv_to_playwright_no_equals (kv_string default_domain : string) :
  occurs "=" kv_string = false ->
  CookieHandler.convert_kv_to_playwright kv_string default_domain = Ret [].
Proof.
  intros H. apply kv_loop_no_equals. by apply split_keeps_absent.
Qed.

Lemma convert_kv_to_playwright_no_equals_witness :
  CookieHandler.convert_kv_to_playwright " session ; ;token" ".example.test" = Ret [].
Proof.
  exact (convert_kv_to_playwright_no_equals " session ; ;token" ".example.test" eq_refl).
Defined.



(** X8. [parse_headless_mode] gives one of [True], [False] and ['virtual'],
    maps each of these three to itself, and so parsing twice is parsing
    once. *)
Theorem parse_headless_mode_idempotent (headless_setting : PyVal) :
  let mode := Common.parse_headless_mode headless_setting in
  (mode = PyBool true \/ mode = PyBool false \/ mode = PyStr "virtual")
  /\ Common.parse_headless_mode mode = mode
  /\ (forall b, Common.parse_headless_mode (PyBool b) = PyBool b).
Proof.
  cbv zeta.
  assert (Common.parse_headless_mode headless_setting = PyBool true
          \/ Common.parse_headless_mode headless_setting = PyBool false
          \/ Common.parse_headless_mode headless_setting = PyStr "virtual") as H.
  { unfold Common.parse_headless_mode.
    destruct (String.eqb _ "true"); [tauto|]. destruct (String.eqb _ "false"); tauto. }
  split; [done|]. split; [|by intros []].
  destruct H as [-> |[-> | ->]]; reflexivity.
Qed.

(** ** The WS helpers and the page *)

Section WsActionFacts.
Import WsHelper.

Lemma actions_app t1 t2 : actions (t1 ++ t2) = actions t1 ++ actions t2.
Proof. apply List.filter_app. Qed.

Lemma seen_app t1 t2 : seen (t1 ++ t2) = seen t1 ++ seen t2.
Proof.
  induction t1 as [|[c r|f|[] v|l m] t1 IH]; simpl; try done. by rewrite IH.
Qed.

Lemma clicks_app t1 t2 : clicks (t1 ++ t2) = clicks t1 ++ clicks t2.
Proof. apply omap_app. Qed.

Lemma actions_framed f v inner t : framed f v inner t -> actions t = actions inner.
Proof.
  intros ->. unfold actions. simpl. rewrite List.filter_app. simpl. by rewrite app_nil_r.
Qed.

Lemma pointers_framed f v inner t : framed f v inner t -> pointers t = pointers inner.
Proof.
  intros ->. unfold pointers. simpl. rewrite omap_app. simpl. by rewrite app_nil_r.
Qed.

Lemma tidy_seen t : tidy t -> seen t = [].
Proof.
  induction 1 as [|e t He _ IH|inner v t Hp _ IH]; simpl; [done| |].
  - by destruct e as [| |[]|].
  - rewrite seen_app. simpl. rewrite IH, app_nil_r.
    clear -Hp. induction Hp as [|e t He _ IH]; [done|]. by destruct e as [| |[]|].
Qed.

Lemma seen_status s inner t :
  framed FGetWsStatus (PyStr s) inner t -> tidy inner -> seen t = [PyStr s].
Proof.
  intros -> Hi. simpl. rewrite seen_app, (tidy_seen _ Hi). done.
Qed.

(** A run has one trace increment only, so two descriptions of it combine. *)
Lemma Exec_conj {A} (m : M World A) w Q1 Q2 :
  Exec m w Q1 -> Exec m w Q2 -> Exec m w (fun o t w' => Q1 o t w' /\ Q2 o t w').
Proof.
  intros (t1 & (E1 & N1 & C1) & H1) (t2 & (E2 & _) & H2).
  rewrite E1 in E2. apply app_inv_head in E2 as <-.
  exists t1. split; [by repeat split|by split].
Qed.

End WsActionFacts.

#[local] Hint Rewrite actions_app seen_app clicks_app : trace.

Section WsQuiet.
Import WsHelper.
Variable env : nat -> Answer.
Variable logger : bool.

Lemma get_preview_frame_acts w :
  Exec (get_preview_frame env logger) w (fun o t w' => actions t = []).
Proof.
  unfold get_preview_frame, traced, frame_locator. repeat step; done.
Qed.

Lemma get_ws_status_acts w :
  Exec (get_ws_status env logger) w (fun o t w' => actions t = []).
Proof.
  unfold get_ws_status, traced, is_visible, text_content. do 5 step.
  eapply Exec_mono; [apply get_preview_frame_acts|]; simpl.
  intros o t w' _ _ Ht.
  destruct o as [[|]|e|]; simpl; try destruct (is_Exception e); repeat step.
  all: autorewrite with trace; simpl; by rewrite ?Ht.
Qed.

Lemma click_button_acts f label w :
  Exec (click_button env logger f label) w
    (fun o t w' => forall b, o = Ret b -> pressed label b (actions t)).
Proof.
  unfold click_button, traced, count, is_visible, click. do 5 step.
  eapply Exec_mono; [apply get_preview_frame_acts|]; simpl.
  intros o t w' _ _ Ht.
  destruct o as [[|]|e|]; simpl; try destruct (is_Exception e); repeat step.
  all: autorewrite with trace; simpl; rewrite ?Ht; simpl.
  all: intros b [= <-]; simpl; auto.
Qed.

End WsQuiet.

Section WsPolling.
Import WsHelper.
Variable env : nat -> Answer.
Variable logger : bool.

Local Arguments wait_loop : simpl never.

Lemma observed_connected located shown content :
  observed_status located shown content = "CONNECTED"
  <-> shows_connected located shown content.
Proof.
  unfold observed_status, shows_connected, status_of_text.
  destruct (ans_raises located); [split; [done|by intros [? _]]|].
  destruct (ans_raises shown); [split; [done|by intros (_ & ? & _)]|].
  destruct (ans_bool shown); simpl; [|split; [done|by intros (_ & _ & ? & _)]].
  destruct (ans_raises content); [split; [done|by intros (_ & _ & _ & ? & _)]|].
  destruct (ans_text content) as [text|];
    [|split; [done|by intros (_ & _ & _ & _ & ? & ? & _)]].
  destruct (String.eqb text "") eqn:E.
  { apply String.eqb_eq in E as ->. split; [done|].
    by intros (_ & _ & _ & _ & ? & [= <-] & ?). }
  destruct (contains "CONNECTED" (upper text)) eqn:Hc.
  { split; [|done]. intros _. repeat split; try done. by exists text. }
  split.
  - destruct (contains "IDLE" (upper text)); [done|].
    destruct (contains "CONNECTING" (upper text)); done.
  - intros (_ & _ & _ & _ & ? & [= <-] & ?). congruence.
Qed.

Lemma get_ws_status_sample w :
  Exec (get_ws_status env logger) w
    (fun o t w' =>
       exists s, o = Ret s /\ closed t /\ samples t = 1%nat
                 /\ last_status t = Some (PyStr s) /\ seen t = [PyStr s]
                 /\ actions t = [] /\ slept t = 0).
Proof.
  eapply Exec_mono;
    [apply (Exec_conj _ _ _ _ (get_ws_status_spec env logger w)
              (get_ws_status_acts env logger w))|].
  simpl. intros o t w' _ _ [(s & inner & -> & Hf & Htidy & Hs & _) Hacts].
  exists s. destruct (status_frame _ _ _ Hf Htidy) as (? & ? & ?).
  repeat split; try done.
  - by apply (seen_status s inner).
  - by rewrite (slept_framed _ _ _ _ Hf).
Qed.

Lemma wait_loop_result fuel :
  forall start_time timeout w,
    Exec (wait_loop env logger fuel start_time timeout) w
      (fun o t w' =>
         only_naps t
         /\ forall ok, o = Ret ok ->
              (ok = true -> last_status t = Some (PyStr "CONNECTED"))
              /\ (ok = false -> ~ In (PyStr "CONNECTED") (seen t))).
Proof.
  unfold only_naps.
  induction fuel as [|fuel IH]; intros start_time timeout w;
    rewrite wait_loop_unfold.
  - repeat step; try apply Exec_out_of_fuel; simpl;
      (split; [apply List.Forall_nil|]); intros ok [= <-]; split; [done|intros _ []].
  - step. step. step;
      [|step; (split; [apply List.Forall_nil|]); intros ok [= <-]; split; [done|intros _ []]].
    step. eapply Exec_mono; [apply get_ws_status_sample|]. simpl.
    intros o t w' _ _ (s & -> & Hc & Hn & Hl & Hseen & Hacts & Hsl).
    step.
    + step. autorewrite with trace. rewrite Hacts. split; [apply List.Forall_nil|].
      intros ok [= <-]. split; [|done]. intros _.
      apply String.eqb_eq in Heqb0 as ->. done.
    + step. step. eapply Exec_mono; [apply IH|]. simpl.
      intros o t' w'' _ _ [Hnaps Hres].
      autorewrite with trace. rewrite Hacts. simpl. split.
      * constructor; [done|exact Hnaps].
      * intros ok ->. destruct (Hres ok eq_refl) as [Ht Hf]. split.
        -- intros Hok. rewrite last_status_app. simpl. by rewrite (Ht Hok).
        -- intros Hok. rewrite Hseen. simpl. intros [[= E]|Hin].
           ++ subst s. done.
           ++ by apply (Hf Hok).
Qed.

Lemma wait_for_ws_connected_result fuel timeout w :
  Exec (wait_for_ws_connected env logger fuel timeout) w
    (fun o t w' =>
       only_naps t
       /\ forall ok, o = Ret ok ->
            (ok = true -> last_status t = Some (PyStr "CONNECTED"))
            /\ (ok = false -> ~ In (PyStr "CONNECTED") (seen t))).
Proof.
  unfold wait_for_ws_connected, traced. do 5 step.
  eapply Exec_mono; [apply wait_loop_result|]. simpl.
  intros o t w' _ _ [Hnaps Hres]. unfold only_naps in *.
  destruct o as [ok| |]; repeat step; autorewrite with trace; simpl;
    (split; [by rewrite ?app_nil_r|]); try done.
  intros ok' [= <-]. destruct (Hres ok eq_refl) as [Ht Hf]. split.
  - intros Hok. rewrite !last_status_app. simpl. by rewrite (Ht Hok).
  - intros Hok. rewrite ?app_nil_r. by apply Hf.
Qed.

End WsPolling.

Section Clamp.

Lemma clamp_between (lo hi v : Q) :
  (lo <= hi)%Q -> (lo <= Qmax lo (Qmin hi v) <= hi)%Q.
Proof.
  intros H. split; [apply Q.le_max_l|].
  apply Q.max_lub; [done|apply Q.le_min_l].
Qed.

Lemma trunc_below (a : Z) (q : Q) : 0 < a -> a <= trunc q -> (inject_Z a <= q)%Q.
Proof.
  unfold trunc, Qle. destruct q as [n d]. simpl. intros Ha H.
  assert (0 <= n) as Hn.
  { destruct (Z_lt_le_dec n 0) as [Hneg|]; [|done].
    assert (n ÷ Z.pos d <= 0 ÷ Z.pos d) by (apply Z.quot_le_mono; lia).
    rewrite Z.quot_0_l in H0 by lia. lia. }
  pose proof (Z.mul_quot_le n (Z.pos d) Hn ltac:(lia)). nia.
Qed.

End Clamp.

Section WsBoxed.
Import WsHelper.
Variable env : nat -> Answer.
Variable logger : bool.
Variable b : Box.
Hypothesis Hbox : reports_box env b.

Local Arguments dismiss_walk : simpl never.

Lemma dismiss_walk_unfold steps curr_x curr_y :
  dismiss_walk env logger (S steps) b curr_x curr_y =
    (do delta_x <-- randint env (-30) 30;
     do delta_y <-- randint env (-20) 20;
     let curr_x :=
       Qmax (box_x b + 20) (Qmin (box_x b + box_width b - 20) (curr_x + inject_Z delta_x)) in
     let curr_y :=
       Qmax (box_y b + 20) (Qmin (box_y b + box_height b - 20) (curr_y + inject_Z delta_y)) in
     do _ <-- mouse_move env curr_x curr_y;
     do _ <-- sleep env 50;
     do gone <-- modal_gone env 100;
     if (gone : bool) then
       do _ <-- log logger Info "interaction-modal closed";
       ret (Some true)
     else dismiss_walk env logger steps b curr_x curr_y).
Proof. reflexivity. Qed.

Lemma dismiss_walk_band steps :
  (box_x b + 20 <= box_x b + box_width b - 20)%Q ->
  (box_y b + 20 <= box_y b + box_height b - 20)%Q ->
  forall curr_x curr_y w,
    Exec (dismiss_walk env logger steps b curr_x curr_y) w
      (fun o t w' => Forall (in_band b) (pointers t) /\ Forall walk_action (actions t)).
Proof.
  intros Hx Hy.
  induction steps as [|steps IH]; intros curr_x curr_y w.
  - apply Exec_ret. split; constructor.
  - rewrite dismiss_walk_unfold. cbv zeta.
    unfold modal_gone, mouse_move, count, is_visible.
    repeat step.
    all: try (eapply Exec_mono; [apply IH|]; simpl; intros o t w' _ _ [Hp Ha]).
    all: autorewrite with trace; simpl.
    all: split.
    all: repeat (apply List.Forall_cons; [first [exact I | split; by apply clamp_between]|]).
    all: try done; try apply List.Forall_nil.
Qed.

Lemma dismiss_interaction_modal_band w :
  Exec (dismiss_interaction_modal env logger) w
    (fun o t w' =>
       Forall (in_band b) (pointers t)
       /\ Forall walk_action (actions t)
       /\ (trunc (box_width b) < 100 \/ trunc (box_height b) < 100 -> pointers t = [])).
Proof.
  unfold dismiss_interaction_modal, traced.
  unfold modal_gone, count, is_visible, bounding_box.
  repeat step.
  all: try match goal with
         | H : ans_box (env ?k) = Some ?b' |- _ =>
             assert (b' = b) by (rewrite (Hbox k) in H; congruence); subst b'
         | H : ans_box (env ?k) = None |- _ => rewrite (Hbox k) in H; discriminate
         end.
  all: try (eapply Exec_mono;
            [apply (dismiss_walk_band 30);
             [ pose proof (trunc_below 100 (box_width b) ltac:(lia) ltac:(lia)) as Hw;
               change (inject_Z 100) with 100%Q in Hw; lra
             | pose proof (trunc_below 100 (box_height b) ltac:(lia) ltac:(lia)) as Hh;
               change (inject_Z 100) with 100%Q in Hh; lra ]|];
            simpl; intros o t w' _ _ [Hp Ha];
            destruct o as [[res|]|e|]; simpl; try destruct (is_Exception e);
            repeat step).
  all: autorewrite with trace; simpl.
  all: split; [|split].
  all: try (intros; lia).
  all: try done.
  all: try apply List.Forall_nil.
  all: repeat (apply List.Forall_app; split); try done.
  all: repeat (apply List.Forall_cons; [exact I|]); try done.
  all: try apply List.Forall_nil.
Qed.

End WsBoxed.

Section WsClickPath.
Import WsHelper.
Variable env : nat -> Answer.
Variable logger : bool.

Local Arguments click_walk : simpl never.

Lemma click_walk_unfold steps sl sr st sb curr_x curr_y :
  click_walk env (S steps) sl sr st sb curr_x curr_y =
    (do delta_x <-- randint env (-30) 30;
     do delta_y <-- randint env (-20) 20;
     let curr_x := Z.max (trunc sl) (Z.min (trunc sr) (curr_x + delta_x)) in
     let curr_y := Z.max (trunc st) (Z.min (trunc sb) (curr_y + delta_y)) in
     do _ <-- mouse_move env (inject_Z curr_x) (inject_Z curr_y);
     do _ <-- sleep env 50;
     click_walk env steps sl sr st sb curr_x curr_y).
Proof. reflexivity. Qed.

(** A walk that comes to its end made [steps] moves, slept 50 ms after
    each, clicked nowhere, and ends where its last move went. *)
Lemma click_walk_path steps :
  forall sl sr st sb curr_x curr_y w,
    Exec (click_walk env steps sl sr st sb curr_x curr_y) w
      (fun o t w' =>
         clicks t = []
         /\ forall x y, o = Ret (x, y) ->
              length (pointers t) = steps /\ moves t = steps
              /\ slept t = 50 * Z.of_nat steps
              /\ last (pointers t)
                 = match steps with
                   | O => None
                   | S _ => Some (inject_Z x, inject_Z y)
                   end
              /\ (steps = 0%nat -> x = curr_x /\ y = curr_y)).
Proof.
  induction steps as [|steps IH]; intros sl sr st sb curr_x curr_y w.
  - apply Exec_ret. split; [done|]. intros x y [= <- <-]. by repeat split.
  - rewrite click_walk_unfold. cbv zeta. unfold mouse_move.
    repeat step.
    all: try (eapply Exec_mono; [apply IH|]; simpl;
              intros o t w' _ _ [Hc Hres]).
    all: autorewrite with trace; simpl; rewrite ?Hc.
    all: split; [done|]; try done.
    intros x y ->. destruct (Hres x y eq_refl) as (Hl & Hm & Hs & Hlast & Hzero).
    rewrite Hl, Hm, Hs. split; [done|]. split; [done|]. split; [lia|].
    split; [|done].
    rewrite last_cons, Hlast. destruct steps as [|steps']; [|done].
    destruct (Hzero eq_refl) as [-> ->]. done.
Qed.

Lemma click_in_iframe_path w :
  Exec (click_in_iframe env logger) w
    (fun o t w' =>
       (o = Ret true ->
        exists path p,
          pointers t = path ++ [p; p]
          /\ moves t = S (length path) /\ (3 <= moves t <= 6)%nat
          /\ clicks t = [p]
          /\ slept t = 50 * Z.of_nat (moves t))
       /\ (o = Ret false -> clicks t = [])).
Proof.
  unfold click_in_iframe, traced.
  unfold count, bounding_box, mouse_click.
  repeat step.
  all: try (eapply Exec_mono; [apply click_walk_path|]; simpl;
            intros o t w' _ _ [Hc Hres];
            destruct o as [[x y]|e|]; simpl; try destruct (is_Exception e);
            repeat step).
  all: autorewrite with trace; simpl; rewrite ?Hc; simpl.
  all: split; try done.
  intros _. destruct (Hres x y eq_refl) as (Hl & Hm & Hs & Hlast & _).
  assert (exists n, Z.to_nat r1 = S n /\ (2 <= n <= 5)%nat) as (n & Hn & Hn2).
  { exists (Nat.pred (Z.to_nat r1)). lia. }
  rewrite Hn in *.
  apply last_Some in Hlast as [path Hpath].
  exists path, (inject_Z x, inject_Z y).
  rewrite Hpath in *. rewrite length_app in Hl. simpl in Hl.
  rewrite Hm, Hs. rewrite <- app_assoc. simpl.
  repeat split; try done; lia.
Qed.

End WsClickPath.

Section WsRunsMore.
Import WsHelper.
Variable env : nat -> Answer.
Variable logger : bool.

Lemma click_button_run f label w :
  exists b w' inner,
    click_button env logger f label w = (Ret b, w')
    /\ trace w' = trace w ++ ECall f :: inner ++ [EReturn f (PyBool b)]
    /\ pressed label b (actions inner).
Proof.
  destruct (Exec_outcome _ _ _
              (Exec_conj _ _ _ _ (click_button_spec env logger f label w)
                 (click_button_acts env logger f label w)))
    as (o & t & w' & Hrun & Ht & (b & inner & -> & Hf & _) & Hacts).
  exists b, w', inner. split; [done|]. rewrite Ht, Hf. split; [done|].
  rewrite <- (actions_framed _ _ _ _ Hf). by apply Hacts.
Qed.

Lemma only_naps_slept t : only_naps t -> 0 <= slept t.
Proof.
  unfold only_naps, actions.
  induction t as [|e t IH]; [done|]. cbn [List.filter].
  destruct (is_action e) eqn:E; intros H.
  - inversion H as [|? ? He Hrest]; subst. specialize (IH Hrest). simpl. lia.
  - specialize (IH H). destruct e as [[] ?| | |]; simpl in *; try discriminate; lia.
Qed.

Lemma moves_pointers t : (moves t <= length (pointers t))%nat.
Proof.
  unfold pointers.
  induction t as [|e t IH]; [done|].
  destruct e as [[] ?| | |]; cbn [moves omap pointer_at option_bind list_omap length];
    unfold omap in *; try lia.
  all: simpl; lia.
Qed.

End WsRunsMore.

(** X9. [click_disconnect] and [click_connect] never raise.  Each returns
    [True] exactly when its one click on its own button went through, and
    then sleeps one second; when it returns [False] it did nothing to the
    page, or its click raised.  It presses no other button and never moves
    the pointer. *)
Theorem click_buttons_press (env : nat -> WsHelper.Answer) (logger : bool)
  (w : WsHelper.World) :
  (exists b w' inner,
     WsHelper.click_disconnect env logger w = (Ret b, w')
     /\ WsHelper.trace w' =
          WsHelper.trace w
            ++ WsHelper.ECall WsHelper.FClickDisconnect :: inner
            ++ [WsHelper.EReturn WsHelper.FClickDisconnect (PyBool b)]
     /\ pressed "Disconnect" b (actions inner))
  /\ (exists b w' inner,
        WsHelper.click_connect env logger w = (Ret b, w')
        /\ WsHelper.trace w' =
             WsHelper.trace w
               ++ WsHelper.ECall WsHelper.FClickConnect :: inner
               ++ [WsHelper.EReturn WsHelper.FClickConnect (PyBool b)]
        /\ pressed "Connect" b (actions inner)).
Proof. split; apply click_button_run. Qed.

(** X10. [get_ws_status] only looks: it clicks nothing, moves nothing and
    does not sleep.  It returns CONNECTED exactly when the indicator is
    found, is visible and its text holds CONNECTED in some letter case,
    whatever else the text holds. *)
Theorem get_ws_status_connected (env : nat -> WsHelper.Answer) (logger : bool)
  (w : WsHelper.World) :
  let located := env (WsHelper.calls w) in
  let shown := env (S (WsHelper.calls w)) in
  let content := env (S (S (WsHelper.calls w))) in
  exists s w' inner,
    WsHelper.get_ws_status env logger w = (Ret s, w')
    /\ WsHelper.trace w' =
         WsHelper.trace w
           ++ WsHelper.ECall WsHelper.FGetWsStatus :: inner
           ++ [WsHelper.EReturn WsHelper.FGetWsStatus (PyStr s)]
    /\ actions inner = []
    /\ (s = "CONNECTED" <-> shows_connected located shown content).
Proof.
  intros located shown content.
  destruct (Exec_outcome _ _ _
              (Exec_conj _ _ _ _ (get_ws_status_spec env logger w)
                 (get_ws_status_acts env logger w)))
    as (o & t & w' & Hrun & Ht & (s & inner & -> & Hf & _ & _ & Hs) & Hacts).
  exists s, w', inner. split; [done|]. rewrite Ht, Hf. split; [done|].
  split; [by rewrite <- (actions_framed _ _ _ _ Hf)|].
  rewrite Hs. apply observed_connected.
Qed.

(** X11. [wait_for_ws_connected] with a time-out of [timeout] seconds
    returns, after at most [timeout] polls and one second of sleep after
    every poll that did not read CONNECTED; it does nothing else to the
    page.  It returns [True] when its last poll read CONNECTED and [False]
    when no poll did; with a time-out of zero or less it returns [False]
    without polling. *)
Theorem wait_for_ws_connected_polls (env : nat -> WsHelper.Answer) (logger : bool)
  (fuel : nat) (timeout : Z) (w : WsHelper.World) :
  (Z.to_nat timeout <= fuel)%nat ->
  exists ok w' inner,
    WsHelper.wait_for_ws_connected env logger fuel timeout w = (Ret ok, w')
    /\ WsHelper.trace w' =
         WsHelper.trace w
           ++ WsHelper.ECall WsHelper.FWaitForWsConnected :: inner
           ++ [WsHelper.EReturn WsHelper.FWaitForWsConnected (PyBool ok)]
    /\ (samples inner <= Z.to_nat timeout)%nat
    /\ slept inner = 1000 * (Z.of_nat (samples inner) - (if ok then 1 else 0))
    /\ only_naps inner
    /\ (ok = true -> last_status inner = Some (PyStr "CONNECTED"))
    /\ (ok = false -> ~ In (PyStr "CONNECTED") (seen inner))
    /\ (0 < timeout -> (1 <= samples inner)%nat)
    /\ (timeout <= 0 -> ok = false /\ samples inner = 0%nat).
Proof.
  intros Hfuel.
  destruct (Exec_outcome _ _ _
              (Exec_conj _ _ _ _ (wait_for_ws_connected_spec env logger fuel timeout w Hfuel)
                 (wait_for_ws_connected_result env logger fuel timeout w)))
    as (o & t & w' & Hrun & Ht
        & (ok & inner & -> & Hf & _ & Hn & Hs & Hpend & _) & Hnaps & Hres).
  destruct (Hres ok eq_refl) as [Htrue Hfalse].
  assert (only_naps inner) as Hnaps'.
  { unfold only_naps in *. by rewrite <- (actions_framed _ _ _ _ Hf). }
  assert (last_status t = last_status inner) as Hlast.
  { rewrite Hf. simpl. rewrite last_status_app. simpl. by destruct (last_status inner). }
  assert (seen t = seen inner) as Hseen.
  { rewrite Hf. simpl. rewrite seen_app. simpl. by rewrite app_nil_r. }
  exists ok, w', inner. split; [done|]. rewrite Ht, Hf. split; [done|].
  split; [done|]. split; [done|]. split; [done|].
  rewrite <- Hlast, <- Hseen. split; [done|]. split; [done|]. split.
  - intros Hpos. apply Hpend. apply Z.ltb_lt. lia.
  - intros Hneg. assert (samples inner = 0%nat) as H0 by lia. split; [|done].
    pose proof (only_naps_slept _ Hnaps') as Hge.
    rewrite Hs, H0 in Hge. destruct ok; [simpl in Hge; lia|done].
Qed.

Lemma wait_for_ws_connected_polls_witness :
  (Z.to_nat 2 <= 2)%nat
  /\ exists w', WsHelper.wait_for_ws_connected quiet_page false 2 2 start_world
                = (Ret false, w')
                /\ slept (WsHelper.trace w') = 2000.
Proof.
  split; [simpl; lia|].
  destruct (wait_for_ws_connected_polls quiet_page false 2 2 start_world ltac:(simpl; lia))
    as (ok & w' & inner & Hrun & _).
  vm_compute in Hrun. injection Hrun as <- <-.
  eexists. split; reflexivity.
Defined.



(** X13. When the nested document is less than 100 pixels wide or high,
    [dismiss_interaction_modal] gives up: it returns [False] and never moves
    the pointer, whether or not the overlay is there. *)
Theorem dismiss_interaction_modal_small_iframe (env : nat -> WsHelper.Answer)
  (logger : bool) (b : WsHelper.Box) (w : WsHelper.World) :
  reports_box env b ->
  trunc (WsHelper.box_width b) < 100 \/ trunc (WsHelper.box_height b) < 100 ->
  exists w' inner,
    WsHelper.dismiss_interaction_modal env logger w = (Ret false, w')
    /\ WsHelper.trace w' =
         WsHelper.trace w
           ++ WsHelper.ECall WsHelper.FDismissInteractionModal :: inner
           ++ [WsHelper.EReturn WsHelper.FDismissInteractionModal (PyBool false)]
    /\ pointers inner = [].
Proof.
  intros Hbox Hsmall.
  destruct (Exec_outcome _ _ _
              (Exec_conj _ _ _ _ (dismiss_interaction_modal_spec env logger w)
                 (dismiss_interaction_modal_band env logger b Hbox w)))
    as (o & t & w' & Hrun & Ht
        & (r & inner & -> & Hf & _ & _ & _ & Hg & _) & _ & _ & Hnone).
  specialize (Hnone Hsmall). rewrite (pointers_framed _ _ _ _ Hf) in Hnone.
  assert (r = false) as ->.
  { destruct (first_gone 0 inner) as [j|] eqn:E; [|done].
    destruct Hg as [_ ->]. apply first_gone_pos in E.
    pose proof (moves_pointers inner) as Hm. rewrite Hnone in Hm. simpl in Hm. lia. }
  exists w', inner. split; [done|]. by rewrite Ht, Hf.
Qed.

Lemma dismiss_interaction_modal_small_iframe_witness :
  reports_box narrow_page narrow_box
  /\ (trunc (WsHelper.box_width narrow_box) < 100
      \/ trunc (WsHelper.box_height narrow_box) < 100)
  /\ exists w', WsHelper.dismiss_interaction_modal narrow_page false start_world
                = (Ret false, w').
Proof.
  assert (reports_box narrow_page narrow_box) as Hbox by (intros k; reflexivity).
  assert (trunc (WsHelper.box_width narrow_box) < 100
          \/ trunc (WsHelper.box_height narrow_box) < 100) as Hsmall
    by (left; vm_compute; reflexivity).
  split; [exact Hbox|]. split; [exact Hsmall|].
  destruct (dismiss_interaction_modal_small_iframe narrow_page false narrow_box
              start_world Hbox Hsmall) as (w' & inner & Hrun & _).
  exists w'. exact Hrun.
Defined.

(** X14. When the four bounds of the safe region are whole numbers of
    pixels, [click_in_iframe] keeps the pointer inside the safe region: every
    move and the click land in it. *)
Theorem click_in_iframe_whole_pixels (env : nat -> WsHelper.Answer)
  (logger : bool) (b : WsHelper.Box) (w : WsHelper.World) :
  reports_box env b -> whole_bounds b ->
  exists r w' inner,
    WsHelper.click_in_iframe env logger w = (Ret r, w')
    /\ WsHelper.trace w' =
         WsHelper.trace w
           ++ WsHelper.ECall WsHelper.FClickInIframe :: inner
           ++ [WsHelper.EReturn WsHelper.FClickInIframe (PyBool r)]
    /\ Forall (in_safe_region b) (pointers inner).
Proof.
  intros Hbox (Hl & Hr & Ht & Hb).
  destruct (Exec_outcome _ _ _ (click_in_iframe_spec env logger w))
    as (o & t & w' & Hrun & Htr & r & inner & -> & -> & _ & Hcut & _).
  exists r, w', inner. split; [done|]. split; [done|].
  destruct (Hcut b (Hbox _)) as [Hin _].
  eapply Forall_impl; [exact Hin|].
  intros [x y]. unfold in_cut_region, in_safe_region. simpl.
  by rewrite Hl, Hr, Ht, Hb.
Qed.

Lemma click_in_iframe_whole_pixels_witness :
  reports_box square_page square_box /\ whole_bounds square_box
  /\ exists r w' inner,
       WsHelper.click_in_iframe square_page false start_world = (Ret r, w')
       /\ WsHelper.trace w' =
            WsHelper.ECall WsHelper.FClickInIframe :: inner
            ++ [WsHelper.EReturn WsHelper.FClickInIframe (PyBool r)]
       /\ Forall (in_safe_region square_box) (pointers inner).
Proof.
  assert (reports_box square_page square_box) as Hbox by (intros k; reflexivity).
  assert (whole_bounds square_box) as Hwhole by (repeat split).
  split; [exact Hbox|]. split; [exact Hwhole|].
  destruct (click_in_iframe_whole_pixels square_page false square_box start_world
              Hbox Hwhole) as (r & w' & inner & Hrun & Ht & Hsafe).
  exists r, w', inner. split; [exact Hrun|]. split; [exact Ht|exact Hsafe].
Defined.

(** X15. [click_in_iframe] never raises.  When it returns [True] it moved
    the pointer between three and six times, slept 50 ms after each move,
    and then clicked once, at the point of its last move; when it returns
    [False] no click went through. *)
Theorem click_in_iframe_clicks_once (env : nat -> WsHelper.Answer)
  (logger : bool) (w : WsHelper.World) :
  exists r w' inner,
    WsHelper.click_in_iframe env logger w = (Ret r, w')
    /\ WsHelper.trace w' =
         WsHelper.trace w
           ++ WsHelper.ECall WsHelper.FClickInIframe :: inner
           ++ [WsHelper.EReturn WsHelper.FClickInIframe (PyBool r)]
    /\ if r then
         exists path p,
           pointers inner = path ++ [p; p]
           /\ moves inner = S (length path) /\ (3 <= moves inner <= 6)%nat
           /\ clicks inner = [p]
           /\ slept inner = 50 * Z.of_nat (moves inner)
       else clicks inner = [].
Proof.
  destruct (Exec_outcome _ _ _
              (Exec_conj _ _ _ _ (click_in_iframe_spec env logger w)
                 (click_in_iframe_path env logger w)))
    as (o & t & w' & Hrun & Ht & (r & inner & -> & Hf & _) & Htrue & Hfalse).
  exists r, w', inner. split; [done|]. rewrite Ht, Hf. split; [done|].
  assert (pointers t = pointers inner) as Hp by apply (pointers_framed _ _ _ _ Hf).
  assert (moves t = moves inner) as Hm.
  { rewrite Hf. simpl. rewrite moves_app. simpl. lia. }
  assert (clicks t = clicks inner) as Hc.
  { rewrite Hf. unfold clicks. simpl. rewrite omap_app. simpl. by rewrite app_nil_r. }
  assert (slept t = slept inner) as Hs by apply (slept_framed _ _ _ _ Hf).
  rewrite <- Hp, <- Hm, <- Hc, <- Hs.
  destruct r; [by apply Htrue|by apply Hfalse].
Qed.

(** ** The orchestrator: loading, supervision, shutdown *)

Section MainLoadingMore.
Import Main Common.
Variable env : Env.

Lemma file_instance_keys (a b : CfgVal) k :
  is_Some (({[ "cookie_file" := a; "cookie_source" := b ]} : Config) !! k) ->
  k ∈ instance_keys.
Proof.
  intros [v H]. unfold instance_keys.
  apply lookup_insert_Some in H as [[<- _]|[_ H]]; [set_solver|].
  apply lookup_singleton_Some in H as [<- _]. set_solver.
Qed.

Lemma env_instance_keys (a b c : CfgVal) k :
  is_Some (({[ "cookie_file" := a; "env_cookie_index" := b; "cookie_source" := c ]}
            : Config) !! k) ->
  k ∈ instance_keys.
Proof.
  intros [v H]. unfold instance_keys.
  apply lookup_insert_Some in H as [[<- _]|[_ H]]; [set_solver|].
  apply lookup_insert_Some in H as [[<- _]|[_ H]]; [set_solver|].
  apply lookup_singleton_Some in H as [<- _]. set_solver.
Qed.

Lemma instance_keys_free profile k :
  (forall k, is_Some (profile !! k) -> k ∈ instance_keys) ->
  k ∉ instance_keys -> (profile : Config) !! k = None.
Proof.
  intros H Hk. destruct (profile !! k) eqn:E; [|done].
  exfalso. apply Hk, H. by rewrite E.
Qed.

Lemma instances_of_spec sources :
  forall acc,
    (Forall (numbered env) sources
     /\ exists made, instances_of env sources acc = Ret (acc ++ made)
                     /\ Forall2 (made_from env) (List.filter known sources) made)
    \/ (~ Forall (numbered env) sources
        /\ instances_of env sources acc = Exn ValueError).
Proof.
  induction sources as [|source rest IH]; intros acc.
  - left. split; [constructor|]. exists []. simpl. rewrite app_nil_r. split; [done|constructor].
  - cbn [instances_of List.filter]. unfold known.
    destruct (String.eqb (src_type source) "file") eqn:Ef.
    { apply String.eqb_eq in Ef. simpl.
      destruct (IH (acc ++ [ {[ "cookie_file" := CStr (src_identifier source);
                                "cookie_source" := CSource source ]} ]))
        as [(HF & made & -> & Hmade)|(HF & ->)].
      - left. split.
        + constructor; [|done]. intros E. rewrite Ef in E. done.
        + eexists (_ :: made). rewrite <- app_assoc. split; [done|].
          constructor; [|done]. split; [by simplify_map_eq|].
          split; [apply file_instance_keys|]. split.
          * intros _. split; by simplify_map_eq.
          * intros E. rewrite Ef in E. done.
      - right. split; [|done]. intros H. apply HF. by inversion H. }
    destruct (String.eqb (src_type source) "env_var") eqn:Ee; simpl.
    2:{ destruct (IH acc) as [(HF & made & -> & Hmade)|(HF & ->)].
        - left. split; [|by exists made].
          constructor; [|done]. intros E. rewrite E in Ee. done.
        - right. split; [|done]. intros H. apply HF. by inversion H. }
    apply String.eqb_eq in Ee.
    destruct (int_of_str env (last_field "_" (src_identifier source))) as [n|] eqn:En.
    2:{ right. split; [|done]. intros H. inversion H as [|? ? Hn _]; subst.
        destruct (Hn Ee) as [? ?]. congruence. }
    destruct (IH (acc ++ [ {[ "cookie_file" := CNone; "env_cookie_index" := CInt n;
                              "cookie_source" := CSource source ]} ]))
      as [(HF & made & -> & Hmade)|(HF & ->)].
    + left. split.
      * constructor; [|done]. intros _. by rewrite En.
      * eexists (_ :: made). rewrite <- app_assoc. split; [done|].
        constructor; [|done]. split; [by simplify_map_eq|].
        split; [apply env_instance_keys|]. split.
        -- intros E. rewrite Ee in E. done.
        -- intros _. split; [by simplify_map_eq|]. exists n. split; [done|by simplify_map_eq].
    + right. split; [|done]. intros H. apply HF. by inversion H.
Qed.

(** The state with one more record in its log. *)
Lemma log_state l msg s :
  log l msg s
  = (Ret tt, {| browser_processes := browser_processes s; app_running := app_running s;
                alive := alive s; created := created s; blocked := blocked s;
                trace := trace s ++ [ELog l msg] |}).
Proof. reflexivity. Qed.

Lemma load_instance_configurations_outcome s :
  forall url,
    clean_env_value (getenv env "CAMOUFOX_INSTANCE_URL") = Some url ->
    detect_all_sources env <> [] ->
    (Forall (numbered env) (detect_all_sources env)
     /\ exists global_settings instances,
          load_instance_configurations env s
          = (Ret (Some global_settings, Some instances),
             {| browser_processes := browser_processes s; app_running := app_running s;
                alive := alive s; created := created s; blocked := blocked s;
                trace := trace s ++ [ELog Info "number of browser instances to start"] |})
          /\ global_settings !! "url" = Some (CStr url)
          /\ global_settings !! "headless"
             = Some (CStr (default "virtual"
                             (clean_env_value (getenv env "CAMOUFOX_HEADLESS"))))
          /\ global_settings !! "proxy"
             = CStr <$> clean_env_value (getenv env "CAMOUFOX_PROXY")
          /\ Forall2 (made_from env) (List.filter known (detect_all_sources env)) instances)
    \/ (~ Forall (numbered env) (detect_all_sources env)
        /\ load_instance_configurations env s = (Exn ValueError, s)).
Proof.
  intros url Hurl Hsrc. unfold load_instance_configurations. rewrite Hurl.
  destruct (detect_all_sources env) as [|source sources] eqn:Es; [done|].
  destruct (instances_of_spec (source :: sources) []) as [(HF & made & -> & Hmade)|(HF & ->)].
  - left. split; [done|]. eexists _, made. split; [reflexivity|].
    destruct (clean_env_value (getenv env "CAMOUFOX_PROXY")); simplify_map_eq; done.
  - by right.
Qed.

End MainLoadingMore.

Section MainDrift.
Import Main.
Variable env : Env.

Lemma configs_app t1 t2 : configs (t1 ++ t2) = configs t1 ++ configs t2.
Proof. induction t1 as [|[] t1 IH]; simpl; by rewrite ?IH. Qed.

Lemma killed_app t1 t2 : killed (t1 ++ t2) = killed t1 ++ killed t2.
Proof. induction t1 as [|[] t1 IH]; simpl; by rewrite ?IH. Qed.

Lemma waiting_quiet t :
  Forall waiting t ->
  launched t = [] /\ configs t = [] /\ terminated t = [] /\ killed t = [].
Proof.
  induction 1 as [|e t He _ IH]; [done|]. by destruct e.
Qed.

Lemma drifts_refl s : drifts env s s.
Proof.
  split; [exists []; by rewrite app_nil_r|].
  split; [done|]. split; [done|]. split; [done|].
  intros H. split; [done|]. intros k. lia.
Qed.

Lemma drifts_trans s1 s2 s3 : drifts env s1 s2 -> drifts env s2 s3 -> drifts env s1 s3.
Proof.
  intros ((t1 & E1 & W1) & C1 & A1 & B1 & R1) ((t2 & E2 & W2) & C2 & A2 & B2 & R2).
  split; [exists (t1 ++ t2); split; [by rewrite E2, E1, app_assoc|by apply Forall_app]|].
  split; [congruence|]. split; [set_solver|]. split; [lia|].
  intros H3. destruct (R2 H3) as [H2 S2]. destruct (R1 H2) as [H1 S1].
  split; [done|]. intros k Hk.
  destruct (decide (k < blocked s2)%nat); [apply S1|apply S2]; lia.
Qed.

Lemma block_drifts s : drifts env s (snd (block env s)).
Proof.
  unfold block. simpl. split; [exists []; by rewrite app_nil_r|].
  split; [done|]. split; [set_solver|]. split; [simpl; lia|]. simpl.
  intros H. apply andb_true_iff in H as [H1 H2]. split; [done|].
  intros k Hk. assert (k = blocked s) as -> by lia. by destruct (stop env (blocked s)).
Qed.

Lemma emit_drifts e s : waiting e -> drifts env s (snd (emit e s)).
Proof.
  intros He. unfold emit. simpl. split; [exists [e]; by repeat constructor|].
  split; [done|]. split; [done|]. split; [done|]. simpl.
  intros H. split; [done|]. intros k. lia.
Qed.

Lemma sleep_drifts seconds s :
  fst (sleep env seconds s) = Ret tt
  /\ drifts env s (snd (sleep env seconds s))
  /\ blocked (snd (sleep env seconds s)) = S (blocked s)
  /\ browser_processes (snd (sleep env seconds s)) = browser_processes s.
Proof.
  unfold sleep, bind. simpl. split; [done|]. split; [|done].
  eapply drifts_trans; [apply (emit_drifts (ESleep seconds)); exact I|].
  apply block_drifts.
Qed.

Lemma join_drifts p timeout s :
  (fst (join env p timeout s) = Ret tt \/ fst (join env p timeout s) = Exn RuntimeError)
  /\ drifts env s (snd (join env p timeout s))
  /\ browser_processes (snd (join env p timeout s)) = browser_processes s
  /\ trace (snd (join env p timeout s)) = trace s ++ [EJoin p timeout].
Proof.
  unfold join, bind. simpl.
  destruct (join_raises env (blocked s)); simpl; (split; [auto|]); (split; [|done]).
  all: eapply drifts_trans; [apply (emit_drifts (EJoin p timeout)); exact I|].
  all: apply block_drifts.
Qed.

Lemma set_browser_processes_drifts l s : drifts env s (snd (set_browser_processes l s)).
Proof.
  unfold set_browser_processes. simpl. split; [exists []; by rewrite app_nil_r|].
  split; [done|]. split; [done|]. split; [done|]. simpl.
  intros H. split; [done|]. intros k. lia.
Qed.

(** One turn of the sweep on a handle that is alive. *)
Lemma sweep_alive p rest s :
  p ∈ alive s ->
  sweep env (p :: rest) s
  = match fst (join env p 1 s) with
    | Ret _ => sweep env rest (snd (join env p 1 s))
    | Exn e => (Exn e, snd (join env p 1 s))
    | Fuel => (Fuel, snd (join env p 1 s))
    end.
Proof.
  intros Hp. cbn [sweep]. unfold bind at 1, is_alive.
  rewrite bool_decide_eq_true_2 by done. simpl negb. cbv iota.
  unfold bind at 1. destruct (join env p 1 s) as [[[]| |] s1]; done.
Qed.

(** One turn of the sweep on a handle that has ended. *)
Lemma sweep_dead p rest s :
  p ∉ alive s ->
  sweep env (p :: rest) s
  = match remove_first p (browser_processes s) with
    | Some procs' => sweep env rest (snd (set_browser_processes procs' s))
    | None => (Exn ValueError, s)
    end.
Proof.
  intros Hp. cbn [sweep]. unfold bind at 1, is_alive.
  rewrite bool_decide_eq_false_2 by done. simpl negb. cbv iota.
  unfold bind at 1 2, get_browser_processes.
  destruct (remove_first p (browser_processes s)); done.
Qed.

Lemma sweep_drifts copy :
  forall s, fst (sweep env copy s) <> Fuel /\ drifts env s (snd (sweep env copy s)).
Proof.
  induction copy as [|p rest IH]; intros s.
  - split; [done|apply drifts_refl].
  - destruct (decide (p ∈ alive s)) as [Hp|Hp].
    + rewrite (sweep_alive _ _ _ Hp).
      destruct (join_drifts p 1 s) as ([E|E] & Hd & _); rewrite E.
      * destruct (IH (snd (join env p 1 s))) as [? ?].
        split; [done|]. by eapply drifts_trans.
      * by split.
    + rewrite (sweep_dead _ _ _ Hp).
      destruct (remove_first p (browser_processes s)) as [procs'|]; [|split; [done|apply drifts_refl]].
      destruct (IH (snd (set_browser_processes procs' s))) as [? ?].
      split; [done|]. eapply drifts_trans; [apply set_browser_processes_drifts|done].
Qed.

Lemma supervise_unfold fuel s :
  supervise env fuel s
  = if app_running s && negb (bool_decide (browser_processes s = [])) then
      match fuel with
      | O => (Fuel, s)
      | S fuel' =>
          match fst (sweep env (browser_processes s) s) with
          | Ret _ =>
              supervise env fuel'
                (snd (sleep env 1 (snd (sweep env (browser_processes s) s))))
          | Exn e => (Exn e, snd (sweep env (browser_processes s) s))
          | Fuel => (Fuel, snd (sweep env (browser_processes s) s))
          end
      end
    else (Ret tt, s).
Proof.
  destruct fuel as [|fuel'].
  - cbn [supervise]. unfold bind at 1 2, get_app_running, get_browser_processes.
    by destruct (app_running s && negb (bool_decide (browser_processes s = []))).
  - cbn [supervise]. unfold bind at 1 2, get_app_running, get_browser_processes.
    destruct (app_running s && negb (bool_decide (browser_processes s = []))); [|done].
    unfold bind at 1.
    destruct (sweep env (browser_processes s) s) as [[[]| |] s1]; try done.
Qed.

Lemma supervise_drifts fuel : forall s, drifts env s (snd (supervise env fuel s)).
Proof.
  induction fuel as [|fuel IH]; intros s; rewrite supervise_unfold.
  - destruct (_ && _); apply drifts_refl.
  - destruct (_ && _); [|apply drifts_refl].
    destruct (sweep_drifts (browser_processes s) s) as [_ Hd].
    destruct (fst (sweep env (browser_processes s) s)); try done.
    eapply drifts_trans; [exact Hd|].
    eapply drifts_trans; [apply sleep_drifts|apply IH].
Qed.

Lemma supervise_returns fuel :
  forall s, fst (supervise env fuel s) = Ret tt ->
            app_running (snd (supervise env fuel s)) = false
            \/ browser_processes (snd (supervise env fuel s)) = [].
Proof.
  induction fuel as [|fuel IH]; intros s; rewrite supervise_unfold.
  all: destruct (app_running s) eqn:Hr; simpl; [|by left].
  all: destruct (bool_decide (browser_processes s = [])) eqn:Hb; simpl;
    [intros _; right; by apply bool_decide_eq_true in Hb|]; try done.
  destruct (fst (sweep env (browser_processes s) s)); try done. apply IH.
Qed.

(** The supervision loop ends once a stop request has arrived. *)
Lemma supervise_stops k fuel :
  stop env k = true ->
  forall s, (blocked s <= k)%nat -> (k - blocked s < fuel)%nat ->
            fst (supervise env fuel s) <> Fuel.
Proof.
  intros Hk. induction fuel as [|fuel IH]; intros s Hs Hf; [lia|].
  rewrite supervise_unfold. destruct (_ && _); [|done].
  destruct (sweep_drifts (browser_processes s) s) as [Hne Hd].
  destruct (fst (sweep env (browser_processes s) s)) as [[]|e|]; try done.
  set (s1 := snd (sweep env (browser_processes s) s)) in *.
  destruct (sleep_drifts 1 s1) as (_ & Hd2 & Hb2 & _).
  set (s2 := snd (sleep env 1 s1)) in *.
  pose proof (drifts_trans _ _ _ Hd Hd2) as (_ & _ & _ & Hb & Hrun).
  destruct (decide (blocked s2 <= k)%nat) as [Hle|Hgt].
  - apply IH; [done|]. destruct Hd as (_ & _ & _ & Hb1 & _). lia.
  - rewrite supervise_unfold.
    destruct (app_running s2) eqn:Hr; simpl; [|done].
    destruct (Hrun eq_refl) as [_ Hno]. rewrite Hno in Hk by lia. done.
Qed.

End MainDrift.

Section MainSweep.
Import Main.
Variable env : Env.

Lemma remove_first_middle p kept rest :
  p ∉ kept -> remove_first p (kept ++ p :: rest) = Some (kept ++ rest).
Proof.
  induction kept as [|q kept IH]; intros Hp; simpl.
  - by rewrite Nat.eqb_refl.
  - destruct (Nat.eqb q p) eqn:E.
    + apply Nat.eqb_eq in E as ->. set_solver.
    + rewrite IH; [done|set_solver].
Qed.

Lemma sweep_kept copy :
  forall kept s,
    browser_processes s = kept ++ copy ->
    NoDup (kept ++ copy) ->
    exists copy',
      browser_processes (snd (sweep env copy s)) = kept ++ copy'
      /\ sublist copy' copy
      /\ (forall p, p ∈ copy -> p ∈ alive (snd (sweep env copy s)) -> p ∈ copy')
      /\ (fst (sweep env copy s) = Ret tt -> forall p, p ∈ copy' -> p ∈ alive s)
      /\ (fst (sweep env copy s) = Ret tt \/ fst (sweep env copy s) = Exn RuntimeError).
Proof.
  induction copy as [|p rest IH]; intros kept s Hbp Hnd.
  - exists []. simpl. split; [done|]. split; [done|]. split; [|split; [|by left]].
    + intros p Hp. by apply elem_of_nil in Hp.
    + intros _ p Hp. by apply elem_of_nil in Hp.
  - destruct (decide (p ∈ alive s)) as [Hp|Hp].
    + rewrite (sweep_alive _ _ _ _ Hp).
      destruct (join_drifts env p 1 s) as ([E|E] & Hd & Hbp1 & _); rewrite E.
      * destruct (IH (kept ++ [p]) (snd (join env p 1 s))) as (rest' & H1 & H2 & H3 & H4 & H5).
        { by rewrite Hbp1, Hbp, <- app_assoc. }
        { by rewrite <- app_assoc. }
        exists (p :: rest'). rewrite H1, <- app_assoc. split; [done|].
        split; [by apply sublist_skip|]. split; [|split; [|done]].
        -- intros q Hq Hq'. apply elem_of_cons in Hq as [->|Hq]; [set_solver|].
           apply elem_of_cons. right. by apply H3.
        -- intros Hret q Hq. apply elem_of_cons in Hq as [->|Hq]; [done|].
           destruct Hd as (_ & _ & Hal & _). apply Hal. by apply H4.
      * exists (p :: rest). simpl. rewrite Hbp1. split; [done|].
        split; [done|]. split; [done|]. split; [done|by right].
    + rewrite (sweep_dead _ _ _ _ Hp), Hbp.
      rewrite remove_first_middle.
      2:{ apply NoDup_app in Hnd as (_ & Hnd & _). intros Hk. apply (Hnd p Hk). set_solver. }
      destruct (IH kept (snd (set_browser_processes (kept ++ rest) s)))
        as (rest' & H1 & H2 & H3 & H4 & H5).
      { done. }
      { apply NoDup_app in Hnd as (Hk & Hdisj & Hr). apply NoDup_app.
        split; [done|]. split; [|by inversion Hr]. intros q Hq Hq'. apply (Hdisj q Hq). set_solver. }
      exists rest'. split; [done|]. split; [by apply sublist_cons|].
      split; [|split; [|done]].
      * intros q Hq Hq'. apply elem_of_cons in Hq as [->|Hq]; [|by apply H3].
        exfalso. apply Hp.
        destruct (sweep_drifts env rest (snd (set_browser_processes (kept ++ rest) s)))
          as (_ & _ & _ & Hal & _).
        by apply Hal.
      * intros Hret q Hq. by apply (H4 Hret).
Qed.

Lemma sweep_joins copy :
  forall s, exists t,
    trace (snd (sweep env copy s)) = trace s ++ t
    /\ Forall (fun e => exists p, e = EJoin p 1 /\ p ∈ alive s) t.
Proof.
  induction copy as [|p rest IH]; intros s.
  - exists []. simpl. by rewrite app_nil_r.
  - destruct (decide (p ∈ alive s)) as [Hp|Hp].
    + rewrite (sweep_alive _ _ _ _ Hp).
      destruct (join_drifts env p 1 s) as ([E|E] & Hd & _ & Ht); rewrite E.
      * destruct (IH (snd (join env p 1 s))) as (t & Ht' & HF).
        exists (EJoin p 1 :: t). rewrite Ht', Ht, <- app_assoc. split; [done|].
        constructor; [by exists p|].
        eapply Forall_impl; [exact HF|]. intros e (q & -> & Hq). exists q. split; [done|].
        destruct Hd as (_ & _ & Hal & _). by apply Hal.
      * exists [EJoin p 1]. simpl. split; [done|]. constructor; [by exists p|constructor].
    + rewrite (sweep_dead _ _ _ _ Hp).
      destruct (remove_first p (browser_processes s)) as [procs'|].
      * destruct (IH (snd (set_browser_processes procs' s))) as (t & Ht' & HF).
        by exists t.
      * exists []. simpl. by rewrite app_nil_r.
Qed.

End MainSweep.

Section MainLaunchConfigs.
Import Main.
Variable env : Env.

Lemma launch_loop_step_config global_settings total i profile rest s :
  resolved global_settings profile ->
  app_running s = true ->
  exists t s1,
    trace s1 = trace s ++ t
    /\ launched t = [created s]
    /\ configs t = [profile ∪ global_settings]
    /\ browser_processes s1 = browser_processes s ++ [created s]
    /\ created s1 = S (created s)
    /\ blocked s1 = (if (i <? total)%nat then S (blocked s) else blocked s)
    /\ app_running s1 = (if (i <? total)%nat then negb (stop env (blocked s)) else true)
    /\ launch_loop env global_settings total i (profile :: rest) s
       = launch_loop env global_settings total (S i) rest s1.
Proof.
  intros [[u Hu] [source Hsrc]] Hrun.
  cbn [launch_loop]. unfold bind at 1, get_app_running. rewrite Hrun. simpl negb. cbv iota.
  rewrite Hu, Hsrc. simpl.
  destruct (String.eqb (src_type source) "file"),
    (String.eqb (src_type source) "env_var"), (i <? total)%nat;
    unfold bind, log, emit, new_process, get_browser_processes, set_browser_processes,
      start, sleep, block, ret; simpl;
    eexists _, _; (do 7 (split; [shelve|])); reflexivity.
  Unshelve.
  all: simpl; rewrite ?Hrun; try done.
  all: repeat rewrite <- (app_assoc (trace s)); try reflexivity.
Qed.

Lemma launch_loop_all_config profiles :
  forall global_settings total i s,
    Forall (resolved global_settings) profiles ->
    app_running s = true ->
    (i + length profiles = S total)%nat ->
    (forall j, (j + 1 < length profiles)%nat -> stop env (blocked s + j) = false) ->
    exists t s',
      launch_loop env global_settings total i profiles s = (Ret tt, s')
      /\ trace s' = trace s ++ t
      /\ launched t = seq (created s) (length profiles)
      /\ configs t = map (fun profile => profile ∪ global_settings) profiles.
Proof.
  induction profiles as [|profile rest IH]; intros gs total i s Hres Hrun Hi Hstop.
  - exists [], s. simpl. rewrite !app_nil_r. done.
  - inversion Hres as [|? ? Hp Hrest]; subst.
    destruct (launch_loop_step_config gs total i profile rest s Hp Hrun)
      as (t1 & s1 & Ht1 & Hl1 & Hcf1 & Hbp1 & Hc1 & Hb1 & Hr1 & ->).
    simpl in Hi.
    destruct rest as [|profile' rest'].
    + exists t1, s1. simpl. done.
    + assert ((i <? total)%nat = true) as E by (apply Nat.ltb_lt; simpl in Hi; lia).
      rewrite E in *.
      destruct (IH gs total (S i) s1 Hrest) as (t2 & s2 & Hrun2 & Ht2 & Hl2 & Hcf2).
      * rewrite Hr1. pose proof (Hstop 0%nat) as H0. rewrite Nat.add_0_r in H0.
        rewrite H0; [done | simpl; lia].
      * simpl in *. lia.
      * intros j Hj. rewrite Hb1. replace (S (blocked s) + j)%nat with (blocked s + S j)%nat by lia.
        apply Hstop. simpl in *. lia.
      * exists (t1 ++ t2), s2. rewrite Hrun2, Ht2, Ht1, app_assoc.
        rewrite launched_app, configs_app, Hl1, Hcf1, Hl2, Hcf2, Hc1.
        repeat split; simpl; rewrite <- ?app_assoc; done.
Qed.

End MainLaunchConfigs.

Section MainShutdown.
Import Main.
Variable env : Env.
Hypothesis Hjoin : forall k, join_raises env k = false.

Lemma terminate_all_cons p procs s :
  terminate_all env (p :: procs) s
  = if bool_decide (p ∈ alive s)
    then terminate_all env procs (snd (join env p 5 (snd (terminate p s))))
    else terminate_all env procs s.
Proof.
  cbn [terminate_all]. unfold bind at 1, is_alive.
  destruct (bool_decide (p ∈ alive s)); [|done].
  cbv beta iota delta [bind terminate join try_except_all kill emit block ret]. simpl.
  by rewrite Hjoin.
Qed.

(** When no [join] raises, [terminate_all] kills nothing, and a process
    that does not end by itself is still alive afterwards. *)
Lemma terminate_all_no_kill procs :
  forall s, exists t,
    trace (snd (terminate_all env procs s)) = trace s ++ t
    /\ killed t = []
    /\ (forall p, p ∈ alive s -> (forall k, exits env k p = false) ->
                  p ∈ alive (snd (terminate_all env procs s))).
Proof.
  induction procs as [|p procs IH]; intros s.
  - exists []. simpl. by rewrite app_nil_r.
  - rewrite terminate_all_cons.
    destruct (bool_decide (p ∈ alive s)); [|apply IH].
    destruct (IH (snd (join env p 5 (snd (terminate p s))))) as (t & Ht & Hk & Hal).
    set (s1 := snd (join env p 5 (snd (terminate p s)))) in *.
    assert (trace s1 = trace s ++ [ETerminate p; EJoin p 5]) as Htr.
    { unfold s1, join, bind, terminate, emit, block. simpl. rewrite Hjoin. simpl.
      by rewrite <- app_assoc. }
    assert (alive s1 = filter (fun q => exits env (blocked s) q = false) (alive s)) as Hal1.
    { unfold s1, join, bind, terminate, emit, block. simpl. by rewrite Hjoin. }
    exists (ETerminate p :: EJoin p 5 :: t).
    rewrite Ht, Htr, <- app_assoc. split; [done|]. split; [done|].
    intros q Hq Hex. apply Hal; [|done]. rewrite Hal1.
    apply elem_of_filter. split; [apply Hex|done].
Qed.

End MainShutdown.

Section MainStartup.
Import Main Common.
Variable env : Env.

Lemma made_from_length sources instances :
  Forall2 (made_from env) sources instances -> length instances = length sources.
Proof. intros H. symmetry. by eapply Forall2_length. Qed.

(** The loader writes log records and touches nothing else. *)
Lemma load_instance_configurations_frame s :
  exists o t,
    load_instance_configurations env s
    = (o, {| browser_processes := browser_processes s; app_running := app_running s;
             alive := alive s; created := created s; blocked := blocked s;
             trace := trace s ++ t |})
    /\ o <> Fuel /\ Forall waiting t.
Proof.
  destruct (clean_env_value (getenv env "CAMOUFOX_INSTANCE_URL")) as [url|] eqn:Hurl.
  2:{ destruct (load_instance_configurations_nothing env s (or_introl Hurl)) as [msg ->].
      eexists _, [_]. split; [reflexivity|]. split; [done|]. by repeat constructor. }
  destruct (detect_all_sources env) as [|source sources] eqn:Hsrc.
  { destruct (load_instance_configurations_nothing env s (or_intror Hsrc)) as [msg ->].
    eexists _, [_]. split; [reflexivity|]. split; [done|]. by repeat constructor. }
  destruct (load_instance_configurations_outcome env s url Hurl)
    as [(_ & gs & instances & -> & _)|(_ & ->)]; [by rewrite Hsrc|..].
  - eexists _, [_]. split; [reflexivity|]. split; [done|]. by repeat constructor.
  - eexists _, []. rewrite app_nil_r. split; [by destruct s|]. split; [done|constructor].
Qed.

Lemma supervise_not_running fuel s :
  app_running s = false -> supervise env fuel s = (Ret tt, s).
Proof. intros H. rewrite supervise_unfold, H. done. Qed.

Lemma start_browser_instances_idle fuel s :
  app_running s = false ->
  exists o t,
    start_browser_instances env fuel s
    = (o, {| browser_processes := browser_processes s; app_running := app_running s;
             alive := alive s; created := created s; blocked := blocked s;
             trace := trace s ++ t |})
    /\ o <> Fuel /\ Forall waiting t.
Proof.
  intros Hrun. unfold start_browser_instances, bind at 1.
  rewrite log_state. unfold bind at 1.
  match goal with |- context [load_instance_configurations env ?s0] =>
    destruct (load_instance_configurations_frame s0) as (o & t & -> & Ho & Hw)
  end.
  cbn [trace browser_processes app_running alive created blocked].
  destruct o as [[gs [[|profile rest]|]]|e|]; [| | | |done]; cbv iota beta.
  - unfold bind, log, emit, ret.
    cbn [trace browser_processes app_running alive created blocked].
    eexists _, (_ :: t ++ [_]). rewrite <- !app_assoc. split; [reflexivity|].
    split; [done|]. constructor; [exact I|]. apply Forall_app. split; [done|].
    by repeat constructor.
  - destruct gs as [gs|].
    + unfold bind at 1. rewrite launch_loop_not_running by done.
      rewrite supervise_not_running by done.
      eexists _, (_ :: t). rewrite <- !app_assoc. split; [reflexivity|].
      split; [done|]. by constructor.
    + eexists _, (_ :: t). rewrite <- !app_assoc. split; [reflexivity|].
      split; [done|]. by constructor.
  - unfold bind, log, emit, ret.
    cbn [trace browser_processes app_running alive created blocked].
    eexists _, (_ :: t ++ [_]). rewrite <- !app_assoc. split; [reflexivity|].
    split; [done|]. constructor; [exact I|]. apply Forall_app. split; [done|].
    by repeat constructor.
  - eexists _, (_ :: t). rewrite <- !app_assoc. split; [reflexivity|].
    split; [done|]. by constructor.
Qed.

End MainStartup.







(** X19. One pass of the supervision loop over a list without repeated
    handles.  It never fails to remove a handle; it keeps the order of the
    handles and drops no worker that is still alive; when it comes to its
    end, every handle left belonged to a worker that was alive when the pass
    began, so the handles of the workers that had ended are gone; and all it
    does is join live workers for one second. *)
Theorem sweep_removes_ended (env : Main.Env) (s : Main.State) :
  NoDup (Main.browser_processes s) ->
  let run := Main.sweep env (Main.browser_processes s) s in
  (fst run = Ret tt \/ fst run = Exn RuntimeError)
  /\ sublist (Main.browser_processes (snd run)) (Main.browser_processes s)
  /\ (forall p, p ∈ Main.browser_processes s -> p ∈ Main.alive (snd run) ->
                p ∈ Main.browser_processes (snd run))
  /\ (fst run = Ret tt ->
      forall p, p ∈ Main.browser_processes (snd run) -> p ∈ Main.alive s)
  /\ exists t,
       Main.trace (snd run) = Main.trace s ++ t
       /\ Forall (fun e => exists p, e = Main.EJoin p 1 /\ p ∈ Main.alive s) t.
Proof.
  intros Hnd run.
  destruct (sweep_kept env (Main.browser_processes s) [] s eq_refl Hnd)
    as (copy' & H1 & H2 & H3 & H4 & H5).
  fold run in H1, H3, H4, H5. simpl in H1. rewrite H1.
  split; [done|]. split; [done|]. split; [done|]. split; [done|].
  apply sweep_joins.
Qed.

Lemma sweep_removes_ended_witness :
  NoDup (Main.browser_processes one_worker)
  /\ sublist
       (Main.browser_processes
          (snd (Main.sweep (deployment [file_source] true)
                  (Main.browser_processes one_worker) one_worker)))
       (Main.browser_processes one_worker).
Proof.
  assert (NoDup (Main.browser_processes one_worker)) as Hnd.
  { vm_compute. apply NoDup_singleton. }
  split; [exact Hnd|].
  pose proof (sweep_removes_ended (deployment [file_source] true) one_worker Hnd) as H.
  cbv zeta in H. destruct H as (_ & Hsub & _). exact Hsub.
Defined.

(** X20. The supervision loop ends once a stop request has arrived: if the
    running flag is cleared during the [k]-th blocking call, the loop is
    over after at most as many passes as there are blocking calls up to
    that one.  While it runs it only waits; it starts, terminates and kills
    nothing; and it returns only with the flag cleared or the list empty. *)
Theorem supervise_stops_on_request (env : Main.Env) (fuel k : nat) (s : Main.State) :
  Main.stop env k = true ->
  (Main.blocked s <= k)%nat -> (k - Main.blocked s < fuel)%nat ->
  let run := Main.supervise env fuel s in
  fst run <> Fuel
  /\ (fst run = Ret tt ->
      Main.app_running (snd run) = false \/ Main.browser_processes (snd run) = [])
  /\ drifts env s (snd run).
Proof.
  intros Hk Hs Hf run. split; [by apply (supervise_stops env k)|].
  split; [apply supervise_returns|apply supervise_drifts].
Qed.

Lemma supervise_stops_on_request_witness :
  Main.stop stopping_env 1 = true
  /\ fst (Main.supervise stopping_env 2 one_worker) <> Fuel
  /\ (fst (Main.supervise stopping_env 2 one_worker) = Ret tt ->
      Main.app_running (snd (Main.supervise stopping_env 2 one_worker)) = false
      \/ Main.browser_processes (snd (Main.supervise stopping_env 2 one_worker)) = []).
Proof.
  split; [reflexivity|].
  pose proof (supervise_stops_on_request stopping_env 2 1 one_worker eq_refl) as H.
  cbv zeta in H. destruct H as (Hne & Hret & _).
  - vm_compute. lia.
  - vm_compute. lia.
  - split; [exact Hne|exact Hret].
Defined.

(** X21. The two routes report the same two numbers and change nothing:
    the length of the process list and the number of its live processes,
    which is never the greater one. *)
Theorem index_health_agree (s : Main.State) :
  exists h i,
    Main.health_check s = (Ret h, s) /\ Main.index s = (Ret i, s)
    /\ Main.home_browser_instances i = Main.browser_instances h
    /\ Main.home_running_instances i = Main.running_instances h
    /\ Main.browser_instances h = length (Main.browser_processes s)
    /\ (Main.running_instances h <= Main.browser_instances h)%nat.
Proof.
  unfold Main.health_check, Main.index, bind, Main.get_browser_processes.
  rewrite count_alive_reads. eexists _, _. split; [reflexivity|]. split; [reflexivity|].
  simpl. repeat split. apply List.filter_length_le.
Qed.

(** X22. When no [join] raises, [signal_handler] kills nothing: a worker
    that does not end by itself is still alive when the handler leaves with
    [SystemExit], five seconds of waiting notwithstanding. *)
Theorem signal_handler_never_kills (env : Main.Env) (signum : Z) (s : Main.State) :
  (forall k, Main.join_raises env k = false) ->
  exists s' t,
    Main.signal_handler env signum s = (Exn (SystemExit 0), s')
    /\ Main.trace s' = Main.trace s ++ t
    /\ killed t = []
    /\ (forall p, p ∈ Main.alive s -> (forall k, Main.exits env k p = false) ->
                  p ∈ Main.alive s').
Proof.
  intros Hjoin.
  unfold Main.signal_handler, bind at 1. rewrite log_state.
  unfold bind at 1, Main.set_app_running. simpl.
  unfold bind at 1, Main.get_browser_processes. simpl.
  set (s0 := {| Main.browser_processes := Main.browser_processes s;
                Main.app_running := false; Main.alive := Main.alive s;
                Main.created := Main.created s; Main.blocked := Main.blocked s;
                Main.trace := Main.trace s
                              ++ [Main.ELog Main.Info "signal received, shutting down"] |}).
  destruct (terminate_all_spec env (Main.browser_processes s) s0 eq_refl)
    as (t & s1 & Hrun & _).
  destruct (terminate_all_no_kill env Hjoin (Main.browser_processes s) s0)
    as (t' & Ht' & Hk & Hal).
  unfold bind at 1. rewrite Hrun in *. simpl in Ht', Hal.
  unfold bind, Main.log, Main.emit, raise. simpl.
  eexists _, (Main.ELog Main.Info "signal received, shutting down" :: t'
              ++ [Main.ELog Main.Info "all processes closed"]).
  split; [reflexivity|]. simpl. rewrite Ht'. rewrite <- !app_assoc. split; [done|].
  split; [|done]. rewrite killed_app, Hk. done.
Qed.

Lemma signal_handler_never_kills_witness :
  exists s',
    Main.signal_handler stubborn_env 15 one_worker = (Exn (SystemExit 0), s')
    /\ 0%nat ∈ Main.alive s'
    /\ killed (Main.trace s') = [].
Proof.
  destruct (signal_handler_never_kills stubborn_env 15 one_worker)
    as (s' & t & Hrun & Ht & Hk & Hal).
  - reflexivity.
  - exists s'. split; [exact Hrun|]. split.
    + apply Hal; [vm_compute; set_solver|reflexivity].
    + rewrite Ht, killed_app, Hk. reflexivity.
Defined.

(** X23. Without the running flag nothing is started: called with the
    flag cleared, [start_browser_instances] reads the configuration and
    returns at once, with no worker launched, no handle added and no
    waiting. *)
Theorem start_browser_instances_not_running (env : Main.Env) (fuel : nat)
  (s : Main.State) :
  Main.app_running s = false ->
  let run := Main.start_browser_instances env fuel s in
  fst run <> Fuel
  /\ launched (Main.trace (snd run)) = launched (Main.trace s)
  /\ Main.browser_processes (snd run) = Main.browser_processes s
  /\ Main.blocked (snd run) = Main.blocked s
  /\ Main.alive (snd run) = Main.alive s.
Proof.
  intros Hrun run.
  destruct (start_browser_instances_idle env fuel s Hrun) as (o & t & E & Ho & Hw).
  unfold run. rewrite E. simpl.
  destruct (waiting_quiet _ Hw) as (Hl & _).
  rewrite launched_app, Hl, app_nil_r. done.
Qed.

Lemma start_browser_instances_not_running_witness :
  Main.app_running Main.initial = false
  /\ launched (Main.trace (snd (Main.start_browser_instances
                                  (deployment [file_source] false) 0 Main.initial))) = [].
Proof.
  split; [reflexivity|].
  pose proof (start_browser_instances_not_running (deployment [file_source] false) 0
                Main.initial eq_refl) as H.
  cbv zeta in H. destruct H as (_ & Hl & _). exact Hl.
Defined.



(** ** Converted cookies and loaded configurations *)

Section Reconversion.
Import CookieHandler.
Variable int_of_str : string -> option Z.

Lemma build_playwright_format cookie :
  playwright_format cookie ->
  exists pw, build int_of_str cookie = Ret pw /\ reconverted cookie pw.
Proof.
  intros [Hs He]. unfold build, set_expires. rewrite Hs, He.
  cbn [default from_option id truthy].
  eexists. split; [reflexivity|]. split; [|split; [|split; [|split]]].
  - intros k Hk. rewrite set_same_site_lookup.
    + rewrite copy_keys_lookup, lookup_empty, decide_True by done.
      by destruct (cookie !! k).
    + intros ->. unfold copied_keys in Hk. set_solver.
  - rewrite set_same_site_lookup by done.
    by rewrite copy_keys_lookup, lookup_empty.
  - intros H. unfold set_same_site. rewrite H.
    change (lower (py_str (PyStr "None"))) with "none".
    change (String.eqb "none" "no_restriction") with false.
    change (String.eqb "none" "lax") with false.
    change (String.eqb "none" "strict") with false.
    change (String.eqb "none" "unspecified") with false. cbn [orb]. cbv iota.
    by rewrite copy_keys_lookup, lookup_empty.
  - intros H. unfold set_same_site. rewrite H.
    change (lower (py_str (PyStr "Lax"))) with "lax".
    change (String.eqb "lax" "no_restriction") with false.
    change (String.eqb "lax" "lax") with true. cbv iota. cbn [orb].
    by rewrite lookup_insert.
  - intros H. unfold set_same_site. rewrite H.
    change (lower (py_str (PyStr "Strict"))) with "strict".
    change (String.eqb "strict" "no_restriction") with false.
    change (String.eqb "strict" "lax") with false.
    change (String.eqb "strict" "strict") with true. cbv iota. cbn [orb].
    by rewrite lookup_insert.
Qed.

Lemma convert_playwright_format cookies :
  Forall playwright_format cookies ->
  forall acc, exists out,
    convert_loop int_of_str cookies acc = Ret (acc ++ out)
    /\ Forall2 reconverted (List.filter has_required cookies) out.
Proof.
  induction 1 as [|c cookies Hc _ IH]; intros acc.
  - exists []. simpl. rewrite app_nil_r. split; [done|constructor].
  - destruct (build_playwright_format c Hc) as (pw & Hb & Hr).
    cbn [convert_loop List.filter]. rewrite Hb, (build_complete _ _ _ Hb).
    destruct (has_required c).
    + destruct (IH (acc ++ [pw])) as (out & -> & HF).
      exists (pw :: out). rewrite <- app_assoc. split; [done|]. by constructor.
    + apply IH.
Qed.

End Reconversion.

(** X25. Cookies that are already in Playwright's format (no [session], no
    [expirationDate]) are converted without error, but not unchanged: each
    complete cookie keeps its name, value, domain, path, [httpOnly] and
    [secure], loses its [expires], and keeps [sameSite] only when it is
    [Lax] or [Strict]: a [sameSite] of [None] is lost. *)
Theorem convert_cookie_editor_to_playwright_again
  (int_of_str : string -> option Z) (cookies : list (gmap string PyVal)) :
  Forall playwright_format cookies ->
  exists out,
    CookieHandler.convert_cookie_editor_to_playwright int_of_str cookies = Ret out
    /\ Forall2 reconverted (List.filter has_required cookies) out.
Proof.
  intros H. apply (convert_playwright_format int_of_str cookies H []).
Qed.

Lemma convert_cookie_editor_to_playwright_again_witness :
  exists pw,
    CookieHandler.convert_cookie_editor_to_playwright (fun _ => None) [stored_cookie]
    = Ret [pw]
    /\ pw !! "expires" = None /\ pw !! "sameSite" = None.
Proof.
  destruct (convert_cookie_editor_to_playwright_again (fun _ => None) [stored_cookie])
    as (out & Hrun & HF).
  - repeat constructor.
  - change (List.filter has_required [stored_cookie]) with [stored_cookie] in HF.
    inversion HF as [|c pw cs pws (_ & He & Hs & _) Hrest]; subst.
    inversion Hrest; subst.
    exists pw. split; [exact Hrun|]. split; [exact He|]. apply Hs. reflexivity.
Defined.

Section MainLaunchQuiet.
Import Main.
Variable env : Env.

Lemma complaints_app t1 t2 : complaints (t1 ++ t2) = complaints t1 ++ complaints t2.
Proof. apply List.filter_app. Qed.

Lemma launch_loop_step_quiet global_settings total i profile rest s :
  resolved global_settings profile ->
  app_running s = true ->
  exists t s1,
    trace s1 = trace s ++ t
    /\ launched t = [created s]
    /\ complaints t = []
    /\ launch_loop env global_settings total i (profile :: rest) s
       = launch_loop env global_settings total (S i) rest s1.
Proof.
  intros [[u Hu] [source Hsrc]] Hrun.
  cbn [launch_loop]. unfold bind at 1, get_app_running. rewrite Hrun. simpl negb. cbv iota.
  rewrite Hu, Hsrc. simpl.
  destruct (String.eqb (src_type source) "file"),
    (String.eqb (src_type source) "env_var"), (i <? total)%nat;
    unfold bind, log, emit, new_process, get_browser_processes, set_browser_processes,
      start, sleep, block, ret; simpl;
    eexists _, _; (do 3 (split; [shelve|])); reflexivity.
  Unshelve.
  all: simpl; try done.
  all: repeat rewrite <- (app_assoc (trace s)); try reflexivity.
Qed.

(** On resolved configurations the launch loop returns without a
    complaint: it skips nothing. *)
Lemma launch_loop_quiet profiles :
  forall global_settings total i s,
    Forall (resolved global_settings) profiles ->
    exists t s',
      launch_loop env global_settings total i profiles s = (Ret tt, s')
      /\ trace s' = trace s ++ t
      /\ complaints t = []
      /\ (length (launched t) <= length profiles)%nat.
Proof.
  induction profiles as [|profile rest IH]; intros gs total i s Hres.
  - exists [], s. simpl. by rewrite app_nil_r.
  - destruct (app_running s) eqn:Hrun.
    2:{ rewrite launch_loop_not_running by done. exists [], s.
        rewrite app_nil_r. repeat split; simpl; lia. }
    inversion Hres as [|? ? Hp Hrest]; subst.
    destruct (launch_loop_step_quiet gs total i profile rest s Hp Hrun)
      as (t1 & s1 & Ht1 & Hl1 & Hc1 & ->).
    destruct (IH gs total (S i) s1 Hrest) as (t2 & s2 & -> & Ht2 & Hc2 & Hlen).
    exists (t1 ++ t2), s2. split; [done|].
    rewrite Ht2, Ht1, app_assoc, complaints_app, launched_app, length_app, Hc1, Hc2, Hl1.
    repeat split; simpl; lia.
Qed.

End MainLaunchQuiet.

(** X26. The launch loop never skips a configuration the loader returned.
    Whatever [load_instance_configurations] returns passes both checks of
    the loop: run on it, the loop returns normally and logs neither the
    warning for a missing [url] nor the error for a missing cookie source,
    whether or not a stop request cuts it short. *)
Theorem launch_loop_never_skips (env : Main.Env) (s s1 : Main.State)
  (global_settings : gmap string Main.CfgVal)
  (instances : list (gmap string Main.CfgVal)) :
  Main.load_instance_configurations env s
  = (Ret (Some global_settings, Some instances), s1) ->
  exists t s2,
    Main.launch_loop env global_settings (length instances) 1 instances s1 = (Ret tt, s2)
    /\ Main.trace s2 = Main.trace s1 ++ t
    /\ complaints t = []
    /\ (length (launched t) <= length instances)%nat.
Proof.
  intros Hload. apply launch_loop_quiet.
  by apply (load_instance_configurations_resolved env s _ _ s1).
Qed.

Lemma launch_loop_never_skips_witness :
  exists t s2,
    Main.launch_loop (deployment [file_source] false) sample_settings 1 1 [sample_profile]
      (snd (Main.load_instance_configurations (deployment [file_source] false) ready))
    = (Ret tt, s2)
    /\ complaints t = [].
Proof.
  destruct (launch_loop_never_skips (deployment [file_source] false) ready
              (snd (Main.load_instance_configurations (deployment [file_source] false) ready))
              sample_settings [sample_profile] eq_refl)
    as (t & s2 & Hrun & _ & Hc & _).
  exists t, s2. split; [exact Hrun|exact Hc].
Defined.
